(** * gpuvis: the nvtrc trace container (src/nv/NvTraceFormat.h) and its
      adapter (src/gpuvis-nvtrc.cpp)

    A shallow embedding of the file codec, the timestamp converter, the
    name setter and the event adapter, followed by the properties of the
    specification that concern them.

    Modelling conventions.
    - A file is a list of bytes; multi-byte integers are little-endian
      (the format is native-endian, written on x86).
    - [std::ifstream] and [std::ofstream] are explicit states threaded
      through the calls.  An input stream records every [read] request, so
      that "no further read is attempted" can be stated.
    - Fixed-width integers are [Z] with the two's-complement wrap-around
      written out ([wrap_s], [wrap_u]).
    - A trivially copyable struct is a record together with its object
      representation ([to_bytes], [of_bytes]); [ifs.read] into an object
      overwrites a prefix of that representation.
    - [double] is [spec_float] at precision 53 and maximal exponent 1024.
    - Memory is unbounded: [vector::resize] fails only when the requested
      size exceeds [max_size], which is what a negative on-disk count turns
      into once converted to [size_t]. *)

From Stdlib Require Import Ascii String ZArith List Lia Bool QArith Qround.
From Stdlib Require Import Floats.SpecFloat.
From coqutil Require Import Byte Word.LittleEndianList.
Import ListNotations.

Local Open Scope Z_scope.

(** ** Fixed-width integers *)

(** The value of a [w]-bit unsigned integer holding [z]. *)
Definition wrap_u (w : Z) (z : Z) : Z := z mod 2 ^ w.

(** The value of a [w]-bit two's-complement integer holding [z]. *)
Definition wrap_s (w : Z) (z : Z) : Z := (z + 2 ^ (w - 1)) mod 2 ^ w - 2 ^ (w - 1).

Definition in_signed (w : Z) (z : Z) : Prop := - 2 ^ (w - 1) <= z < 2 ^ (w - 1).
Definition in_unsigned (w : Z) (z : Z) : Prop := 0 <= z < 2 ^ w.

Definition in_signedb (w : Z) (z : Z) : bool :=
  (- 2 ^ (w - 1) <=? z) && (z <? 2 ^ (w - 1)).

(** Little-endian object representation of integers of [n] bytes. *)
Definition le_unsigned (bs : list byte) : Z := le_combine bs.
Definition le_signed (n : nat) (bs : list byte) : Z :=
  wrap_s (8 * Z.of_nat n) (le_combine bs).

(** ** Streams *)

(** [std::ifstream] opened on a file: the bytes not yet extracted, the get
    position, the failure state ([!ifs]), and the sizes of the [read] calls
    made so far (oldest first). *)
Record ifstream := mk_ifstream {
  is_rest  : list byte;
  is_gpos  : Z;
  is_fail  : bool;
  is_reads : list Z
}.

Definition ifstream_open (file : list byte) : ifstream :=
  mk_ifstream file 0 false [].

(** [ifs.read(dst, n)]: returns the bytes stored at [dst] and the new stream.
    On a stream that already failed nothing is extracted.  A request that
    cannot be met in full (or a negative count) extracts what is there and
    sets the failure state. *)
Definition istream_read (s : ifstream) (n : Z) : list byte * ifstream :=
  let log := is_reads s ++ [n] in
  if is_fail s then ([], mk_ifstream (is_rest s) (is_gpos s) true log)
  else if n <? 0 then ([], mk_ifstream (is_rest s) (is_gpos s) true log)
  else if n <=? Z.of_nat (length (is_rest s)) then
    (firstn (Z.to_nat n) (is_rest s),
     mk_ifstream (skipn (Z.to_nat n) (is_rest s)) (is_gpos s + n) false log)
  else
    (is_rest s,
     mk_ifstream [] (is_gpos s + Z.of_nat (length (is_rest s))) true log).

(** [std::ofstream]: the bytes written so far and the failure state. *)
Record ofstream := mk_ofstream {
  os_out : list byte;
  os_bad : bool
}.

(** [ofs.write(src, n)] where [mem] is the memory readable from [src]. *)
Definition ostream_write (s : ofstream) (mem : list byte) (n : Z) : ofstream :=
  if os_bad s then s
  else if n <? 0 then mk_ofstream (os_out s) true
  else mk_ofstream (os_out s ++ firstn (Z.to_nat n) mem) false.

(** ** Trivially copyable objects *)

(** [sizeof(T)], the object representation of a value, the value held by a
    representation, and the value-initialised object. *)
Class Pod (T : Type) := {
  sizeof   : nat;
  to_bytes : T -> list byte;
  of_bytes : list byte -> T;
  zero_init : T
}.

Arguments sizeof T {_}.

(** Copying [bs] over the beginning of the object [v]
    ([memcpy(&v, bs, length bs)] as done by [ifs.read]). *)
Definition overwrite (mem bs : list byte) : list byte :=
  bs ++ skipn (length bs) mem.

Definition store {T} `{Pod T} (v : T) (bs : list byte) : T :=
  of_bytes (overwrite (to_bytes v) bs).

(** The contiguous storage of a [std::vector<T>] and its inverse. *)
Definition vector_bytes {T} `{Pod T} (v : list T) : list byte :=
  flat_map to_bytes v.

Fixpoint vector_of_bytes {T} `{Pod T} (count : nat) (mem : list byte) : list T :=
  match count with
  | O => []
  | S c => of_bytes (firstn (sizeof T) mem) :: vector_of_bytes c (skipn (sizeof T) mem)
  end.

(** [buffer.resize(n)]: keeps the first [n] elements; the new ones are
    value-initialised ([init]). *)
Definition resize {T} (init : T) (buffer : list T) (n : nat) : list T :=
  firstn n buffer ++ repeat init (n - length buffer).

Module NvTraceFormat.

(** [static const std::array<char, 8> nvtrc01Magic{"nvtrc01"}]. *)
Definition nvtrc01Magic : list byte :=
  [Byte.x6e; Byte.x76; Byte.x74; Byte.x72; Byte.x63; Byte.x30; Byte.x31; Byte.x00].

(** [struct FileHeader { std::array<char, 8> magic; }]. *)
Record FileHeader := mk_FileHeader {
  magic : list byte
}.

#[global] Instance FileHeader_Pod : Pod FileHeader := {|
  sizeof := 8;
  to_bytes h := magic h;
  of_bytes bs := mk_FileHeader (firstn 8 bs);
  zero_init := mk_FileHeader (repeat Byte.x00 8)
|}.

(** [operator!=] of [std::array<char, 8>], through its negation. *)
Fixpoint bytes_eqb (a b : list byte) : bool :=
  match a, b with
  | [], [] => true
  | x :: a', y :: b' => Byte.eqb x y && bytes_eqb a' b'
  | _, _ => false
  end.

(** [struct ArrayHeader { int32_t count; int32_t elementSize; }]. *)
Record ArrayHeader := mk_ArrayHeader {
  count : Z;
  elementSize : Z
}.

#[global] Instance ArrayHeader_Pod : Pod ArrayHeader := {|
  sizeof := 8;
  to_bytes h := le_split 4 (count h) ++ le_split 4 (elementSize h);
  of_bytes bs := mk_ArrayHeader (le_signed 4 (firstn 4 bs))
                                (le_signed 4 (firstn 4 (skipn 4 bs)));
  zero_init := mk_ArrayHeader 0 0
|}.

(** [enum class GpuCtxSwTraceError8 : uint8_t]; the field holds whatever
    byte the file has. *)
Definition GpuCtxSwTraceError8_None : Z := 0.
Definition GpuCtxSwTraceError8_UnsupportedGpu : Z := 1.
Definition GpuCtxSwTraceError8_UnsupportedDriver : Z := 2.
Definition GpuCtxSwTraceError8_NeedRoot : Z := 3.
Definition GpuCtxSwTraceError8_Unknown : Z := 255.

(** [struct DeviceDesc]: 16 + 239 + 1 + 4 * 8 = 288 bytes, the 64-bit
    fields start at offset 256, so the layout has no padding. *)
Record DeviceDesc := mk_DeviceDesc {
  uuid : list byte;
  name : list byte;
  gpuCtxSwTraceError : Z;
  cpuTimestampStart : Z;
  gpuTimestampStart : Z;
  cpuTimestampEnd : Z;
  gpuTimestampEnd : Z
}.

Definition name_capacity : nat := 239.

#[global] Instance DeviceDesc_Pod : Pod DeviceDesc := {|
  sizeof := 288;
  to_bytes d :=
    uuid d ++ name d ++ le_split 1 (gpuCtxSwTraceError d)
    ++ le_split 8 (cpuTimestampStart d) ++ le_split 8 (gpuTimestampStart d)
    ++ le_split 8 (cpuTimestampEnd d) ++ le_split 8 (gpuTimestampEnd d);
  of_bytes bs :=
    mk_DeviceDesc
      (firstn 16 bs)
      (firstn name_capacity (skipn 16 bs))
      (le_unsigned (firstn 1 (skipn 255 bs)))
      (le_signed 8 (firstn 8 (skipn 256 bs)))
      (le_signed 8 (firstn 8 (skipn 264 bs)))
      (le_signed 8 (firstn 8 (skipn 272 bs)))
      (le_signed 8 (firstn 8 (skipn 280 bs)));
  zero_init :=
    mk_DeviceDesc (repeat Byte.x00 16) (repeat Byte.x00 name_capacity) 0 0 0 0 0
|}.

(** [enum class Category16 : uint16_t]. *)
Definition Category16_Invalid : Z := 0.
Definition Category16_GpuContextSwitch : Z := 1.

(** [enum class TypeGpuCtxSw16 : uint16_t]. *)
Definition TypeGpuCtxSw16_Invalid : Z := 0.
Definition TypeGpuCtxSw16_ContextSwitchedIn : Z := 1.
Definition TypeGpuCtxSw16_ContextSwitchedOut : Z := 2.

(** [struct RecordGpuCtxSw]: 2 + 2 + 4 + 8 + 8 = 24 bytes, no padding.
    The two enumeration fields hold any 16-bit value. *)
Record RecordGpuCtxSw := mk_RecordGpuCtxSw {
  category : Z;
  type : Z;
  processId : Z;
  timestamp : Z;
  contextHandle : Z
}.

#[global] Instance RecordGpuCtxSw_Pod : Pod RecordGpuCtxSw := {|
  sizeof := 24;
  to_bytes r :=
    le_split 2 (category r) ++ le_split 2 (type r) ++ le_split 4 (processId r)
    ++ le_split 8 (timestamp r) ++ le_split 8 (contextHandle r);
  of_bytes bs :=
    mk_RecordGpuCtxSw
      (le_unsigned (firstn 2 bs))
      (le_unsigned (firstn 2 (skipn 2 bs)))
      (le_unsigned (firstn 4 (skipn 4 bs)))
      (le_signed 8 (firstn 8 (skipn 8 bs)))
      (le_unsigned (firstn 8 (skipn 16 bs)));
  zero_init := mk_RecordGpuCtxSw 0 0 0 0 0
|}.

(** [struct FileData]. *)
Record FileData := mk_FileData {
  deviceDescs : list DeviceDesc;
  perDeviceData : list (list RecordGpuCtxSw)
}.

(** [FileData()]. *)
Definition FileData_empty : FileData := mk_FileData [] [].

(** How a call ends: it returns a [bool], or an exception leaves it
    ([std::length_error] from [resize]; nothing in the repository catches
    it). *)
Inductive outcome := Returned (b : bool) | Threw.

(** [Read(ifs, value)]: [ifs.read(&value, sizeof(T))]. *)
Definition Read {T} `{Pod T} (ifs : ifstream) (value : T) : T * ifstream :=
  let '(bs, ifs') := istream_read ifs (Z.of_nat (sizeof T)) in
  (store value bs, ifs').

(** The loop of the larger-element branch of [ReadVector]:
    [for (T& elem : buffer) ifs.read(&elem, sizeof(T));]. *)
Fixpoint read_each {T} `{Pod T} (ifs : ifstream) (buffer : list T)
  : list T * ifstream :=
  match buffer with
  | [] => ([], ifs)
  | elem :: rest =>
      let '(elem', ifs1) := Read ifs elem in
      let '(rest', ifs2) := read_each ifs1 rest in
      (elem' :: rest', ifs2)
  end.

(** [ReadVector(ifs, buffer)].  The comparisons of [header.elementSize]
    with [sizeof(T)] are made in [size_t], hence [wrap_u 64]; the byte
    count of the bulk read is an [int] product, hence [wrap_s 32].  The
    local [header] is uninitialised and read only after a complete
    [Read].  On an empty vector [&buffer[0]] is only passed on with a byte
    count of zero. *)
Definition ReadVector {T} `{Pod T} (ifs : ifstream) (buffer : list T)
  : outcome * list T * ifstream :=
  let '(header, ifs1) := Read ifs (zero_init : ArrayHeader) in
  if is_fail ifs1 then (Returned false, buffer, ifs1) else
  if count header <? 0 then (Threw, buffer, ifs1) else
  let buffer1 := resize zero_init buffer (Z.to_nat (count header)) in
  if wrap_u 64 (elementSize header) =? Z.of_nat (sizeof T) then
    let '(bs, ifs2) :=
      istream_read ifs1 (wrap_s 32 (count header * elementSize header)) in
    let buffer2 :=
      vector_of_bytes (length buffer1) (overwrite (vector_bytes buffer1) bs) in
    (Returned (negb (is_fail ifs2)), buffer2, ifs2)
  else if wrap_u 64 (elementSize header) >? Z.of_nat (sizeof T) then
    let '(buffer2, ifs2) := read_each ifs1 buffer1 in
    (Returned (negb (is_fail ifs2)), buffer2, ifs2)
  else
    (Returned false, buffer1, ifs1).

(** [Write(ofs, value)]: [ofs.write(&value, sizeof(T))]. *)
Definition Write {T} `{Pod T} (ofs : ofstream) (value : T) : ofstream :=
  ostream_write ofs (to_bytes value) (Z.of_nat (sizeof T)).

(** [WriteVector(ofs, buffer)]; the two header fields are casts to
    [int32_t], the byte count is their [int] product. *)
Definition WriteVector {T} `{Pod T} (ofs : ofstream) (buffer : list T) : ofstream :=
  let header := mk_ArrayHeader (wrap_s 32 (Z.of_nat (length buffer)))
                               (wrap_s 32 (Z.of_nat (sizeof T))) in
  let ofs1 := Write ofs header in
  ostream_write ofs1 (vector_bytes buffer)
                (wrap_s 32 (count header * elementSize header)).

(** The loop of [ReadFileData] over [fileData.perDeviceData], left at the
    first [ReadVector] that does not succeed. *)
Fixpoint read_devices (ifs : ifstream) (perDevice : list (list RecordGpuCtxSw))
  : outcome * list (list RecordGpuCtxSw) * ifstream :=
  match perDevice with
  | [] => (Returned true, [], ifs)
  | deviceData :: rest =>
      let '(success, deviceData', ifs1) := ReadVector ifs deviceData in
      match success with
      | Returned true =>
          let '(o, rest', ifs2) := read_devices ifs1 rest in
          (o, deviceData' :: rest', ifs2)
      | _ => (success, deviceData' :: rest, ifs1)
      end
  end.

(** [ReadFileData(inputFile, fileData)].  [inputFile] is the content of the
    file, or [None] when it cannot be opened.  The result is how the call
    ends, the value of the out-parameter at that point, and the stream as
    it is when it goes out of scope. *)
Definition ReadFileData (inputFile : option (list byte)) (fileData : FileData)
  : outcome * FileData * ifstream :=
  let fileData := FileData_empty in
  match inputFile with
  | None => (Returned false, fileData, mk_ifstream [] 0 true [])
  | Some file =>
      let ifs := ifstream_open file in
      let '(header, ifs1) := Read ifs (zero_init : FileHeader) in
      if is_fail ifs1 then (Returned false, fileData, ifs1) else
      if negb (bytes_eqb (magic header) nvtrc01Magic)
      then (Returned false, fileData, ifs1) else
      let '(success, descs, ifs2) := ReadVector ifs1 (deviceDescs fileData) in
      let fileData1 := mk_FileData descs (perDeviceData fileData) in
      match success with
      | Returned true =>
          let perDevice :=
            resize [] (perDeviceData fileData1) (length (deviceDescs fileData1)) in
          let '(o, perDevice', ifs3) := read_devices ifs2 perDevice in
          (o, mk_FileData descs perDevice', ifs3)
      | _ => (success, fileData1, ifs2)
      end
  end.

(** [WriteFileData(outputFile, fileData)]: [can_open] tells whether the
    output file can be opened; the result is the returned [bool] and the
    bytes in the file. *)
Definition WriteFileData (can_open : bool) (fileData : FileData) : bool * list byte :=
  if negb can_open then (false, []) else
  let ofs := mk_ofstream [] false in
  let ofs1 := Write ofs (mk_FileHeader nvtrc01Magic) in
  let ofs2 := WriteVector ofs1 (deviceDescs fileData) in
  let ofs3 := fold_left (fun o deviceData => WriteVector o deviceData)
                        (perDeviceData fileData) ofs2 in
  (negb (os_bad ofs3), os_out ofs3).

(** *** Timestamp conversion *)

Definition prec : Z := 53.
Definition emax : Z := 1024.

(** [static_cast<double>(z)] for a 64-bit integer: round to nearest, ties
    to even. *)
Definition double_of_int64 (z : Z) : spec_float :=
  binary_normalize prec emax z 0 false.

(** [static_cast<int64_t>(f)]: the fractional part is discarded; the
    conversion is undefined ([None]) when the truncated value is not
    representable or [f] is not finite. *)
Definition int64_of_double (f : spec_float) : option Z :=
  match f with
  | S754_zero _ => Some 0
  | S754_finite s m e =>
      let a := if 0 <=? e then Z.pos m * 2 ^ e else Z.pos m / 2 ^ (- e) in
      let v := if s then - a else a in
      if in_signedb 64 v then Some v else None
  | _ => None
  end.

(** [struct TimestampConverter]. *)
Record TimestampConverter := mk_TimestampConverter {
  dstAtSyncPoint : Z;
  srcAtSyncPoint : Z;
  scale : spec_float
}.

(** [TimestampConverter::operator()]. *)
Definition convert (c : TimestampConverter) (srcTimestamp : Z) : option Z :=
  let srcDelta := wrap_s 64 (srcTimestamp - srcAtSyncPoint c) in
  match int64_of_double (SFmul prec emax (scale c) (double_of_int64 srcDelta)) with
  | Some dstDelta => Some (wrap_s 64 (dstDelta + dstAtSyncPoint c))
  | None => None
  end.

(** [CreateTimestampConverter(srcStart, srcEnd, dstStart, dstEnd)]. *)
Definition CreateTimestampConverter (srcStart srcEnd dstStart dstEnd : Z)
  : TimestampConverter :=
  let dstDelta := wrap_s 64 (dstEnd - dstStart) in
  let srcDelta := wrap_s 64 (srcEnd - srcStart) in
  let scale :=
    if SFeqb (double_of_int64 srcDelta) (S754_zero false) then S754_zero false
    else SFdiv prec emax (double_of_int64 dstDelta) (double_of_int64 srcDelta) in
  mk_TimestampConverter dstEnd srcEnd scale.

(** [CreateTimestampConverter(desc)]: GPU time is the source, CPU time the
    destination. *)
Definition CreateTimestampConverter_desc (desc : DeviceDesc) : TimestampConverter :=
  CreateTimestampConverter (gpuTimestampStart desc) (gpuTimestampEnd desc)
                           (cpuTimestampStart desc) (cpuTimestampEnd desc).

(** *** Device names *)

(** [buf[i] = v] on a fixed-size array. *)
Fixpoint array_set {A} (buf : list A) (i : nat) (v : A) : list A :=
  match buf, i with
  | [], _ => []
  | _ :: t, O => v :: t
  | h :: t, S j => h :: array_set t j v
  end.

(** [SetName(desc, name)]; [name] is the content of the [std::string]. *)
Definition SetName (desc : DeviceDesc) (name' : list byte) : DeviceDesc :=
  let quickMin (a b : nat) := if (a <? b)%nat then a else b in
  let indexOfNull := quickMin (length name') (name_capacity - 1)%nat in
  let copied := overwrite (name desc) (firstn indexOfNull name') in
  mk_DeviceDesc (uuid desc) (array_set copied indexOfNull Byte.x00)
                (gpuCtxSwTraceError desc)
                (cpuTimestampStart desc) (gpuTimestampStart desc)
                (cpuTimestampEnd desc) (gpuTimestampEnd desc).

End NvTraceFormat.

(** ** The adapter (src/gpuvis-nvtrc.cpp) *)

Module GpuvisNvtrc.

(** [INVALID_ID] and [TRACE_FLAG_AUTOGEN_COLOR] come from the host's
    headers (gpuvis_macros.h, trace-cmd/trace-read.h), which are not part of
    the sources; they are taken as parameters. *)
Record host_constants := mk_host_constants {
  INVALID_ID : Z;
  TRACE_FLAG_AUTOGEN_COLOR : Z
}.

Definition INT64_MAX : Z := 2 ^ 63 - 1.

(** The fields of the host's [trace_event_t] that [adapt_events] assigns. *)
Record trace_event_t := mk_trace_event_t {
  pid : Z;
  id : Z;
  cpu : Z;
  ts : Z;
  flags : Z;
  seqno : Z;
  id_start : Z;
  graph_row_id : Z;
  crtc : Z;
  color : Z;
  duration : Z;
  comm : string;
  system : string;
  name : string;
  user_comm : string
}.

(** The fields of the host's [trace_info_t] that [adapt_trace_info]
    assigns. *)
Record trace_info_t := mk_trace_info_t {
  uname : string;
  timestamp_in_us : bool;
  cpus : Z;
  file : string;
  min_file_ts : Z
}.

(** [rdtsc_to_us(rdtsc)]. *)
Definition rdtsc_to_us (rdtsc : Z) : Z := rdtsc.

(** The characters of a C string held in a buffer: those before the first
    null byte; [None] when the buffer holds no null byte (the read would
    leave the array). *)
Fixpoint c_str (buf : list byte) : option (list byte) :=
  match buf with
  | [] => None
  | b :: t =>
      if Byte.eqb b Byte.x00 then Some []
      else match c_str t with
           | Some s => Some (b :: s)
           | None => None
           end
  end.

(** [arr[i]] on a C array; [None] when [i] is out of bounds. *)
Definition array_get {A} (arr : list A) (i : Z) : option A :=
  if i <? 0 then None else nth_error arr (Z.to_nat i).

(** The loop of [adapt_trace_info] over the devices, from index [i]. *)
Fixpoint adapt_trace_info_loop (descs : list NvTraceFormat.DeviceDesc) (i : nat)
    (uname : string) (min_rdtsc : Z) : option (string * Z) :=
  match descs with
  | [] => Some (uname, min_rdtsc)
  | d :: rest =>
      match c_str (NvTraceFormat.name d) with
      | None => None
      | Some s =>
          let uname1 := if (0 <? i)%nat then (uname ++ "&")%string else uname in
          let uname2 :=
            (uname1 ++ ("nvgpu(" ++ string_of_list_byte s ++ ")"))%string in
          adapt_trace_info_loop rest (S i) uname2
            (Z.min min_rdtsc (NvTraceFormat.cpuTimestampStart d))
      end
  end.

(** [adapt_trace_info(trace_info_dest, fileData_src, filename)]. *)
Definition adapt_trace_info (trace_info_dest : trace_info_t)
    (fileData_src : NvTraceFormat.FileData) (filename : string)
  : option trace_info_t :=
  match adapt_trace_info_loop (NvTraceFormat.deviceDescs fileData_src) 0
          (uname trace_info_dest) INT64_MAX with
  | None => None
  | Some (uname', min_filedata_cpu_rdtsc) =>
      Some (mk_trace_info_t uname' true 0 filename
              (rdtsc_to_us min_filedata_cpu_rdtsc))
  end.

Definition namehack : list string :=
  ["Invalid"; "ContextSwitchedIn"; "ContextSwitchedOut"]%string.

(** [namehack[int(record.type)]]. *)
Definition event_name_label (record : NvTraceFormat.RecordGpuCtxSw) : option string :=
  array_get namehack (wrap_s 32 (NvTraceFormat.type record)).

(** The body of the inner loop of [adapt_events]: the event handed to the
    callback for one record.  [StrPool::getstr] returns its argument
    interned; the event holds the string. *)
Definition adapt_record (k : host_constants) (record : NvTraceFormat.RecordGpuCtxSw)
  : option trace_event_t :=
  match event_name_label record with
  | None => None
  | Some label =>
      Some {| pid := NvTraceFormat.processId record;
              id := INVALID_ID k;
              cpu := 0;
              ts := rdtsc_to_us (NvTraceFormat.timestamp record);
              flags := TRACE_FLAG_AUTOGEN_COLOR k;
              seqno := 0;
              id_start := INVALID_ID k;
              graph_row_id := 0;
              crtc := -1;
              color := 0;
              duration := INT64_MAX;
              comm := "(event_comm)";
              system := "nvcontext";
              name := ("(event_name:" ++ label ++ ")")%string;
              user_comm := "(event_usercomm)" |}
  end.

Fixpoint adapt_records (k : host_constants)
    (records : list NvTraceFormat.RecordGpuCtxSw) : option (list trace_event_t) :=
  match records with
  | [] => Some []
  | record :: rest =>
      match adapt_record k record, adapt_records k rest with
      | Some e, Some es => Some (e :: es)
      | _, _ => None
      end
  end.

(** The outer loop of [adapt_events], for the device indices [i], [i+1],
    ... ([n] of them). *)
Fixpoint adapt_events_loop (k : host_constants)
    (perDeviceData : list (list NvTraceFormat.RecordGpuCtxSw)) (i n : nat)
  : option (list trace_event_t) :=
  match n with
  | O => Some []
  | S n' =>
      match array_get perDeviceData (Z.of_nat i) with
      | None => None
      | Some records =>
          match adapt_records k records, adapt_events_loop k perDeviceData (S i) n' with
          | Some es, Some es' => Some (es ++ es')
          | _, _ => None
          end
      end
  end.

(** [adapt_events(cb, trace_info, fileData_src, strpool)]: the events passed
    to [cb], in order; [None] when an array index is out of bounds. *)
Definition adapt_events (k : host_constants) (fileData_src : NvTraceFormat.FileData)
  : option (list trace_event_t) :=
  adapt_events_loop k (NvTraceFormat.perDeviceData fileData_src) 0
    (length (NvTraceFormat.deviceDescs fileData_src)).

(** [read_nvtrc_file(filename, strpool, trace_info, cb)]: how the call ends,
    the resulting [trace_info] and the events passed to [cb]; [None] when
    an adapter leaves the bounds of an array.  The diagnostics printed on
    [stderr] are left out. *)
Definition read_nvtrc_file (k : host_constants) (content : option (list byte))
    (filename : string) (trace_info : trace_info_t)
  : option (NvTraceFormat.outcome * trace_info_t * list trace_event_t) :=
  let '(read_success, fileData, _) :=
    NvTraceFormat.ReadFileData content NvTraceFormat.FileData_empty in
  match read_success with
  | NvTraceFormat.Returned true =>
      match adapt_trace_info trace_info fileData filename,
            adapt_events k fileData with
      | Some trace_info', Some events =>
          Some (NvTraceFormat.Returned true, trace_info', events)
      | _, _ => None
      end
  | _ => Some (read_success, trace_info, [])
  end.

End GpuvisNvtrc.

(** ** The specification's reading of two operations

    Two definitions that follow the words of the specification rather
    than the code; they are what the code is compared with. *)

Module Spec.

(** Skipping [n] bytes of an input stream. *)
Definition istream_ignore (s : ifstream) (n : Z) : ifstream :=
  if is_fail s then s
  else if n <=? Z.of_nat (length (is_rest s)) then
    mk_ifstream (skipn (Z.to_nat n) (is_rest s)) (is_gpos s + n) false (is_reads s)
  else mk_ifstream [] (is_gpos s + Z.of_nat (length (is_rest s))) true (is_reads s).

(** "read exactly [nativeSize] bytes per record ... and advance the stream
    by the full on-disk record stride". *)
Fixpoint read_each_strided {T} `{Pod T} (ifs : ifstream) (buffer : list T)
    (elementSizeOnDisk : Z) : list T * ifstream :=
  match buffer with
  | [] => ([], ifs)
  | elem :: rest =>
      let '(elem', ifs1) := NvTraceFormat.Read ifs elem in
      let ifs2 := istream_ignore ifs1 (elementSizeOnDisk - Z.of_nat (sizeof T)) in
      let '(rest', ifs3) := read_each_strided ifs2 rest elementSizeOnDisk in
      (elem' :: rest', ifs3)
  end.

(** "round((x - srcAtSyncPoint) * scale)": the nearest integer, halves
    away from zero. *)
Definition round_of_double (f : spec_float) : option Z :=
  match f with
  | S754_zero _ => Some 0
  | S754_finite s m e =>
      let a := if 0 <=? e then Z.pos m * 2 ^ e
               else (2 * Z.pos m + 2 ^ (- e)) / 2 ^ (- e + 1) in
      let v := if s then - a else a in
      if in_signedb 64 v then Some v else None
  | _ => None
  end.

Definition convert_rounded (c : NvTraceFormat.TimestampConverter) (x : Z) : option Z :=
  let srcDelta := wrap_s 64 (x - NvTraceFormat.srcAtSyncPoint c) in
  match round_of_double
          (SFmul NvTraceFormat.prec NvTraceFormat.emax (NvTraceFormat.scale c)
                 (NvTraceFormat.double_of_int64 srcDelta)) with
  | Some dstDelta => Some (wrap_s 64 (dstDelta + NvTraceFormat.dstAtSyncPoint c))
  | None => None
  end.

End Spec.

Import NvTraceFormat.

(** ** Well-formed objects

    The values a C++ object of each type can hold: array fields have their
    declared length and integer fields are in the range of their type. *)

Definition wf_ArrayHeader (h : NvTraceFormat.ArrayHeader) : Prop :=
  in_signed 32 (NvTraceFormat.count h) /\ in_signed 32 (NvTraceFormat.elementSize h).

Definition wf_DeviceDesc (d : NvTraceFormat.DeviceDesc) : Prop :=
  length (NvTraceFormat.uuid d) = 16%nat /\
  length (NvTraceFormat.name d) = NvTraceFormat.name_capacity /\
  in_unsigned 8 (NvTraceFormat.gpuCtxSwTraceError d) /\
  in_signed 64 (NvTraceFormat.cpuTimestampStart d) /\
  in_signed 64 (NvTraceFormat.gpuTimestampStart d) /\
  in_signed 64 (NvTraceFormat.cpuTimestampEnd d) /\
  in_signed 64 (NvTraceFormat.gpuTimestampEnd d).

Definition wf_RecordGpuCtxSw (r : NvTraceFormat.RecordGpuCtxSw) : Prop :=
  in_unsigned 16 (NvTraceFormat.category r) /\
  in_unsigned 16 (NvTraceFormat.type r) /\
  in_unsigned 32 (NvTraceFormat.processId r) /\
  in_signed 64 (NvTraceFormat.timestamp r) /\
  in_unsigned 64 (NvTraceFormat.contextHandle r).

Definition wf_FileData (fd : NvTraceFormat.FileData) : Prop :=
  Forall wf_DeviceDesc (NvTraceFormat.deviceDescs fd) /\
  Forall (Forall wf_RecordGpuCtxSw) (NvTraceFormat.perDeviceData fd).

(** What the proofs need of a trivially copyable type: a size that an
    [int32_t] holds, and a representation of that size from which the
    value is recovered. *)
Class PodOk (T : Type) `{Pod T} := {
  wf : T -> Prop;
  sizeof_pos : (0 < sizeof T)%nat;
  sizeof_small : Z.of_nat (sizeof T) < 2 ^ 31;
  wf_zero_init : wf zero_init;
  to_bytes_length : forall v, wf v -> length (to_bytes v) = sizeof T;
  of_to_bytes : forall v, wf v -> of_bytes (to_bytes v) = v
}.

(** The byte size of an array as the code computes it, in [int]. *)
Definition byte_count {T} `{Pod T} (v : list T) : Z :=
  Z.of_nat (length v) * Z.of_nat (sizeof T).

(** The arrays of a [FileData] whose byte sizes an [int] holds. *)
Definition sizes_fit (fd : NvTraceFormat.FileData) : Prop :=
  byte_count (NvTraceFormat.deviceDescs fd) < 2 ^ 31 /\
  Forall (fun records => byte_count records < 2 ^ 31) (NvTraceFormat.perDeviceData fd).

(** The bytes of an array on disk: the header, then the records. *)
Definition encode_vector {T} `{Pod T} (v : list T) : list byte :=
  to_bytes (mk_ArrayHeader (Z.of_nat (length v)) (Z.of_nat (sizeof T)))
  ++ vector_bytes v.

(** A device name of at most 238 bytes: the buffer holds a terminator. *)
Definition name_fits (d : DeviceDesc) : Prop :=
  exists s, GpuvisNvtrc.c_str (name d) = Some s.

(** Array lengths that a 32-bit signed count holds. *)
Definition counts_fit (fd : FileData) : Prop :=
  Z.of_nat (length (deviceDescs fd)) < 2 ^ 31 /\
  Forall (fun records : list RecordGpuCtxSw => Z.of_nat (length records) < 2 ^ 31)
         (perDeviceData fd).

(** Finite doubles: zeros and finite non-zero numbers. *)
Definition SF_is_finite (f : spec_float) : bool :=
  match f with
  | S754_zero _ | S754_finite _ _ _ => true
  | _ => false
  end.

(** The exact value of a finite double, as a rational. *)
Definition SF_value (f : spec_float) : option Q :=
  match f with
  | S754_zero _ => Some (inject_Z 0)
  | S754_finite s m e =>
      let n := if s then Z.neg m else Z.pos m in
      Some (if 0 <=? e then inject_Z (n * 2 ^ e)
            else Qmake n (Z.to_pos (2 ^ (- e))))
  | _ => None
  end.

(** The integer part of a rational: rounding toward zero. *)
Definition Qtrunc (q : Q) : Z := Z.quot (Qnum q) (Z.pos (Qden q)).

(** An event that carries a record: the process id and the raw
    timestamp of the record, no duration, colour or sequence number. *)
Definition adapted_from (r : RecordGpuCtxSw) (e : GpuvisNvtrc.trace_event_t) : Prop :=
  GpuvisNvtrc.pid e = processId r /\
  GpuvisNvtrc.ts e = timestamp r /\
  GpuvisNvtrc.duration e = GpuvisNvtrc.INT64_MAX /\
  GpuvisNvtrc.color e = 0 /\
  GpuvisNvtrc.seqno e = 0 /\
  GpuvisNvtrc.cpu e = 0.

(** The piece of [uname] that stands for one device. *)
Definition device_uname (d : DeviceDesc) : option string :=
  match GpuvisNvtrc.c_str (name d) with
  | Some s => Some ("nvgpu(" ++ string_of_list_byte s ++ ")")%string
  | None => None
  end.

(** ** Text output (src/nv/NvTraceFormat.h, [PrintableUuid] and
    [PrettyPrintFileData])

    An output stream is the text written so far and the formatting state
    that the code sets and relies on: the base of integers, the adjustment
    and the fill character of padded fields, and the width of the next
    field, which every formatted insertion resets to zero.  The stream is
    taken to be in the classic locale without [showbase], [showpos] and
    [uppercase]. *)

Inductive basefield := oct | dec | hex.
Inductive adjustfield := adj_left | adj_right | adj_internal.

Record ostream := mk_ostream {
  fmt_text : string;
  fmt_base : basefield;
  fmt_adjust : adjustfield;
  fmt_fill : Ascii.ascii;
  fmt_width : nat
}.

(** A default-constructed [std::ostringstream]. *)
Definition ostringstream : ostream := mk_ostream "" dec adj_right " "%char 0.

Definition base_value (b : basefield) : N :=
  match b with oct => 8 | dec => 10 | hex => 16 end%N.

Definition digit_char (d : N) : Ascii.ascii :=
  nth (N.to_nat d) (list_ascii_of_string "0123456789abcdef") "0"%char.

(** The digits of [n] in base [b], most significant first; [fuel] bounds
    their number (64 is enough for 64-bit values in every base). *)
Fixpoint to_digits (b : N) (fuel : nat) (n : N) : list N :=
  match fuel with
  | O => []
  | S f => if (n <? b)%N then [n] else to_digits b f (n / b) ++ [(n mod b)%N]
  end.

Definition digits_string (b : basefield) (n : N) : string :=
  string_of_list_ascii (map digit_char (to_digits (base_value b) 64 n)).

Definition fill_string (c : Ascii.ascii) (n : nat) : string :=
  string_of_list_ascii (repeat c n).

(** A field made of a sign and a body, padded to the width of the stream. *)
Definition padded (os : ostream) (sign body : string) : string :=
  let fillers :=
    fill_string (fmt_fill os)
                (fmt_width os - (String.length sign + String.length body)) in
  match fmt_adjust os with
  | adj_left => sign ++ body ++ fillers
  | adj_right => fillers ++ sign ++ body
  | adj_internal => sign ++ fillers ++ body
  end%string.

Definition put (os : ostream) (sign body : string) : ostream :=
  mk_ostream (fmt_text os ++ padded os sign body)
             (fmt_base os) (fmt_adjust os) (fmt_fill os) 0.

(** [os << s] for a string or a character. *)
Definition put_string (os : ostream) (s : string) : ostream := put os "" s.

(** [os << n] for an unsigned integer. *)
Definition put_unsigned (os : ostream) (n : N) : ostream :=
  put os "" (digits_string (fmt_base os) n).

(** [os << z] for a signed integer of [bits] bits: in base 8 and 16 the
    two's-complement representation is printed. *)
Definition put_signed (bits : Z) (os : ostream) (z : Z) : ostream :=
  match fmt_base os with
  | dec =>
      if z <? 0 then put os "-" (digits_string dec (Z.to_N (- z)))
      else put os "" (digits_string dec (Z.to_N z))
  | b => put os "" (digits_string b (Z.to_N (wrap_u bits z)))
  end.

(** [std::hex], [std::dec], [std::left], [std::right], [std::setw(n)],
    [std::setfill(c)]. *)
Definition set_base (b : basefield) (os : ostream) : ostream :=
  mk_ostream (fmt_text os) b (fmt_adjust os) (fmt_fill os) (fmt_width os).
Definition set_adjust (a : adjustfield) (os : ostream) : ostream :=
  mk_ostream (fmt_text os) (fmt_base os) a (fmt_fill os) (fmt_width os).
Definition setw (n : nat) (os : ostream) : ostream :=
  mk_ostream (fmt_text os) (fmt_base os) (fmt_adjust os) (fmt_fill os) n.
Definition setfill (c : Ascii.ascii) (os : ostream) : ostream :=
  mk_ostream (fmt_text os) (fmt_base os) (fmt_adjust os) c (fmt_width os).

Definition tab : string := String (Ascii.ascii_of_nat 9) "".
Definition newline : string := String (Ascii.ascii_of_nat 10) "".

(** The lambda [printBytes] of [PrintableUuid]: the bytes
    [uuid[offset .. offset + count)], each as a number, and the new
    offset. *)
Definition printBytes (uuid : list byte) (oss : ostream) (offset count : nat)
  : ostream * nat :=
  (fold_left (fun o b => put_unsigned o (Z.to_N (byte.unsigned b)))
             (firstn count (skipn offset uuid)) oss,
   (offset + count)%nat).

(** [PrintableUuid(uuid)], for a [uuid] that points to 16 bytes. *)
Definition PrintableUuid (uuid : list byte) : string :=
  let oss := set_base hex ostringstream in
  let offset := 0%nat in
  let '(oss, offset) := printBytes uuid oss offset 4 in
  let oss := put_string oss "-" in
  let '(oss, offset) := printBytes uuid oss offset 2 in
  let oss := put_string oss "-" in
  let '(oss, offset) := printBytes uuid oss offset 2 in
  let oss := put_string oss "-" in
  let '(oss, offset) := printBytes uuid oss offset 2 in
  let oss := put_string oss "-" in
  let '(oss, offset) := printBytes uuid oss offset 6 in
  fmt_text oss.

(** The [switch] of [PrettyPrintFileData] on [desc.gpuCtxSwTraceError]. *)
Definition ctxswSupportedMsg (gpuCtxSwTraceError : Z) : string :=
  if gpuCtxSwTraceError =? GpuCtxSwTraceError8_None then "yes"
  else if gpuCtxSwTraceError =? GpuCtxSwTraceError8_UnsupportedGpu then
    "no -- unsupported GPU (requires Volta, Turing, or newer)"
  else if gpuCtxSwTraceError =? GpuCtxSwTraceError8_UnsupportedDriver then
    "no -- driver is missing required support, try a newer version"
  else if gpuCtxSwTraceError =? GpuCtxSwTraceError8_NeedRoot then
    "no -- process must be running as root/admin to use this feature"
  else "no -- internal error encountered".

(** The body of the loop over the device descriptors; [d] is the counter.
    [None] when the name holds no terminator. *)
Definition print_desc (os : ostream) (d : nat) (desc : DeviceDesc) : option ostream :=
  match GpuvisNvtrc.c_str (name desc) with
  | None => None
  | Some name_chars =>
      let os := put_string os "Device " in
      let os := put_signed 32 os (Z.of_nat d) in
      let os := put_string os (":" ++ newline ++ tab ++ "Name: ") in
      let os := put_string os (string_of_list_byte name_chars) in
      let os := put_string os (newline ++ tab ++ "UUID: {") in
      let os := put_string os (PrintableUuid (uuid desc)) in
      let os := put_string os
                  ("}" ++ newline ++ tab ++ "Supports GPU context-switch trace: ") in
      let os := put_string os (ctxswSupportedMsg (gpuCtxSwTraceError desc)) in
      let os := put_string os
                  (newline ++ tab
                   ++ "Timestamps for synchronization (raw values, in hex):"
                   ++ newline) in
      let os := set_adjust adj_right (set_base hex os) in
      let os := put_string os (tab ++ "  CPU start: ") in
      let os := put_signed 64 os (cpuTimestampStart desc) in
      let os := put_string os " GPU start: " in
      let os := put_signed 64 os (gpuTimestampStart desc) in
      let os := put_string os (newline ++ tab ++ "  CPU end:   ") in
      let os := put_signed 64 os (cpuTimestampEnd desc) in
      let os := put_string os " GPU end:   " in
      let os := put_signed 64 os (gpuTimestampEnd desc) in
      let os := put_string os newline in
      Some (set_adjust adj_left (set_base dec os))
  end.

Fixpoint print_descs (os : ostream) (d : nat) (descs : list DeviceDesc)
  : option ostream :=
  match descs with
  | [] => Some os
  | desc :: rest =>
      match print_desc os d desc with
      | None => None
      | Some os' => print_descs os' (S d) rest
      end
  end.

(** The label of a record in the listing. *)
Definition record_type_label (record : RecordGpuCtxSw) : string :=
  if type record =? TypeGpuCtxSw16_ContextSwitchedIn then "Context Start"
  else if type record =? TypeGpuCtxSw16_ContextSwitchedOut then "Context Stop"
  else "<Other>".

(** The body of the loop over the records of a device. *)
Definition print_record (os : ostream) (record : RecordGpuCtxSw) : ostream :=
  let os := put_string os (tab ++ "Timestamp: 0x") in
  let os := set_base hex (set_adjust adj_right (setfill "0"%char (setw 16 os))) in
  let os := put_signed 64 os (timestamp record) in
  let os := set_base dec os in
  let os := put_string os " | Event: " in
  let os := set_adjust adj_left (setfill " "%char (setw 13 os)) in
  let os := put_string os (record_type_label record) in
  let os := put_string os " | PID: " in
  let os := setw 10 os in
  let os := put_unsigned os (Z.to_N (processId record)) in
  let os := put_string os " | ContextID: 0x" in
  let os := set_base hex (set_adjust adj_right (setfill "0"%char (setw 8 os))) in
  let os := put_unsigned os (Z.to_N (contextHandle record)) in
  let os := set_base dec os in
  put_string os newline.

(** The loop over [fileData.perDeviceData]; [d] is the counter. *)
Fixpoint print_devices (os : ostream) (d : nat) (perDevice : list (list RecordGpuCtxSw))
  : ostream :=
  match perDevice with
  | [] => os
  | records :: rest =>
      let os := put_string os "Device " in
      let os := put_signed 32 os (Z.of_nat d) in
      let os := put_string os (" records:" ++ newline) in
      print_devices (fold_left print_record records os) (S d) rest
  end.

(** [PrettyPrintFileData(os, fileData, showDeviceDescs, showRecords)]. *)
Definition PrettyPrintFileData (os : ostream) (fileData : FileData)
    (showDeviceDescs showRecords : bool) : option ostream :=
  match (if showDeviceDescs then print_descs os 0 (deviceDescs fileData)
         else Some os) with
  | None => None
  | Some os1 =>
      Some (if showRecords then print_devices os1 0 (perDeviceData fileData)
            else os1)
  end.

(** The bytes of a group of a UUID as [PrintableUuid] prints them: one
    hexadecimal number after the other. *)
Definition hex_of_bytes (bs : list byte) : string :=
  fold_right (fun b acc => digits_string hex (Z.to_N (byte.unsigned b)) ++ acc)%string
             ""%string bs.

(** The bytes that take two hexadecimal digits. *)
Definition two_digits (b : byte) : bool := 16 <=? byte.unsigned b.

(** The formatting state of a stream. *)
Definition fmt_state (os : ostream) : basefield * adjustfield * Ascii.ascii * nat :=
  (fmt_base os, fmt_adjust os, fmt_fill os, fmt_width os).

(** ** Sample data *)

Definition sample_in : RecordGpuCtxSw := mk_RecordGpuCtxSw 1 1 1234 (-5) 77.
Definition sample_out : RecordGpuCtxSw := mk_RecordGpuCtxSw 1 2 1234 1000 77.

(** A capture of one device with two records. *)
Definition sample_capture : FileData :=
  mk_FileData [SetName zero_init (list_byte_of_string "GPU0")]
              [[sample_in; sample_out]].

(** The same capture with its two records exchanged. *)
Definition swapped_capture : FileData :=
  mk_FileData [SetName zero_init (list_byte_of_string "GPU0")]
              [[sample_out; sample_in]].

(** A descriptor none of whose parts is zero; its name buffer is filled
    with the letter x throughout and holds no terminator. *)
Definition filled_desc : DeviceDesc :=
  mk_DeviceDesc (repeat Byte.xab 16) (repeat Byte.x78 239) 3 500 7000 900 9000.

(** A capture of three devices whose CPU clocks start at 500, 300 and
    400. *)
Definition three_device_capture : FileData :=
  mk_FileData
    [SetName filled_desc (list_byte_of_string "GPU0");
     SetName (mk_DeviceDesc (repeat Byte.x00 16) (repeat Byte.x00 239) 0 300 0 0 0)
             (list_byte_of_string "GPU1");
     SetName (mk_DeviceDesc (repeat Byte.x00 16) (repeat Byte.x00 239) 0 400 0 0 0)
             (list_byte_of_string "GPU2")]
    [[sample_in]; []; [sample_out]].

(** The number of 24-byte records from which the [int] product of count
    and element size is past [INT_MAX]: [89478486 * 24 = 2 ^ 31 + 16]. *)
Definition overflow_count : nat := Z.to_nat 89478486.

(** A capture of one device with that many records. *)
Definition overflow_capture : FileData :=
  mk_FileData [zero_init] [repeat sample_in overflow_count].

(** A file cut in the middle of the second record of its only device. *)
Definition truncated_file : list byte :=
  nvtrc01Magic ++ encode_vector [zero_init : DeviceDesc]
  ++ to_bytes (mk_ArrayHeader 2 24)
  ++ to_bytes sample_in ++ firstn 10 (to_bytes sample_out).

(** An array of two records written by a newer producer whose records have
    eight more bytes. *)
Definition newer_array : list byte :=
  to_bytes (mk_ArrayHeader 2 32)
  ++ (to_bytes sample_in ++ repeat Byte.xff 8)
  ++ (to_bytes sample_out ++ repeat Byte.xff 8).

(** An array of one record whose header holds a negative element size. *)
Definition negative_size_array : list byte :=
  to_bytes (mk_ArrayHeader 1 (-1)) ++ to_bytes sample_in.

(** A file of a newer producer: one device, [filled_desc], and the array
    [newer_array] as its records. *)
Definition newer_file : list byte :=
  nvtrc01Magic ++ encode_vector [filled_desc] ++ newer_array.

(** What [ReadFileData] makes of [newer_file]. *)
Definition newer_decoded : FileData :=
  mk_FileData
    [filled_desc]
    [[sample_in; mk_RecordGpuCtxSw 65535 65535 4294967295 5299989774337 1000]].

(** * Properties *)

(** ** Integers and lists *)

Lemma wrap_s_small w z : 0 < w -> in_signed w z -> wrap_s w z = z.
Proof.
  unfold in_signed, wrap_s. intros Hw Hz.
  assert (Hp : 2 ^ w = 2 * 2 ^ (w - 1)).
  { rewrite <- Z.pow_succ_r by lia. f_equal. lia. }
  rewrite Z.mod_small; lia.
Qed.

Lemma wrap_s_range w z : 0 < w -> in_signed w (wrap_s w z).
Proof.
  unfold in_signed, wrap_s. intros Hw.
  assert (Hp : 2 ^ w = 2 * 2 ^ (w - 1)).
  { rewrite <- Z.pow_succ_r by lia. f_equal. lia. }
  assert (0 < 2 ^ (w - 1)) by (apply Z.pow_pos_nonneg; lia).
  pose proof (Z.mod_pos_bound (z + 2 ^ (w - 1)) (2 ^ w) ltac:(lia)). lia.
Qed.

Lemma wrap_s_of_unsigned w z :
  0 < w -> in_signed w z -> wrap_s w (z mod 2 ^ w) = z.
Proof.
  intros Hw Hz. rewrite <- (wrap_s_small w z Hw Hz) at 2.
  unfold wrap_s. f_equal.
  rewrite Z.add_mod_idemp_l; [reflexivity|].
  apply Z.pow_nonzero; lia.
Qed.

Lemma in_signedb_spec w z : in_signedb w z = true <-> in_signed w z.
Proof.
  unfold in_signedb, in_signed.
  rewrite andb_true_iff, Z.leb_le, Z.ltb_lt. tauto.
Qed.

Lemma firstn_exact {A} (a b : list A) n : length a = n -> firstn n (a ++ b) = a.
Proof.
  intros <-. rewrite firstn_app, Nat.sub_diag, firstn_all. simpl.
  apply app_nil_r.
Qed.

Lemma skipn_exact {A} (a b : list A) n : length a = n -> skipn n (a ++ b) = b.
Proof.
  intros <-. rewrite skipn_app, Nat.sub_diag, skipn_all. reflexivity.
Qed.

Lemma skipn_plus {A} (a b : list A) n k :
  length a = n -> skipn (n + k) (a ++ b) = skipn k b.
Proof.
  intros <-. rewrite skipn_app, skipn_all2 by lia.
  simpl. f_equal. lia.
Qed.

Lemma overwrite_all mem bs : length mem = length bs -> overwrite mem bs = bs.
Proof.
  intros H. unfold overwrite. rewrite skipn_all2 by lia. apply app_nil_r.
Qed.

Lemma le_signed_split n z :
  (0 < n)%nat -> in_signed (8 * Z.of_nat n) z -> le_signed n (le_split n z) = z.
Proof.
  intros Hn Hz. unfold le_signed. rewrite le_combine_split.
  replace (Z.of_nat n * 8) with (8 * Z.of_nat n) by lia.
  apply wrap_s_of_unsigned; [lia | exact Hz].
Qed.

Lemma le_unsigned_split n z :
  in_unsigned (8 * Z.of_nat n) z -> le_unsigned (le_split n z) = z.
Proof.
  intros Hz. unfold le_unsigned. rewrite le_combine_split.
  replace (Z.of_nat n * 8) with (8 * Z.of_nat n) by lia.
  apply Z.mod_small. exact Hz.
Qed.

Lemma bytes_eqb_eq a b : bytes_eqb a b = true <-> a = b.
Proof.
  revert b. induction a as [|x a IH]; intros [|y b]; simpl;
    try (split; (reflexivity || discriminate)).
  rewrite andb_true_iff, IH. split.
  - intros [Hxy ->]. f_equal. apply Byte.byte_dec_bl. exact Hxy.
  - intros E. injection E as -> ->. split; [|reflexivity].
    apply Byte.byte_dec_lb. reflexivity.
Qed.

(** ** Object representations *)

Lemma ArrayHeader_sizeof_pos : (0 < sizeof ArrayHeader)%nat.
Proof.
  simpl. lia.
Qed.

Lemma ArrayHeader_sizeof_small : Z.of_nat (sizeof ArrayHeader) < 2 ^ 31.
Proof.
  simpl. lia.
Qed.

Lemma ArrayHeader_wf_zero_init : wf_ArrayHeader zero_init.
Proof.
  unfold wf_ArrayHeader, in_signed.
    cbn [zero_init ArrayHeader_Pod count elementSize]. lia.
Qed.

Lemma ArrayHeader_to_bytes_length :
  forall v : ArrayHeader, wf_ArrayHeader v -> length (to_bytes v) = sizeof ArrayHeader.
Proof.
  intros [c e] _. reflexivity.
Qed.

Lemma ArrayHeader_of_to_bytes :
  forall v : ArrayHeader, wf_ArrayHeader v -> of_bytes (to_bytes v) = v.
Proof.
  intros [c e] [Hc He].
    cbv [wf_ArrayHeader to_bytes of_bytes ArrayHeader_Pod count elementSize] in *.
    rewrite firstn_exact, (skipn_exact (le_split 4 c)), firstn_all2
      by (rewrite length_le_split; lia).
    rewrite !le_signed_split by (try lia; assumption). reflexivity.
Qed.

#[global] Instance ArrayHeader_PodOk : PodOk ArrayHeader := {|
  wf := wf_ArrayHeader;
  sizeof_pos := ArrayHeader_sizeof_pos;
  sizeof_small := ArrayHeader_sizeof_small;
  wf_zero_init := ArrayHeader_wf_zero_init;
  to_bytes_length := ArrayHeader_to_bytes_length;
  of_to_bytes := ArrayHeader_of_to_bytes
|}.

Lemma DeviceDesc_sizeof_pos : (0 < sizeof DeviceDesc)%nat.
Proof.
  simpl. lia.
Qed.

Lemma DeviceDesc_sizeof_small : Z.of_nat (sizeof DeviceDesc) < 2 ^ 31.
Proof.
  simpl. lia.
Qed.

Lemma DeviceDesc_wf_zero_init : wf_DeviceDesc zero_init.
Proof.
  unfold wf_DeviceDesc, in_signed, in_unsigned.
    cbn [zero_init DeviceDesc_Pod uuid name gpuCtxSwTraceError
         cpuTimestampStart gpuTimestampStart cpuTimestampEnd gpuTimestampEnd].
    rewrite !repeat_length. repeat split; try reflexivity; lia.
Qed.

Lemma DeviceDesc_to_bytes_length :
  forall v : DeviceDesc, wf_DeviceDesc v -> length (to_bytes v) = sizeof DeviceDesc.
Proof.
  intros [u n e a b c d] (Hu & Hn & _).
    cbv [to_bytes sizeof DeviceDesc_Pod uuid name gpuCtxSwTraceError
         cpuTimestampStart gpuTimestampStart cpuTimestampEnd gpuTimestampEnd] in *.
    rewrite !length_app, Hu, Hn, !length_le_split. reflexivity.
Qed.

Lemma DeviceDesc_of_to_bytes :
  forall v : DeviceDesc, wf_DeviceDesc v -> of_bytes (to_bytes v) = v.
Proof.
  intros [u n e a b c d] (Hu & Hn & He & Ha & Hb & Hc & Hd).
    cbv [to_bytes of_bytes DeviceDesc_Pod uuid name gpuCtxSwTraceError name_capacity
         cpuTimestampStart gpuTimestampStart cpuTimestampEnd gpuTimestampEnd] in *.
    rewrite (firstn_exact u) by exact Hu.
    rewrite (skipn_exact u) by exact Hu.
    rewrite (firstn_exact n) by exact Hn.
    rewrite (skipn_plus u _ 16 239), (skipn_exact n) by assumption.
    rewrite (firstn_exact (le_split 1 e)) by apply length_le_split.
    rewrite (skipn_plus u _ 16 240), (skipn_plus n _ 239 1),
      (skipn_exact (le_split 1 e)) by (assumption || apply length_le_split).
    rewrite (firstn_exact (le_split 8 a)) by apply length_le_split.
    rewrite (skipn_plus u _ 16 248), (skipn_plus n _ 239 9),
      (skipn_plus (le_split 1 e) _ 1 8), (skipn_exact (le_split 8 a))
      by (assumption || apply length_le_split).
    rewrite (firstn_exact (le_split 8 b)) by apply length_le_split.
    rewrite (skipn_plus u _ 16 256), (skipn_plus n _ 239 17),
      (skipn_plus (le_split 1 e) _ 1 16), (skipn_plus (le_split 8 a) _ 8 8),
      (skipn_exact (le_split 8 b)) by (assumption || apply length_le_split).
    rewrite (firstn_exact (le_split 8 c)) by apply length_le_split.
    rewrite (skipn_plus u _ 16 264), (skipn_plus n _ 239 25),
      (skipn_plus (le_split 1 e) _ 1 24), (skipn_plus (le_split 8 a) _ 8 16),
      (skipn_plus (le_split 8 b) _ 8 8), (skipn_exact (le_split 8 c))
      by (assumption || apply length_le_split).
    rewrite firstn_all2 by (rewrite length_le_split; lia).
    rewrite !le_signed_split, le_unsigned_split by (try lia; assumption).
    reflexivity.
Qed.

#[global] Instance DeviceDesc_PodOk : PodOk DeviceDesc := {|
  wf := wf_DeviceDesc;
  sizeof_pos := DeviceDesc_sizeof_pos;
  sizeof_small := DeviceDesc_sizeof_small;
  wf_zero_init := DeviceDesc_wf_zero_init;
  to_bytes_length := DeviceDesc_to_bytes_length;
  of_to_bytes := DeviceDesc_of_to_bytes
|}.

Lemma RecordGpuCtxSw_sizeof_pos : (0 < sizeof RecordGpuCtxSw)%nat.
Proof.
  simpl. lia.
Qed.

Lemma RecordGpuCtxSw_sizeof_small : Z.of_nat (sizeof RecordGpuCtxSw) < 2 ^ 31.
Proof.
  simpl. lia.
Qed.

Lemma RecordGpuCtxSw_wf_zero_init : wf_RecordGpuCtxSw zero_init.
Proof.
  unfold wf_RecordGpuCtxSw, in_signed, in_unsigned.
    cbn [zero_init RecordGpuCtxSw_Pod category type processId timestamp contextHandle].
    lia.
Qed.

Lemma RecordGpuCtxSw_to_bytes_length :
  forall v : RecordGpuCtxSw, wf_RecordGpuCtxSw v -> length (to_bytes v) = sizeof RecordGpuCtxSw.
Proof.
  intros [c t p ts h] _. reflexivity.
Qed.

Lemma RecordGpuCtxSw_of_to_bytes :
  forall v : RecordGpuCtxSw, wf_RecordGpuCtxSw v -> of_bytes (to_bytes v) = v.
Proof.
  intros [c t p ts h] (Hc & Ht & Hp & Hts & Hh).
    cbv [to_bytes of_bytes RecordGpuCtxSw_Pod category type processId timestamp
         contextHandle] in *.
    rewrite (firstn_exact (le_split 2 c)) by apply length_le_split.
    rewrite (skipn_exact (le_split 2 c)) by apply length_le_split.
    rewrite (firstn_exact (le_split 2 t)) by apply length_le_split.
    rewrite (skipn_plus (le_split 2 c) _ 2 2), (skipn_exact (le_split 2 t))
      by apply length_le_split.
    rewrite (firstn_exact (le_split 4 p)) by apply length_le_split.
    rewrite (skipn_plus (le_split 2 c) _ 2 6), (skipn_plus (le_split 2 t) _ 2 4),
      (skipn_exact (le_split 4 p)) by apply length_le_split.
    rewrite (firstn_exact (le_split 8 ts)) by apply length_le_split.
    rewrite (skipn_plus (le_split 2 c) _ 2 14), (skipn_plus (le_split 2 t) _ 2 12),
      (skipn_plus (le_split 4 p) _ 4 8), (skipn_exact (le_split 8 ts))
      by apply length_le_split.
    rewrite firstn_all2 by (rewrite length_le_split; lia).
    rewrite !le_unsigned_split, le_signed_split by (try lia; assumption).
    reflexivity.
Qed.

#[global] Instance RecordGpuCtxSw_PodOk : PodOk RecordGpuCtxSw := {|
  wf := wf_RecordGpuCtxSw;
  sizeof_pos := RecordGpuCtxSw_sizeof_pos;
  sizeof_small := RecordGpuCtxSw_sizeof_small;
  wf_zero_init := RecordGpuCtxSw_wf_zero_init;
  to_bytes_length := RecordGpuCtxSw_to_bytes_length;
  of_to_bytes := RecordGpuCtxSw_of_to_bytes
|}.

(** ** Streams and arrays *)

Lemma istream_read_exact bs rest gpos log n :
  n = Z.of_nat (length bs) ->
  istream_read (mk_ifstream (bs ++ rest) gpos false log) n
  = (bs, mk_ifstream rest (gpos + n) false (log ++ [n])).
Proof.
  intros ->. unfold istream_read. cbn [is_fail is_rest is_gpos is_reads].
  destruct (Z.ltb_spec (Z.of_nat (length bs)) 0) as [H|_]; [lia|].
  destruct (Z.leb_spec (Z.of_nat (length bs)) (Z.of_nat (length (bs ++ rest))))
    as [_|H]; [|rewrite length_app in H; lia].
  rewrite Nat2Z.id, firstn_exact, skipn_exact by reflexivity. reflexivity.
Qed.

Lemma istream_read_short file gpos log n :
  Z.of_nat (length file) < n ->
  istream_read (mk_ifstream file gpos false log) n
  = (file, mk_ifstream [] (gpos + Z.of_nat (length file)) true (log ++ [n])).
Proof.
  intros H. unfold istream_read. cbn [is_fail is_rest is_gpos is_reads].
  destruct (Z.ltb_spec n 0); [lia|].
  destruct (Z.leb_spec n (Z.of_nat (length file))); [lia|]. reflexivity.
Qed.

Lemma ostream_write_exact out mem n :
  n = Z.of_nat (length mem) ->
  ostream_write (mk_ofstream out false) mem n = mk_ofstream (out ++ mem) false.
Proof.
  intros ->. unfold ostream_write. cbn [os_bad os_out].
  destruct (Z.ltb_spec (Z.of_nat (length mem)) 0); [lia|].
  rewrite Nat2Z.id, firstn_all. reflexivity.
Qed.

Section Arrays.
Context {T : Type} `{PodOk T}.

Lemma vector_bytes_length (v : list T) :
  Forall wf v -> length (vector_bytes v) = (length v * sizeof T)%nat.
Proof.
  unfold vector_bytes. induction 1 as [|x v Hx _ IH]; [reflexivity|].
  cbn [flat_map length]. rewrite length_app, IH, to_bytes_length by exact Hx.
  reflexivity.
Qed.

Lemma vector_of_bytes_vector_bytes (v : list T) rest :
  Forall wf v -> vector_of_bytes (length v) (vector_bytes v ++ rest) = v.
Proof.
  unfold vector_bytes. induction 1 as [|x v Hx _ IH]; [reflexivity|].
  cbn [flat_map length vector_of_bytes]. rewrite <- app_assoc.
  rewrite firstn_exact, skipn_exact by (apply to_bytes_length; exact Hx).
  rewrite of_to_bytes, IH by exact Hx. reflexivity.
Qed.

Lemma Forall_wf_repeat_zero n : Forall wf (repeat (zero_init : T) n).
Proof. apply Forall_forall. intros x Hx. apply repeat_spec in Hx. subst. apply wf_zero_init. Qed.

Lemma byte_count_length (v : list T) :
  byte_count v < 2 ^ 31 -> Z.of_nat (length v) < 2 ^ 31.
Proof.
  unfold byte_count. pose proof sizeof_pos. nia.
Qed.

(** The header [WriteVector] emits for [v]. *)
Lemma WriteVector_header (v : list T) :
  byte_count v < 2 ^ 31 ->
  mk_ArrayHeader (wrap_s 32 (Z.of_nat (length v))) (wrap_s 32 (Z.of_nat (sizeof T)))
  = mk_ArrayHeader (Z.of_nat (length v)) (Z.of_nat (sizeof T)).
Proof.
  intros Hv. pose proof (byte_count_length v Hv). pose proof sizeof_small.
  rewrite !wrap_s_small by (unfold in_signed; lia). reflexivity.
Qed.

(** What [WriteVector] appends to a good stream. *)
Lemma WriteVector_out out (v : list T) :
  Forall wf v -> byte_count v < 2 ^ 31 ->
  WriteVector (mk_ofstream out false) v
  = mk_ofstream
      (out ++ to_bytes (mk_ArrayHeader (Z.of_nat (length v)) (Z.of_nat (sizeof T)))
           ++ vector_bytes v) false.
Proof.
  intros Hwf Hv. unfold WriteVector, Write.
  rewrite (WriteVector_header v Hv).
  rewrite (ostream_write_exact out) by reflexivity.
  cbn [count elementSize].
  pose proof (byte_count_length v Hv). pose proof sizeof_small.
  rewrite wrap_s_small
    by (unfold in_signed; unfold byte_count in Hv; lia).
  rewrite ostream_write_exact, <- app_assoc; [reflexivity|].
  rewrite vector_bytes_length by exact Hwf. lia.
Qed.

(** Reading back an array written with the reader's own element size. *)
Lemma ReadVector_written (v : list T) rest gpos log :
  Forall wf v -> byte_count v < 2 ^ 31 ->
  ReadVector
    (mk_ifstream
       (to_bytes (mk_ArrayHeader (Z.of_nat (length v)) (Z.of_nat (sizeof T)))
        ++ vector_bytes v ++ rest) gpos false log) []
  = (Returned true, v,
     mk_ifstream rest (gpos + 8 + byte_count v) false (log ++ [8; byte_count v])).
Proof.
  intros Hwf Hv. pose proof (byte_count_length v Hv) as Hlen.
  pose proof sizeof_small as Hsz. pose proof sizeof_pos as Hpos.
  unfold ReadVector, Read.
  rewrite istream_read_exact by reflexivity.
  unfold store. rewrite overwrite_all by reflexivity.
  rewrite of_to_bytes
    by (split; unfold in_signed; cbn [count elementSize]; lia).
  cbn [is_fail count elementSize].
  destruct (Z.ltb_spec (Z.of_nat (length v)) 0) as [Hneg|_]; [lia|].
  assert (Hu : wrap_u 64 (Z.of_nat (sizeof T)) = Z.of_nat (sizeof T)).
  { unfold wrap_u. apply Z.mod_small. lia. }
  rewrite Hu, Z.eqb_refl.
  rewrite wrap_s_small by (unfold in_signed; unfold byte_count in Hv; lia).
  rewrite istream_read_exact
    by (rewrite vector_bytes_length by exact Hwf; lia).
  cbn [is_fail negb].
  unfold resize. cbn [firstn length]. rewrite firstn_nil, Nat2Z.id, Nat.sub_0_r.
  cbn [app]. rewrite repeat_length.
  rewrite overwrite_all
    by (rewrite !vector_bytes_length, repeat_length;
        [reflexivity | exact Hwf | apply Forall_wf_repeat_zero]).
  rewrite <- (app_nil_r (vector_bytes v)) at 1.
  rewrite vector_of_bytes_vector_bytes by exact Hwf.
  unfold byte_count. rewrite <- app_assoc. reflexivity.
Qed.
End Arrays.

(** ** Element sizes that differ from [sizeof(T)] *)

(** An array whose element size lies in [0, sizeof(T)) is refused after
    the header, by [return false] or, for a negative count, by the
    exception of [resize]; nothing but the header is read. *)
Lemma ReadVector_older_fails {T} `{PodOk T} (h : ArrayHeader) rest gpos log
    (buffer : list T) :
  wf_ArrayHeader h -> 0 <= elementSize h < Z.of_nat (sizeof T) ->
  exists o buffer',
    ReadVector (mk_ifstream (to_bytes h ++ rest) gpos false log) buffer
    = (o, buffer', mk_ifstream rest (gpos + 8) false (log ++ [8])) /\
    o <> Returned true.
Proof.
  intros Hwf Hes. pose proof sizeof_small as Hsz.
  unfold ReadVector, Read.
  rewrite istream_read_exact by (destruct h; reflexivity).
  unfold store.
  rewrite overwrite_all by (destruct h; reflexivity).
  rewrite (ArrayHeader_of_to_bytes h Hwf). cbn [is_fail].
  destruct (count h <? 0); [eexists _, _; split; [reflexivity | discriminate]|].
  assert (Hu : wrap_u 64 (elementSize h) = elementSize h).
  { unfold wrap_u. apply Z.mod_small. lia. }
  rewrite Hu.
  destruct (Z.eqb_spec (elementSize h) (Z.of_nat (sizeof T))); [lia|].
  destruct (Z.gtb_spec (elementSize h) (Z.of_nat (sizeof T))); [lia|].
  eexists _, _. split; [reflexivity | discriminate].
Qed.

Lemma store_whole {T} `{PodOk T} (elem x : T) :
  wf elem -> wf x -> store elem (to_bytes x) = x.
Proof.
  intros He Hx. unfold store.
  rewrite overwrite_all by (rewrite !to_bytes_length by assumption; reflexivity).
  apply of_to_bytes. exact Hx.
Qed.

(** The larger-element loop consumes the records back to back. *)
Lemma read_each_contiguous {T} `{PodOk T} (v : list T) :
  forall (buffer : list T) rest gpos log,
    Forall wf v -> Forall wf buffer -> length buffer = length v ->
    exists log',
      read_each (mk_ifstream (vector_bytes v ++ rest) gpos false log) buffer
      = (v, mk_ifstream rest (gpos + byte_count v) false log').
Proof.
  induction v as [|x v IH]; intros buffer rest gpos log Hwf Hbuf Hlen.
  - destruct buffer; [|discriminate]. exists log.
    unfold byte_count. cbn. rewrite Z.add_0_r. reflexivity.
  - destruct buffer as [|elem buffer]; [discriminate|].
    inversion Hwf as [|? ? Hx Hv]; subst.
    inversion Hbuf as [|? ? He Hb]; subst.
    cbn [read_each vector_bytes flat_map]. unfold Read.
    rewrite <- app_assoc.
    rewrite istream_read_exact by (rewrite to_bytes_length by exact Hx; reflexivity).
    rewrite store_whole by assumption.
    assert (Hlen' : length buffer = length v) by (cbn [length] in Hlen; lia).
    destruct (IH buffer rest (gpos + Z.of_nat (sizeof T))
                (log ++ [Z.of_nat (sizeof T)]) Hv Hb Hlen') as [log' E].
    fold (vector_bytes v). rewrite E. exists log'.
    unfold byte_count. cbn [length]. f_equal. f_equal. lia.
Qed.

(** What the code does with an array whose element size is larger than
    [sizeof(T)], or negative: the bytes that follow the header are taken as
    [count] records of [sizeof(T)] bytes each, and the stream stops right
    after them. *)
Lemma ReadVector_larger_contiguous {T} `{PodOk T} (v : list T) es rest gpos log :
  Forall wf v -> Z.of_nat (length v) < 2 ^ 31 ->
  (Z.of_nat (sizeof T) < es < 2 ^ 31 \/ - 2 ^ 31 <= es < 0) ->
  exists log',
    ReadVector
      (mk_ifstream
         (to_bytes (mk_ArrayHeader (Z.of_nat (length v)) es) ++ vector_bytes v ++ rest)
         gpos false log) []
    = (Returned true, v, mk_ifstream rest (gpos + 8 + byte_count v) false log').
Proof.
  intros Hwf Hlen Hes. pose proof sizeof_small as Hsz.
  unfold ReadVector, Read.
  rewrite istream_read_exact by reflexivity.
  unfold store. rewrite overwrite_all by reflexivity.
  rewrite ArrayHeader_of_to_bytes
    by (split; unfold in_signed; cbn [count elementSize]; lia).
  cbn [is_fail count elementSize].
  destruct (Z.ltb_spec (Z.of_nat (length v)) 0); [lia|].
  assert (Hu : Z.of_nat (sizeof T) < wrap_u 64 es).
  { unfold wrap_u. destruct Hes as [Hes|Hes].
    - rewrite Z.mod_small; lia.
    - replace es with (es + 2 ^ 64 - 1 * 2 ^ 64) by lia.
      rewrite <- Zminus_mod_idemp_r, Z_mod_mult, Z.sub_0_r.
      rewrite Z.mod_small; lia. }
  destruct (Z.eqb_spec (wrap_u 64 es) (Z.of_nat (sizeof T))); [lia|].
  destruct (Z.gtb_spec (wrap_u 64 es) (Z.of_nat (sizeof T))); [|lia].
  unfold resize. rewrite firstn_nil, Nat2Z.id. cbn [app length]. rewrite Nat.sub_0_r.
  destruct (read_each_contiguous v (repeat zero_init (length v)) rest
              (gpos + Z.of_nat (sizeof ArrayHeader))
              (log ++ [Z.of_nat (sizeof ArrayHeader)]) Hwf
              (Forall_wf_repeat_zero _) (repeat_length _ _)) as [log' E].
  rewrite E. cbn [is_fail negb]. exists log'. reflexivity.
Qed.

(** Where the [int] product of count and element size overflows, that
    is for arrays of [2 ^ 31] bytes or more, [WriteVector] does not write
    the whole array: the stream goes bad or the array is cut short. *)
Lemma WriteVector_overflow_short {T} `{PodOk T} out (v : list T) :
  Forall wf v -> Z.of_nat (length v) < 2 ^ 31 -> 2 ^ 31 <= byte_count v ->
  os_bad (WriteVector (mk_ofstream out false) v) = true \/
  (length (os_out (WriteVector (mk_ofstream out false) v))
   < length out + 8 + length (vector_bytes v))%nat.
Proof.
  intros Hwf Hlen Hbig. pose proof sizeof_small as Hsz.
  unfold WriteVector, Write.
  rewrite (ostream_write_exact out) by reflexivity.
  cbn [count elementSize].
  rewrite !(wrap_s_small 32 (Z.of_nat _)) by (unfold in_signed; lia).
  fold (byte_count v).
  pose proof (wrap_s_range 32 (byte_count v) ltac:(lia)) as Hn.
  unfold in_signed in Hn. change (2 ^ (32 - 1)) with (2 ^ 31) in Hn.
  unfold ostream_write. cbn [os_bad os_out].
  destruct (Z.ltb_spec (wrap_s 32 (byte_count v)) 0) as [Hneg|Hpos].
  - left. reflexivity.
  - right. cbn [os_out].
    rewrite !length_app, length_firstn, vector_bytes_length by exact Hwf.
    unfold byte_count in *.
    change (length (to_bytes (mk_ArrayHeader (Z.of_nat (length v)) (Z.of_nat (sizeof T)))))
      with 8%nat.
    lia.
Qed.

(** ** Files *)

Lemma WriteVector_out' {T} `{PodOk T} out (v : list T) :
  Forall wf v -> byte_count v < 2 ^ 31 ->
  WriteVector (mk_ofstream out false) v = mk_ofstream (out ++ encode_vector v) false.
Proof. intros Hwf Hv. rewrite WriteVector_out by assumption. reflexivity. Qed.

Lemma write_devices_out (per : list (list RecordGpuCtxSw)) out :
  Forall (Forall wf_RecordGpuCtxSw) per ->
  Forall (fun records => byte_count records < 2 ^ 31) per ->
  fold_left (fun o deviceData => WriteVector o deviceData) per (mk_ofstream out false)
  = mk_ofstream (out ++ flat_map encode_vector per) false.
Proof.
  intros Hwf. revert out. induction Hwf as [|v per Hv _ IH]; intros out Hfit.
  - cbn [fold_left flat_map]. rewrite app_nil_r. reflexivity.
  - inversion Hfit as [|? ? Hv' Hfit']; subst.
    cbn [fold_left flat_map].
    rewrite (WriteVector_out' out v) by assumption.
    rewrite IH by assumption. rewrite <- app_assoc. reflexivity.
Qed.

(** The file [WriteFileData] produces. *)
Lemma WriteFileData_out fd :
  wf_FileData fd -> sizes_fit fd ->
  WriteFileData true fd
  = (true, nvtrc01Magic ++ encode_vector (deviceDescs fd)
             ++ flat_map encode_vector (perDeviceData fd)).
Proof.
  intros [Hd Hp] [Sd Sp]. unfold WriteFileData. cbn [negb].
  unfold Write. rewrite !ostream_write_exact by reflexivity.
  cbn [to_bytes FileHeader_Pod magic app].
  rewrite (WriteVector_out' _ (deviceDescs fd)) by assumption.
  rewrite write_devices_out by assumption.
  cbn [os_bad os_out negb]. rewrite <- app_assoc. reflexivity.
Qed.

Lemma read_devices_written (per : list (list RecordGpuCtxSw)) rest gpos log :
  Forall (Forall wf_RecordGpuCtxSw) per ->
  Forall (fun records => byte_count records < 2 ^ 31) per ->
  exists gpos' log',
    read_devices (mk_ifstream (flat_map encode_vector per ++ rest) gpos false log)
                 (repeat [] (length per))
    = (Returned true, per, mk_ifstream rest gpos' false log').
Proof.
  intros Hwf. revert gpos log.
  induction Hwf as [|v per Hv _ IH]; intros gpos log Hfit.
  - exists gpos, log. reflexivity.
  - inversion Hfit as [|? ? Hv' Hfit']; subst.
    cbn [flat_map length repeat read_devices]. unfold encode_vector at 1.
    rewrite <- !app_assoc.
    rewrite (ReadVector_written v) by assumption.
    destruct (IH (gpos + 8 + byte_count v) (log ++ [8; byte_count v]) Hfit')
      as (gpos' & log' & E).
    rewrite E. exists gpos', log'. reflexivity.
Qed.

(** Reading a written file gives the written value back. *)
Lemma ReadFileData_WriteFileData fd prior :
  wf_FileData fd -> sizes_fit fd ->
  length (perDeviceData fd) = length (deviceDescs fd) ->
  fst (WriteFileData true fd) = true /\
  exists ifs,
    ReadFileData (Some (snd (WriteFileData true fd))) prior = (Returned true, fd, ifs).
Proof.
  intros Hwf Hfit Hlen. rewrite WriteFileData_out by assumption.
  split; [reflexivity|]. cbn [snd].
  destruct Hwf as [Hd Hp]. destruct Hfit as [Sd Sp].
  unfold ReadFileData, ifstream_open, Read.
  rewrite istream_read_exact by reflexivity.
  cbn [is_fail]. unfold store. rewrite overwrite_all by reflexivity.
  cbn [of_bytes FileHeader_Pod magic].
  replace (bytes_eqb (firstn 8 nvtrc01Magic) nvtrc01Magic) with true by reflexivity.
  cbn [negb deviceDescs perDeviceData FileData_empty].
  unfold encode_vector at 1. rewrite <- !app_assoc.
  rewrite (ReadVector_written (deviceDescs fd)) by assumption.
  unfold resize. rewrite firstn_nil. cbn [app length]. rewrite Nat.sub_0_r.
  rewrite <- Hlen.
  match goal with
  | |- context [read_devices (mk_ifstream _ ?g false ?l) _] =>
      destruct (read_devices_written (perDeviceData fd) [] g l Hp Sp)
        as (gpos' & log' & E)
  end.
  rewrite app_nil_r in E. rewrite E. eexists. destruct fd. reflexivity.
Qed.

(** ** Doubles *)

Lemma digits2_pos_bound p : forall k,
  0 <= k -> Z.pos p < 2 ^ k -> Z.pos (digits2_pos p) <= k.
Proof.
  induction p as [p IH|p IH|]; intros k Hk Hp.
  - destruct (Z.eq_dec k 0) as [->|Hne]; [simpl in Hp; lia|].
    replace k with (Z.succ (k - 1)) in Hp by lia.
    rewrite Z.pow_succ_r in Hp by lia.
    cbn [digits2_pos]. rewrite Pos2Z.inj_succ.
    specialize (IH (k - 1)). lia.
  - destruct (Z.eq_dec k 0) as [->|Hne]; [simpl in Hp; lia|].
    replace k with (Z.succ (k - 1)) in Hp by lia.
    rewrite Z.pow_succ_r in Hp by lia.
    cbn [digits2_pos]. rewrite Pos2Z.inj_succ.
    specialize (IH (k - 1)). lia.
  - destruct (Z.eq_dec k 0) as [->|Hne]; [simpl in Hp; lia|].
    cbn [digits2_pos]. lia.
Qed.

Lemma Zdigits2_bound m k :
  0 <= k -> 0 <= m < 2 ^ k -> 0 <= Zdigits2 m <= k.
Proof.
  intros Hk [H0 Hm]. destruct m as [|p|p]; cbn [Zdigits2]; [lia| |lia].
  pose proof (digits2_pos_bound p k Hk Hm). lia.
Qed.

Lemma shr_1_bounds mrs :
  0 <= shr_m mrs -> 0 <= shr_m (shr_1 mrs) <= shr_m mrs.
Proof.
  destruct mrs as [m r s]. destruct m as [|[p|p|]|p]; cbn [shr_1 shr_m]; lia.
Qed.

Lemma iter_pos_shr_1_bounds p : forall mrs,
  0 <= shr_m mrs -> 0 <= shr_m (iter_pos shr_1 p mrs) <= shr_m mrs.
Proof.
  induction p as [p IH|p IH|]; intros mrs Hm; cbn [iter_pos].
  - pose proof (shr_1_bounds mrs Hm) as H1.
    pose proof (IH _ (proj1 H1)) as H2.
    pose proof (IH _ (proj1 H2)) as H3. lia.
  - pose proof (IH _ Hm) as H2.
    pose proof (IH _ (proj1 H2)) as H3. lia.
  - apply shr_1_bounds. exact Hm.
Qed.

Lemma shr_bounds mrs e n :
  0 <= shr_m mrs ->
  0 <= shr_m (fst (shr mrs e n)) <= shr_m mrs /\
  snd (shr mrs e n) = Z.max e (e + n).
Proof.
  intros Hm. destruct n as [|p|p]; cbn [shr fst snd]; try (split; lia).
  split; [apply iter_pos_shr_1_bounds; exact Hm | lia].
Qed.

Lemma shr_fexp_bounds m e l :
  0 <= m ->
  0 <= shr_m (fst (shr_fexp prec emax m e l)) <= m /\
  snd (shr_fexp prec emax m e l) = Z.max e (fexp prec emax (Zdigits2 m + e)).
Proof.
  intros Hm. unfold shr_fexp.
  assert (Hr : shr_m (shr_record_of_loc m l) = m)
    by (destruct l as [|[]]; reflexivity).
  destruct (shr_bounds (shr_record_of_loc m l) e
              (fexp prec emax (Zdigits2 m + e) - e)) as [Hb He];
    [rewrite Hr; exact Hm|].
  rewrite Hr in Hb. split; [exact Hb|]. rewrite He. f_equal. lia.
Qed.

Lemma round_nearest_even_bounds m l :
  m <= round_nearest_even m l <= m + 1.
Proof.
  unfold round_nearest_even. destruct l as [|[]]; try lia.
  destruct (Z.even m); lia.
Qed.

(** Rounding a mantissa below [2 ^ k] at a small exponent never overflows. *)
Lemma binary_round_aux_finite sx mx ex lx k :
  0 <= k <= 200 -> 0 <= mx < 2 ^ k -> ex <= 0 ->
  SF_is_finite (binary_round_aux prec emax sx mx ex lx) = true.
Proof.
  intros Hk Hmx Hex. unfold binary_round_aux.
  destruct (shr_fexp_bounds mx ex lx (proj1 Hmx)) as [Hb1 He1].
  destruct (shr_fexp prec emax mx ex lx) as [mrs1 e1]. cbn [fst snd] in Hb1, He1.
  pose proof (round_nearest_even_bounds (shr_m mrs1) (loc_of_shr_record mrs1)) as Hr.
  set (m2 := round_nearest_even (shr_m mrs1) (loc_of_shr_record mrs1)) in *.
  destruct (shr_fexp_bounds m2 e1 loc_Exact ltac:(lia)) as [Hb2 He2].
  destruct (shr_fexp prec emax m2 e1 loc_Exact) as [mrs2 e2]. cbn [fst snd] in Hb2, He2.
  destruct (shr_m mrs2) as [|m|m] eqn:Em; [reflexivity| |lia].
  assert (Hd1 : 0 <= Zdigits2 mx <= k) by (apply Zdigits2_bound; lia).
  assert (Hd2 : 0 <= Zdigits2 m2 <= k + 1).
  { apply Zdigits2_bound; [lia|]. rewrite Z.pow_add_r by lia. lia. }
  unfold fexp, emin, prec, emax in *.
  destruct (Z.leb_spec e2 (1024 - 53)); [reflexivity | lia].
Qed.

Lemma Pos_iter_xO m d : Z.pos (Pos.iter xO m d) = Z.pos m * 2 ^ Z.pos d.
Proof.
  induction d as [|d IH] using Pos.peano_ind.
  - cbn [Pos.iter]. rewrite Z.pow_1_r. lia.
  - rewrite Pos.iter_succ, Pos2Z.inj_succ, Z.pow_succ_r by lia. lia.
Qed.

Lemma binary_round_finite sx m :
  Z.pos m < 2 ^ 64 -> SF_is_finite (binary_round prec emax sx m 0) = true.
Proof.
  intros Hm. unfold binary_round, shl_align.
  pose proof (digits2_pos_bound m 64 ltac:(lia) Hm) as Hd.
  pose proof (Pos2Z.is_pos (digits2_pos m)) as Hd0.
  destruct (fexp prec emax (Z.pos (digits2_pos m) + 0) - 0) as [|d|d] eqn:Ed.
  - apply binary_round_aux_finite with (k := 64); lia.
  - apply binary_round_aux_finite with (k := 64); lia.
  - assert (Hdd : Z.pos d <= 52 /\ fexp prec emax (Z.pos (digits2_pos m) + 0) <= 0)
      by (unfold fexp, emin, prec, emax in *; lia).
    destruct Hdd as [Hdd Hex].
    apply binary_round_aux_finite with (k := 116); [lia| |exact Hex].
    rewrite Pos_iter_xO. split; [lia|].
    assert (2 ^ Z.pos d <= 2 ^ 52) by (apply Z.pow_le_mono_r; lia).
    change (2 ^ 116) with (2 ^ 64 * 2 ^ 52). nia.
Qed.

(** Every 64-bit integer converts to a finite double. *)
Lemma double_of_int64_finite z :
  in_signed 64 z -> SF_is_finite (double_of_int64 z) = true.
Proof.
  unfold in_signed. intros Hz.
  unfold double_of_int64, binary_normalize.
  destruct z as [|m|m]; [reflexivity| |]; apply binary_round_finite; lia.
Qed.

Lemma SFmul_zero_l s f :
  SF_is_finite f = true ->
  exists s', SFmul prec emax (S754_zero s) f = S754_zero s'.
Proof.
  destruct f as [s2|s2| |s2 m e]; cbn [SF_is_finite SFmul]; try discriminate;
    intros _; eexists; reflexivity.
Qed.

(** [static_cast<int64_t>] computes the integer part of the exact value. *)
Lemma int64_of_double_trunc f q :
  SF_value f = Some q ->
  int64_of_double f = if in_signedb 64 (Qtrunc q) then Some (Qtrunc q) else None.
Proof.
  destruct f as [s|s| |s m e]; cbn [SF_value int64_of_double]; try discriminate.
  - intros [= <-]. reflexivity.
  - intros [= <-]. destruct (Z.leb_spec 0 e) as [He|He].
    + unfold Qtrunc. cbn [inject_Z Qnum Qden]. rewrite Z.quot_1_r.
      destruct s; [|reflexivity].
      rewrite <- Pos2Z.opp_pos, Z.mul_opp_l. reflexivity.
    + unfold Qtrunc. cbn [Qnum Qden].
      assert (Hp : 0 < 2 ^ (- e)) by (apply Z.pow_pos_nonneg; lia).
      rewrite Z2Pos.id by exact Hp.
      destruct s.
      * rewrite <- Pos2Z.opp_pos, Z.quot_opp_l by lia.
        rewrite Z.quot_div_nonneg by lia. reflexivity.
      * rewrite Z.quot_div_nonneg by lia. reflexivity.
Qed.

(** ** Timestamp conversion *)

(** C2, as the code has it.  A converter built by [CreateTimestampConverter]
    is anchored at the end of the capture ([srcAtSyncPoint = srcEnd],
    [dstAtSyncPoint = dstEnd]) and is determined by its three fields.
    Applied to [x], it takes the double product of [scale] and
    [x - srcEnd], keeps the integer part of its exact value (rounding toward
    zero, not to the nearest integer) and adds [dstEnd]; the conversion is
    undefined when the product is not finite or its integer part is not a
    64-bit integer. *)
Theorem convert_truncates (srcStart srcEnd dstStart dstEnd x : Z) :
  let c := CreateTimestampConverter srcStart srcEnd dstStart dstEnd in
  c = mk_TimestampConverter dstEnd srcEnd (scale c) /\
  convert c x =
  match SF_value (SFmul prec emax (scale c)
                    (double_of_int64 (wrap_s 64 (x - srcEnd)))) with
  | Some q =>
      if in_signedb 64 (Qtrunc q)
      then Some (wrap_s 64 (Qtrunc q + dstEnd)) else None
  | None => None
  end.
Proof.
  intros c. split; [reflexivity|].
  unfold convert. change (srcAtSyncPoint c) with srcEnd.
  change (dstAtSyncPoint c) with dstEnd.
  destruct (SF_value (SFmul prec emax (scale c)
              (double_of_int64 (wrap_s 64 (x - srcEnd))))) as [q|] eqn:Eq.
  - rewrite (int64_of_double_trunc _ q Eq).
    destruct (in_signedb 64 (Qtrunc q)); reflexivity.
  - destruct (SFmul prec emax (scale c)
                (double_of_int64 (wrap_s 64 (x - srcEnd))));
      try discriminate; reflexivity.
Qed.

(** C2 fails as stated: with sync points (0, 0) and (4, 3) the scale is
    0.75; one tick after the end the product is 0.75, which the code
    truncates to 0 (result 3) where rounding to nearest gives 1 (result 4). *)
Lemma convert_rounding_counterexample :
  let c := CreateTimestampConverter 0 4 0 3 in
  convert c 5 = Some 3 /\ Spec.convert_rounded c 5 = Some 4.
Proof. vm_compute. split; reflexivity. Qed.

(** The scenario of the specification: the midpoint maps to the midpoint. *)
Example convert_midpoint :
  convert (CreateTimestampConverter 1000 2000 500000 500500) 1500 = Some 500250.
Proof. vm_compute. reflexivity. Qed.

(** C7.  When [srcStart = srcEnd], the scale of the converter is exactly
    [+0.0], the product it forms for any source timestamp is a zero (never
    NaN or an infinity), and the conversion returns [dstEnd]. *)
Theorem degenerate_span_returns_anchor (srcStart srcEnd dstStart dstEnd x : Z) :
  srcStart = srcEnd -> in_signed 64 dstEnd ->
  let c := CreateTimestampConverter srcStart srcEnd dstStart dstEnd in
  scale c = S754_zero false /\
  SF_is_finite (SFmul prec emax (scale c)
                  (double_of_int64 (wrap_s 64 (x - srcAtSyncPoint c)))) = true /\
  convert c x = Some dstEnd.
Proof.
  intros -> Hdst c.
  assert (Hs : scale c = S754_zero false).
  { unfold c, CreateTimestampConverter. cbn [scale].
    rewrite Z.sub_diag. reflexivity. }
  assert (Hfin : SF_is_finite (double_of_int64 (wrap_s 64 (x - srcAtSyncPoint c))) = true).
  { apply double_of_int64_finite. apply wrap_s_range. lia. }
  destruct (SFmul_zero_l false _ Hfin) as [s' Hmul].
  split; [exact Hs|]. unfold convert. rewrite Hs, Hmul. split; [reflexivity|].
  cbn [int64_of_double]. f_equal.
  change (dstAtSyncPoint c) with dstEnd.
  apply wrap_s_small; [lia | exact Hdst].
Qed.

Lemma degenerate_span_witness :
  convert (CreateTimestampConverter 7 7 100 500) 123456789 = Some 500.
Proof.
  apply (degenerate_span_returns_anchor 7 7 100 500 123456789).
  - reflexivity.
  - unfold in_signed. lia.
Defined.

(** ** Device names *)

Lemma array_set_length {A} (buf : list A) i v :
  length (array_set buf i v) = length buf.
Proof.
  revert i. induction buf as [|h t IH]; intros [|j]; cbn [array_set length];
    try reflexivity. rewrite IH. reflexivity.
Qed.

Lemma array_set_nth_error {A} (buf : list A) i v :
  (i < length buf)%nat -> nth_error (array_set buf i v) i = Some v.
Proof.
  revert i. induction buf as [|h t IH]; intros [|j] Hi; cbn [length] in Hi;
    cbn [array_set nth_error]; try lia; [reflexivity|].
  apply IH. lia.
Qed.

Lemma array_set_firstn {A} (buf : list A) i v :
  firstn i (array_set buf i v) = firstn i buf.
Proof.
  revert i. induction buf as [|h t IH]; intros [|j]; cbn [array_set firstn];
    try reflexivity. rewrite IH. reflexivity.
Qed.

Lemma overwrite_length mem bs :
  (length bs <= length mem)%nat -> length (overwrite mem bs) = length mem.
Proof.
  intros H. unfold overwrite. rewrite length_app, length_skipn. lia.
Qed.

Lemma overwrite_firstn mem bs : firstn (length bs) (overwrite mem bs) = bs.
Proof. unfold overwrite. apply firstn_exact. reflexivity. Qed.

(** C9.  On a 239-byte name field, [SetName] stores the first
    [min (size, 238)] characters of the name unmodified and a null byte
    right after them, so the field always holds a terminator; for a name of
    300 characters, bytes 0..237 are its first 238 characters and byte 238
    is [0x00]. *)
Theorem SetName_truncates (desc : DeviceDesc) (s : list byte) :
  length (name desc) = name_capacity ->
  let field := name (SetName desc s) in
  let n := Nat.min (length s) 238 in
  length field = 239%nat /\
  firstn n field = firstn n s /\
  nth_error field n = Some Byte.x00 /\
  (length s = 300%nat ->
   firstn 238 field = firstn 238 s /\ nth_error field 238 = Some Byte.x00).
Proof.
  intros Hcap field n. unfold name_capacity in Hcap.
  assert (Hn : n = if (length s <? 239 - 1)%nat then length s else (239 - 1)%nat).
  { unfold n. destruct (Nat.ltb_spec (length s) (239 - 1)); lia. }
  assert (Hfield : field = array_set (overwrite (name desc) (firstn n s)) n Byte.x00).
  { unfold field, SetName, name_capacity. cbn [name]. rewrite <- Hn. reflexivity. }
  assert (Hlen : length (firstn n s) = n).
  { rewrite length_firstn. unfold n. lia. }
  assert (Hov : length (overwrite (name desc) (firstn n s)) = 239%nat).
  { rewrite overwrite_length; [exact Hcap|]. rewrite Hlen, Hcap. unfold n. lia. }
  assert (H1 : length field = 239%nat).
  { rewrite Hfield, array_set_length. exact Hov. }
  assert (H2 : firstn n field = firstn n s).
  { rewrite Hfield, array_set_firstn.
    rewrite <- Hlen at 1. apply overwrite_firstn. }
  assert (H3 : nth_error field n = Some Byte.x00).
  { rewrite Hfield. apply array_set_nth_error. rewrite Hov. unfold n. lia. }
  repeat split; try assumption.
  - replace 238%nat with n by (unfold n; lia). exact H2.
  - replace 238%nat with n by (unfold n; lia). exact H3.
Qed.

Lemma SetName_truncates_witness :
  let field := name (SetName zero_init (repeat Byte.x41 300)) in
  firstn 238 field = firstn 238 (repeat Byte.x41 300) /\
  nth_error field 238 = Some Byte.x00.
Proof.
  assert (Hcap : length (name (zero_init : DeviceDesc)) = name_capacity)
    by reflexivity.
  destruct (SetName_truncates zero_init (repeat Byte.x41 300) Hcap)
    as (_ & _ & _ & H).
  apply H. reflexivity.
Defined.

(** ** Decoding *)

Lemma read_devices_length per : forall s o per' s',
  read_devices s per = (o, per', s') -> length per' = length per.
Proof.
  induction per as [|d per IH]; intros s o per' s' E; cbn [read_devices] in E.
  - injection E as _ <- _. reflexivity.
  - destruct (ReadVector s d) as [[o1 d1] s1].
    destruct o1 as [[|]|].
    + destruct (read_devices s1 per) as [[o2 per2] s2] eqn:E2.
      injection E as _ <- _. cbn [length]. f_equal. eapply IH. exact E2.
    + injection E as _ <- _. reflexivity.
    + injection E as _ <- _. reflexivity.
Qed.

Lemma Read_FileHeader_exact hb rest :
  length hb = 8%nat ->
  Read (ifstream_open (hb ++ rest)) (zero_init : FileHeader)
  = (mk_FileHeader hb, mk_ifstream rest 8 false [8]).
Proof.
  intros Hlen. unfold Read, ifstream_open.
  rewrite istream_read_exact by (rewrite Hlen; reflexivity).
  unfold store. rewrite overwrite_all by (rewrite Hlen; reflexivity).
  cbn [of_bytes FileHeader_Pod]. rewrite firstn_all2 by lia. reflexivity.
Qed.

(** C8.  Whenever [ReadFileData] succeeds, [perDeviceData] has as many
    entries as [deviceDescs]; and a file made of the magic tag and a
    device-descriptor array of count zero, with the element size of the
    reader or a larger one, decodes successfully to two empty lists
    (whatever follows the array). *)
Theorem decoded_lists_aligned :
  (forall (inputFile : option (list byte)) (prior fd : FileData) (ifs : ifstream),
      ReadFileData inputFile prior = (Returned true, fd, ifs) ->
      length (perDeviceData fd) = length (deviceDescs fd)) /\
  (forall (es : Z) (rest : list byte) (prior : FileData),
      Z.of_nat (sizeof DeviceDesc) <= es < 2 ^ 31 ->
      exists ifs,
        ReadFileData (Some (nvtrc01Magic ++ to_bytes (mk_ArrayHeader 0 es) ++ rest))
                     prior
        = (Returned true, mk_FileData [] [], ifs)).
Proof.
  split.
  - intros inputFile prior fd ifs E. unfold ReadFileData in E.
    destruct inputFile as [file|]; [|discriminate].
    destruct (Read (ifstream_open file) zero_init) as [header ifs1].
    destruct (is_fail ifs1); [discriminate|].
    destruct (negb (bytes_eqb (magic header) nvtrc01Magic)); [discriminate|].
    destruct (ReadVector ifs1 (deviceDescs FileData_empty)) as [[o descs] ifs2].
    destruct o as [[|]|]; try discriminate.
    cbn [deviceDescs perDeviceData] in E.
    destruct (read_devices ifs2 _) as [[o' per'] ifs3] eqn:E3.
    injection E as _ <- _. cbn [deviceDescs perDeviceData].
    apply read_devices_length in E3. rewrite E3.
    unfold resize. rewrite length_app, repeat_length, length_firstn.
    cbn [FileData_empty perDeviceData length]. lia.
  - intros es rest prior Hes. unfold ReadFileData.
    rewrite Read_FileHeader_exact by reflexivity.
    cbn [is_fail magic].
    replace (bytes_eqb nvtrc01Magic nvtrc01Magic) with true by reflexivity.
    cbn [negb FileData_empty deviceDescs perDeviceData].
    assert (Hv : exists log',
               ReadVector (mk_ifstream (to_bytes (mk_ArrayHeader 0 es) ++ rest)
                                       8 false [8]) (@nil DeviceDesc)
               = (Returned true, [], mk_ifstream rest (8 + 8 + 0) false log')).
    { destruct (Z.eq_dec es (Z.of_nat (sizeof DeviceDesc))) as [->|Hne].
      - eexists. apply (ReadVector_written (@nil DeviceDesc) rest 8 [8]).
        + constructor.
        + unfold byte_count. cbn [length]. lia.
      - apply (ReadVector_larger_contiguous (@nil DeviceDesc) es rest 8 [8]).
        + constructor.
        + cbn [length]. lia.
        + left. lia. }
    destruct Hv as [log' Hv]. rewrite Hv.
    cbn [length resize firstn repeat app Nat.sub read_devices].
    eexists. reflexivity.
Qed.

Lemma decoded_lists_aligned_witness :
  length (perDeviceData (mk_FileData [zero_init] [[]]))
  = length (deviceDescs (mk_FileData [zero_init] [[]])) /\
  exists ifs,
    ReadFileData (Some (nvtrc01Magic ++ to_bytes (mk_ArrayHeader 0 288) ++ []))
                 FileData_empty
    = (Returned true, mk_FileData [] [], ifs).
Proof.
  split; [|apply (proj2 decoded_lists_aligned 288 [] FileData_empty); cbn; lia].
  apply (proj1 decoded_lists_aligned
           (Some (snd (WriteFileData true (mk_FileData [zero_init] [[]]))))
           FileData_empty (mk_FileData [zero_init] [[]])
           (mk_ifstream [] 312 false [8; 8; 288; 8; 0])).
  vm_compute. reflexivity.
Defined.

(** C6.  A file whose first eight bytes are not the magic tag (a shorter
    file included) makes [ReadFileData] return [false] whatever follows;
    the out-parameter is empty and the only read made on the stream is the
    one of the eight header bytes. *)
Theorem bad_magic_rejected (file : list byte) (prior : FileData) :
  firstn 8 file <> nvtrc01Magic ->
  exists ifs,
    ReadFileData (Some file) prior = (Returned false, FileData_empty, ifs) /\
    is_reads ifs = [8].
Proof.
  intros Hne.
  destruct (Nat.le_gt_cases 8 (length file)) as [Hlen|Hlen].
  - remember (firstn 8 file) as hb eqn:Ehb.
    remember (skipn 8 file) as rest eqn:Erest.
    assert (Hhb : length hb = 8%nat) by (subst hb; rewrite length_firstn; lia).
    assert (E : file = hb ++ rest) by (subst; symmetry; apply firstn_skipn).
    clear Ehb Erest Hlen. subst file. unfold ReadFileData.
    rewrite Read_FileHeader_exact by exact Hhb.
    cbn [is_fail magic].
    destruct (bytes_eqb hb nvtrc01Magic) eqn:Eb.
    + apply bytes_eqb_eq in Eb. contradiction.
    + cbn [negb]. eexists. split; reflexivity.
  - unfold ReadFileData, Read, ifstream_open.
    rewrite istream_read_short by (cbn [sizeof FileHeader_Pod]; lia).
    cbn [is_fail]. eexists. split; reflexivity.
Qed.

Lemma bad_magic_rejected_witness :
  exists ifs,
    ReadFileData (Some (repeat Byte.x00 8 ++ encode_vector (@nil DeviceDesc)))
                 FileData_empty
    = (Returned false, FileData_empty, ifs) /\
    is_reads ifs = [8].
Proof.
  apply (bad_magic_rejected
           (repeat Byte.x00 8 ++ encode_vector (@nil DeviceDesc)) FileData_empty).
  vm_compute. discriminate.
Defined.

Lemma Read_FileHeader_cases file :
  (8 <= length file)%nat /\
  Read (ifstream_open file) (zero_init : FileHeader)
  = (mk_FileHeader (firstn 8 file), mk_ifstream (skipn 8 file) 8 false [8])
  \/
  (length file < 8)%nat /\
  exists header ifs,
    Read (ifstream_open file) (zero_init : FileHeader) = (header, ifs) /\
    is_fail ifs = true.
Proof.
  destruct (Nat.le_gt_cases 8 (length file)) as [Hlen|Hlen]; [left|right];
    (split; [exact Hlen|]).
  - rewrite <- (firstn_skipn 8 file) at 1.
    apply Read_FileHeader_exact. rewrite length_firstn. lia.
  - unfold Read, ifstream_open.
    rewrite istream_read_short by (cbn [sizeof FileHeader_Pod]; lia).
    eexists _, _. split; reflexivity.
Qed.

Lemma wf_sample_in : wf_RecordGpuCtxSw sample_in.
Proof. unfold wf_RecordGpuCtxSw, in_unsigned, in_signed. cbn. lia. Qed.

Lemma wf_sample_out : wf_RecordGpuCtxSw sample_out.
Proof. unfold wf_RecordGpuCtxSw, in_unsigned, in_signed. cbn. lia. Qed.

(** ** The round trip *)

(** The round trip, as far as the code has it.  For a [FileData] made of
    valid objects whose [perDeviceData] has one entry per device
    descriptor and whose arrays each take fewer than [2 ^ 31] bytes,
    [WriteFileData] succeeds and [ReadFileData] on the written bytes
    succeeds and yields the same [FileData], whatever the names hold. *)
Theorem WriteFileData_ReadFileData_roundtrip (fd prior : FileData) :
  wf_FileData fd ->
  length (perDeviceData fd) = length (deviceDescs fd) ->
  sizes_fit fd ->
  fst (WriteFileData true fd) = true /\
  exists ifs,
    ReadFileData (Some (snd (WriteFileData true fd))) prior = (Returned true, fd, ifs).
Proof.
  intros Hwf Hlen Hfit. apply ReadFileData_WriteFileData; assumption.
Qed.

Lemma WriteFileData_ReadFileData_roundtrip_witness :
  fst (WriteFileData true sample_capture) = true /\
  exists ifs,
    ReadFileData (Some (snd (WriteFileData true sample_capture))) FileData_empty
    = (Returned true, sample_capture, ifs).
Proof.
  apply (WriteFileData_ReadFileData_roundtrip sample_capture FileData_empty).
  - split; repeat constructor;
      unfold in_unsigned, in_signed; cbn; lia.
  - reflexivity.
  - split; repeat constructor; unfold byte_count; cbn; lia.
Defined.

(** ** Arrays of [2 ^ 31] bytes and more *)

Lemma wrap_s_32_above z : 2 ^ 31 <= z < 2 ^ 32 -> wrap_s 32 z = z - 2 ^ 32.
Proof.
  intros Hz. unfold wrap_s. change (2 ^ (32 - 1)) with (2 ^ 31).
  replace (z + 2 ^ 31) with (z - 2 ^ 31 + 1 * 2 ^ 32) by lia.
  rewrite Z_mod_plus_full, Z.mod_small by lia. lia.
Qed.

(** The byte count that [WriteVector] passes to [write] is negative for
    an array of [2 ^ 31] to [2 ^ 32 - 1] bytes: the header is written, the
    elements are not, and the stream goes bad. *)
Lemma WriteVector_negative_product {T} `{PodOk T} out (v : list T) :
  Z.of_nat (length v) < 2 ^ 31 -> 2 ^ 31 <= byte_count v < 2 ^ 32 ->
  WriteVector (mk_ofstream out false) v
  = mk_ofstream
      (out ++ to_bytes (mk_ArrayHeader (Z.of_nat (length v)) (Z.of_nat (sizeof T))))
      true.
Proof.
  intros Hlen Hbig. pose proof sizeof_small as Hsz.
  unfold WriteVector, Write.
  rewrite (ostream_write_exact out) by reflexivity.
  cbn [count elementSize].
  rewrite !(wrap_s_small 32 (Z.of_nat _)) by (unfold in_signed; lia).
  fold (byte_count v). rewrite (wrap_s_32_above _ Hbig).
  unfold ostream_write. cbn [os_bad os_out].
  destruct (Z.ltb_spec (byte_count v - 2 ^ 32) 0) as [_|Hge]; [reflexivity | lia].
Qed.

(** [ReadVector] on the header of such an array: the byte count of the
    bulk read is negative as well, nothing is read and the call fails with
    the vector resized. *)
Lemma ReadVector_negative_product {T} `{PodOk T} (n : nat) rest gpos log :
  Z.of_nat n < 2 ^ 31 -> 2 ^ 31 <= Z.of_nat n * Z.of_nat (sizeof T) < 2 ^ 32 ->
  ReadVector
    (mk_ifstream
       (to_bytes (mk_ArrayHeader (Z.of_nat n) (Z.of_nat (sizeof T))) ++ rest)
       gpos false log) (@nil T)
  = (Returned false, repeat zero_init n,
     mk_ifstream rest (gpos + 8) true
       (log ++ [8] ++ [Z.of_nat n * Z.of_nat (sizeof T) - 2 ^ 32])).
Proof.
  intros Hn Hbig. pose proof sizeof_small as Hsz.
  unfold ReadVector, Read.
  rewrite istream_read_exact by reflexivity.
  unfold store. rewrite overwrite_all by reflexivity.
  rewrite of_to_bytes
    by (split; unfold in_signed; cbn [count elementSize]; lia).
  cbn [is_fail count elementSize].
  destruct (Z.ltb_spec (Z.of_nat n) 0) as [Hneg|_]; [lia|].
  assert (Hu : wrap_u 64 (Z.of_nat (sizeof T)) = Z.of_nat (sizeof T)).
  { unfold wrap_u. apply Z.mod_small. lia. }
  rewrite Hu, Z.eqb_refl. rewrite (wrap_s_32_above _ Hbig).
  unfold istream_read. cbn [is_fail is_reads is_rest is_gpos].
  destruct (Z.ltb_spec (Z.of_nat n * Z.of_nat (sizeof T) - 2 ^ 32) 0) as [_|Hge];
    [|lia].
  cbn [is_fail negb].
  unfold resize. rewrite firstn_nil, Nat2Z.id, Nat.sub_0_r.
  cbn [app length]. rewrite repeat_length.
  unfold overwrite. cbn [length skipn app].
  rewrite <- (app_nil_r (vector_bytes _)).
  rewrite <- (repeat_length (zero_init : T) n) at 1.
  rewrite vector_of_bytes_vector_bytes by apply Forall_wf_repeat_zero.
  rewrite <- app_assoc. reflexivity.
Qed.

(** [WriteFileData] on one device whose records take [2 ^ 31] bytes or
    more (and fewer than [2 ^ 32]): it returns [false], and the file ends
    with the header of the record array. *)
Lemma WriteFileData_overflow (desc : DeviceDesc) (records : list RecordGpuCtxSw) :
  wf_DeviceDesc desc ->
  Z.of_nat (length records) < 2 ^ 31 ->
  2 ^ 31 <= byte_count records < 2 ^ 32 ->
  WriteFileData true (mk_FileData [desc] [records])
  = (false,
     nvtrc01Magic ++ encode_vector [desc]
     ++ to_bytes (mk_ArrayHeader (Z.of_nat (length records)) 24)).
Proof.
  intros Hd Hlen Hbig. unfold WriteFileData. cbn [negb].
  unfold Write. rewrite !ostream_write_exact by reflexivity.
  cbn [to_bytes FileHeader_Pod magic app deviceDescs perDeviceData].
  rewrite (WriteVector_out' _ [desc])
    by (first [constructor; [exact Hd | constructor] | unfold byte_count; cbn; lia]).
  cbn [fold_left].
  rewrite WriteVector_negative_product by assumption.
  cbn [os_bad os_out negb]. rewrite <- app_assoc. reflexivity.
Qed.

(** [ReadFileData] on what that call leaves in the file. *)
Lemma ReadFileData_overflow (desc : DeviceDesc) (n : nat) (prior : FileData) :
  wf_DeviceDesc desc ->
  Z.of_nat n < 2 ^ 31 -> 2 ^ 31 <= Z.of_nat n * 24 < 2 ^ 32 ->
  exists ifs,
    ReadFileData
      (Some (nvtrc01Magic ++ encode_vector [desc]
             ++ to_bytes (mk_ArrayHeader (Z.of_nat n) 24))) prior
    = (Returned false, mk_FileData [desc] [repeat zero_init n], ifs).
Proof.
  intros Hd Hn Hbig.
  unfold ReadFileData, ifstream_open, Read.
  rewrite istream_read_exact by reflexivity.
  cbn [is_fail]. unfold store. rewrite overwrite_all by reflexivity.
  cbn [of_bytes FileHeader_Pod magic].
  replace (bytes_eqb (firstn 8 nvtrc01Magic) nvtrc01Magic) with true by reflexivity.
  cbn [negb deviceDescs perDeviceData FileData_empty].
  unfold encode_vector. rewrite <- !app_assoc.
  rewrite (ReadVector_written [desc])
    by (first [constructor; [exact Hd | constructor] | unfold byte_count; cbn; lia]).
  unfold resize. rewrite firstn_nil. cbn [app length Nat.sub repeat read_devices].
  rewrite <- (app_nil_r (to_bytes (mk_ArrayHeader (Z.of_nat n) 24))).
  change (mk_ArrayHeader (Z.of_nat n) 24)
    with (mk_ArrayHeader (Z.of_nat n) (Z.of_nat (sizeof RecordGpuCtxSw))).
  assert (Hbig' : 2 ^ 31 <= Z.of_nat n * Z.of_nat (sizeof RecordGpuCtxSw) < 2 ^ 32)
    by exact Hbig.
  rewrite (ReadVector_negative_product n [] _ _ Hn Hbig').
  eexists. reflexivity.
Qed.

Lemma overflow_count_value : Z.of_nat overflow_count = 89478486.
Proof. unfold overflow_count. apply Z2Nat.id. lia. Qed.

(** C3 at a capture of one device with 89478486 records.  Its name fits
    the buffer, its counts fit a 32-bit signed integer and it has one
    record list per device, but its records take [2 ^ 31 + 16] bytes:
    [WriteVector] computes that size as an [int] product, which is
    [- 2147483632], [write] fails on the negative count, and
    [WriteFileData] returns [false] with a file that ends after the
    header of the record array.  [ReadFileData] does not succeed on that
    file.  Below [2 ^ 31] bytes the round trip holds
    ([WriteFileData_ReadFileData_roundtrip]). *)
Theorem WriteFileData_int_overflow :
  Z.of_nat overflow_count = 89478486 /\
  wf_FileData overflow_capture /\
  length (perDeviceData overflow_capture) = length (deviceDescs overflow_capture) /\
  Forall name_fits (deviceDescs overflow_capture) /\
  counts_fit overflow_capture /\
  wrap_s 32 (89478486 * 24) = - 2147483632 /\
  WriteFileData true overflow_capture
  = (false,
     nvtrc01Magic ++ encode_vector [zero_init : DeviceDesc]
     ++ to_bytes (mk_ArrayHeader 89478486 24)) /\
  fst (fst (ReadFileData (Some (snd (WriteFileData true overflow_capture)))
                         FileData_empty))
  = Returned false.
Proof.
  pose proof overflow_count_value as Hc.
  assert (Hlen : Z.of_nat (length (repeat sample_in overflow_count)) < 2 ^ 31)
    by (rewrite repeat_length, Hc; lia).
  assert (Hbig : 2 ^ 31 <= byte_count (repeat sample_in overflow_count) < 2 ^ 32).
  { unfold byte_count. rewrite repeat_length, Hc.
    change (Z.of_nat (sizeof RecordGpuCtxSw)) with 24. lia. }
  assert (Hw : WriteFileData true overflow_capture
               = (false,
                  nvtrc01Magic ++ encode_vector [zero_init : DeviceDesc]
                  ++ to_bytes (mk_ArrayHeader 89478486 24))).
  { unfold overflow_capture.
    rewrite (WriteFileData_overflow zero_init (repeat sample_in overflow_count)
               DeviceDesc_wf_zero_init Hlen Hbig).
    rewrite repeat_length, Hc. reflexivity. }
  split; [exact Hc|]. split; [|split; [|split; [|split; [|split; [|split]]]]].
  - split.
    + constructor; [apply DeviceDesc_wf_zero_init | constructor].
    + constructor; [|constructor].
      apply Forall_forall. intros r Hr. apply repeat_spec in Hr. subst r.
      exact wf_sample_in.
  - reflexivity.
  - constructor; [|constructor]. exists []. vm_compute. reflexivity.
  - split.
    + change (Z.of_nat (length (deviceDescs overflow_capture))) with 1. lia.
    + constructor; [exact Hlen | constructor].
  - vm_compute. reflexivity.
  - exact Hw.
  - rewrite Hw. cbn [snd]. rewrite <- Hc.
    destruct (ReadFileData_overflow zero_init overflow_count FileData_empty
                DeviceDesc_wf_zero_init) as [ifs E]; [rewrite Hc; lia ..|].
    rewrite E. reflexivity.
Qed.

(** ** Failed decodes *)

(** Where the loop over the record arrays stops: the arrays before the
    failing one were read in full, the failing one left its vector as
    [ReadVector] had it at the failure, and the vectors after it are still
    empty. *)
Lemma read_devices_failed (n : nat) : forall ifs per ifs',
  read_devices ifs (repeat [] n) = (Returned false, per, ifs') ->
  exists ifs3 done partial,
    read_devices ifs (repeat [] (length done)) = (Returned true, done, ifs3) /\
    ReadVector ifs3 (@nil RecordGpuCtxSw) = (Returned false, partial, ifs') /\
    (length done < n)%nat /\
    per = done ++ partial :: repeat [] (n - S (length done)).
Proof.
  induction n as [|n IH]; intros ifs per ifs' E; [discriminate|].
  cbn [repeat read_devices] in E.
  destruct (ReadVector ifs (@nil RecordGpuCtxSw)) as [[o d1] ifs1] eqn:Ev.
  destruct o as [[|]|]; try discriminate.
  - destruct (read_devices ifs1 (repeat [] n)) as [[o2 rest'] ifs2] eqn:E2.
    injection E as -> <- <-.
    destruct (IH _ _ _ E2) as (ifs3 & done & partial & Hd & Hp & Hlt & Hper).
    exists ifs3, (d1 :: done), partial.
    cbn [length repeat read_devices]. rewrite Ev, Hd.
    split; [reflexivity|]. split; [exact Hp|]. split; [lia|].
    rewrite Hper. reflexivity.
  - injection E as <- <-.
    exists ifs, [], d1. cbn [length repeat read_devices app].
    split; [reflexivity|]. split; [exact Ev|]. split; [lia|].
    cbn [Nat.sub]. rewrite ?Nat.sub_0_r. reflexivity.
Qed.

(** C4, as the code has it.  When [ReadFileData] returns [false], the
    out-parameter holds nothing of its value before the call.  It is empty
    when the file could not be opened or does not start with the magic
    tag.  Once the tag has matched it holds what was decoded up to the
    failure: [deviceDescs] is the vector as the read of the descriptor
    array left it; if that read failed there is no record list; otherwise
    there is one record list per descriptor, namely the lists of the
    record arrays that were read in full, then the list as the failing
    read left it, then empty lists.  [read_nvtrc_file] then passes no
    event to the callback and leaves [trace_info] as it was. *)
Theorem failed_decode_out_parameter
    (inputFile : option (list byte)) (prior fd : FileData) (ifs : ifstream) :
  ReadFileData inputFile prior = (Returned false, fd, ifs) ->
  (forall prior', ReadFileData inputFile prior' = (Returned false, fd, ifs)) /\
  ((fd = FileData_empty /\
    forall file, inputFile = Some file -> firstn 8 file <> nvtrc01Magic)
   \/
   exists file,
     inputFile = Some file /\ firstn 8 file = nvtrc01Magic /\
     ((ReadVector (mk_ifstream (skipn 8 file) 8 false [8]) (@nil DeviceDesc)
       = (Returned false, deviceDescs fd, ifs) /\
       perDeviceData fd = [])
      \/
      exists ifs2 ifs3 done partial,
        ReadVector (mk_ifstream (skipn 8 file) 8 false [8]) (@nil DeviceDesc)
        = (Returned true, deviceDescs fd, ifs2) /\
        read_devices ifs2 (repeat [] (length done)) = (Returned true, done, ifs3) /\
        ReadVector ifs3 (@nil RecordGpuCtxSw) = (Returned false, partial, ifs) /\
        (length done < length (deviceDescs fd))%nat /\
        perDeviceData fd
        = done ++ partial :: repeat [] (length (deviceDescs fd) - S (length done)))) /\
  (forall k filename trace_info,
      GpuvisNvtrc.read_nvtrc_file k inputFile filename trace_info
      = Some (Returned false, trace_info, [])).
Proof.
  intros E. split; [intros prior'; exact E|]. split.
  - unfold ReadFileData in E. destruct inputFile as [file|].
    + destruct (Read_FileHeader_cases file)
        as [[Hlen ER] | [Hlen (h & s & ER & Hf)]]; rewrite ER in E.
      * cbn [is_fail magic] in E.
        destruct (bytes_eqb (firstn 8 file) nvtrc01Magic) eqn:Eb; cbn [negb] in E.
        -- apply bytes_eqb_eq in Eb. right. exists file.
           split; [reflexivity|]. split; [exact Eb|].
           cbn [deviceDescs perDeviceData FileData_empty] in E.
           destruct (ReadVector _ (@nil DeviceDesc)) as [[o descs] ifs2] eqn:Ev.
           destruct o as [[|]|]; try discriminate.
           ++ cbn [deviceDescs perDeviceData] in E.
              unfold resize in E. rewrite firstn_nil in E.
              cbn [app length] in E. rewrite Nat.sub_0_r in E.
              destruct (read_devices ifs2 _) as [[o' per'] ifs3] eqn:E3.
              injection E as -> <- <-. cbn [deviceDescs perDeviceData].
              destruct (read_devices_failed _ _ _ _ E3)
                as (ifs3' & done & partial & Hd & Hp & Hlt & Hper).
              right. exists ifs2, ifs3', done, partial.
              repeat (split; [assumption || reflexivity|]). exact Hper.
           ++ injection E as <- <-. left. cbn [deviceDescs perDeviceData].
              split; reflexivity.
        -- injection E as <- _. left. split; [reflexivity|].
           intros file' [= <-] Hm. rewrite Hm in Eb. discriminate Eb.
      * rewrite Hf in E. injection E as <- _. left. split; [reflexivity|].
        intros file' [= <-] Hm.
        apply (f_equal (@length byte)) in Hm. rewrite length_firstn in Hm.
        cbn [nvtrc01Magic length] in Hm. lia.
    + injection E as <- _. left. split; [reflexivity | discriminate].
  - intros k filename trace_info. unfold GpuvisNvtrc.read_nvtrc_file.
    change (ReadFileData inputFile FileData_empty)
      with (ReadFileData inputFile prior).
    rewrite E. reflexivity.
Qed.

(** On the file cut inside the second record of its only device the
    descriptor array is read in full, no record array is, and the failing
    read leaves two records, the second with ten bytes of the file. *)
Lemma failed_decode_out_parameter_witness :
  (exists ifs2 ifs3 ifs,
      ReadVector (mk_ifstream (skipn 8 truncated_file) 8 false [8]) (@nil DeviceDesc)
      = (Returned true, [zero_init], ifs2) /\
      read_devices ifs2 (repeat [] 0) = (Returned true, [], ifs3) /\
      ReadVector ifs3 (@nil RecordGpuCtxSw)
      = (Returned false, [sample_in; mk_RecordGpuCtxSw 1 2 1234 1000 0], ifs)) /\
  GpuvisNvtrc.read_nvtrc_file (GpuvisNvtrc.mk_host_constants (-1) 1)
    (Some truncated_file) "capture.nvtrc"
    (GpuvisNvtrc.mk_trace_info_t "" false 8 "" 0)
  = Some (Returned false, GpuvisNvtrc.mk_trace_info_t "" false 8 "" 0, []).
Proof.
  destruct (failed_decode_out_parameter (Some truncated_file) FileData_empty
              (mk_FileData [zero_init] [[sample_in; mk_RecordGpuCtxSw 1 2 1234 1000 0]])
              (snd (ReadFileData (Some truncated_file) FileData_empty)))
    as (_ & Hfd & Hcaller); [vm_compute; reflexivity|].
  split; [|apply Hcaller].
  destruct Hfd as [[Hempty _] | (file & [= <-] & _ & Hcase)]; [discriminate Hempty|].
  cbn [deviceDescs perDeviceData] in Hcase.
  destruct Hcase as [[_ Hnil] | (ifs2 & ifs3 & done & partial & Hv & Hd & Hp & _ & Hper)];
    [discriminate Hnil|].
  destruct done as [|d0 done].
  - cbn [app] in Hper. injection Hper as <-.
    exists ifs2, ifs3, (snd (ReadFileData (Some truncated_file) FileData_empty)).
    split; [exact Hv|]. split; [exact Hd | exact Hp].
  - destruct done; discriminate Hper.
Defined.

(** C4 fails as stated: on a file cut inside the second record of its only
    device, [ReadFileData] returns [false] and leaves in the out-parameter
    the device descriptor, the first record, and a second record of which
    only the first ten bytes come from the file. *)
Lemma failed_decode_counterexample :
  fst (ReadFileData (Some truncated_file) FileData_empty)
  = (Returned false,
     mk_FileData [zero_init] [[sample_in; mk_RecordGpuCtxSw 1 2 1234 1000 0]]) /\
  mk_FileData [zero_init] [[sample_in; mk_RecordGpuCtxSw 1 2 1234 1000 0]]
  <> FileData_empty.
Proof. split; [vm_compute; reflexivity | discriminate]. Qed.

(** ** Element sizes *)

(** C5 at a negative element size: [-1] is smaller than the 24 bytes of a
    record, yet the comparison made in [size_t] sends the read into the
    larger-element branch, and the call succeeds with the 24 bytes that
    follow the header taken as a record. *)
Lemma ReadVector_negative_elementSize :
  elementSize (of_bytes (firstn 8 negative_size_array)) = -1 /\
  ReadVector (ifstream_open negative_size_array) (@nil RecordGpuCtxSw)
  = (Returned true, [sample_in], mk_ifstream [] 32 false [8; 24]).
Proof. split; vm_compute; reflexivity. Qed.

(** C1 at an array of two records of 32 bytes each on disk: the code reads
    24 bytes for each record back to back, so the second record is made of
    the 8 trailing bytes of the first and the first 16 bytes of the second,
    and the stream ends 16 bytes short of the end of the array; reading
    with the on-disk stride recovers both records. *)
Lemma ReadVector_newer_not_skipped :
  ReadVector (ifstream_open newer_array) (@nil RecordGpuCtxSw)
  = (Returned true,
     [sample_in; mk_RecordGpuCtxSw 65535 65535 4294967295 5299989774337 1000],
     mk_ifstream (skipn 56 newer_array) 56 false [8; 24; 24]) /\
  length (skipn 56 newer_array) = 16%nat /\
  Spec.read_each_strided (mk_ifstream (skipn 8 newer_array) 8 false [8])
    (resize zero_init [] 2) 32
  = ([sample_in; sample_out], mk_ifstream [] 72 false [8; 24; 24]).
Proof. repeat split; vm_compute; reflexivity. Qed.

(** ** The adapter *)

Lemma event_name_label_nth r :
  wf_RecordGpuCtxSw r ->
  GpuvisNvtrc.event_name_label r
  = nth_error GpuvisNvtrc.namehack (Z.to_nat (type r)).
Proof.
  intros (_ & Ht & _). unfold in_unsigned in Ht.
  unfold GpuvisNvtrc.event_name_label, GpuvisNvtrc.array_get.
  rewrite wrap_s_small by (unfold in_signed; lia).
  destruct (Z.ltb_spec (type r) 0); [lia | reflexivity].
Qed.

(** Records whose types are all below 3 are all adapted. *)
Lemma adapt_records_in_bounds k records :
  Forall wf_RecordGpuCtxSw records ->
  Forall (fun r => type r < 3) records ->
  exists events,
    GpuvisNvtrc.adapt_records k records = Some events /\
    length events = length records.
Proof.
  induction 1 as [|r records Hr _ IH]; intros Ht.
  - exists []. split; reflexivity.
  - inversion Ht as [|? ? Hlt Hts]; subst.
    destruct (IH Hts) as (events & E & Hlen).
    cbn [GpuvisNvtrc.adapt_records]. unfold GpuvisNvtrc.adapt_record.
    rewrite (event_name_label_nth r Hr), E.
    destruct Hr as (_ & Hty & _). unfold in_unsigned in Hty.
    assert (Hc : type r = 0 \/ type r = 1 \/ type r = 2) by lia.
    destruct Hc as [-> | [-> | ->]]; cbn [Z.to_nat Pos.to_nat Pos.iter_op
      GpuvisNvtrc.namehack nth_error]; eexists; (split; [reflexivity|]);
      cbn [length]; rewrite Hlen; reflexivity.
Qed.

(** A file holding one device and one arbitrary record decodes to it. *)
Lemma ReadFileData_accepts_record r :
  wf_RecordGpuCtxSw r ->
  exists ifs,
    ReadFileData (Some (snd (WriteFileData true (mk_FileData [zero_init] [[r]]))))
                 FileData_empty
    = (Returned true, mk_FileData [zero_init] [[r]], ifs).
Proof.
  intros Hr.
  apply (ReadFileData_WriteFileData (mk_FileData [zero_init] [[r]]) FileData_empty).
  - split; cbn [deviceDescs perDeviceData].
    + constructor; [apply DeviceDesc_wf_zero_init | constructor].
    + constructor; [constructor; [exact Hr | constructor] | constructor].
  - split; cbn [deviceDescs perDeviceData]; repeat constructor;
      unfold byte_count; cbn; lia.
  - reflexivity.
Qed.

(** C10.  The label of a record is the element of the three-element array
    [namehack] at index [int(record.type)].  The index is in bounds, and
    the record is adapted, exactly when the type is 0, 1 or 2; from 3 on it
    is out of bounds.  [ReadFileData] accepts a record whatever its type
    holds. *)
Theorem namehack_index_bounds (k : GpuvisNvtrc.host_constants) (r : RecordGpuCtxSw) :
  wf_RecordGpuCtxSw r ->
  length GpuvisNvtrc.namehack = 3%nat /\
  GpuvisNvtrc.event_name_label r
  = nth_error GpuvisNvtrc.namehack (Z.to_nat (type r)) /\
  (type r = 0 \/ type r = 1 \/ type r = 2 ->
   exists e, GpuvisNvtrc.adapt_record k r = Some e) /\
  (3 <= type r ->
   GpuvisNvtrc.event_name_label r = None /\ GpuvisNvtrc.adapt_record k r = None) /\
  (exists file ifs,
      ReadFileData (Some file) FileData_empty
      = (Returned true, mk_FileData [zero_init] [[r]], ifs)).
Proof.
  intros Hr. pose proof (event_name_label_nth r Hr) as Hl.
  split; [reflexivity|]. split; [exact Hl|]. split; [|split].
  - intros Ht. unfold GpuvisNvtrc.adapt_record. rewrite Hl.
    destruct Ht as [-> | [-> | ->]]; eexists; reflexivity.
  - intros Ht.
    assert (Hn : GpuvisNvtrc.event_name_label r = None).
    { rewrite Hl. apply nth_error_None. cbn [GpuvisNvtrc.namehack length]. lia. }
    split; [exact Hn|]. unfold GpuvisNvtrc.adapt_record. rewrite Hn. reflexivity.
  - destruct (ReadFileData_accepts_record r Hr) as [ifs E]. eexists _, ifs. exact E.
Qed.

Lemma namehack_index_bounds_witness :
  GpuvisNvtrc.adapt_record (GpuvisNvtrc.mk_host_constants (-1) 1)
    (mk_RecordGpuCtxSw 1 3 1234 0 77) = None.
Proof.
  assert (Hwf : wf_RecordGpuCtxSw (mk_RecordGpuCtxSw 1 3 1234 0 77))
    by (unfold wf_RecordGpuCtxSw, in_unsigned, in_signed; cbn; lia).
  destruct (namehack_index_bounds (GpuvisNvtrc.mk_host_constants (-1) 1)
              (mk_RecordGpuCtxSw 1 3 1234 0 77) Hwf) as (_ & _ & _ & H & _).
  apply H. cbn. lia.
Defined.

(** * Further properties of the codec *)

(** ** [ReadVector] on damaged or foreign arrays *)

Lemma vector_of_bytes_prefix {T} `{Pod T} n : forall (a b : list byte),
  (n * sizeof T <= length a)%nat ->
  vector_of_bytes n (a ++ b) = vector_of_bytes n a.
Proof.
  induction n as [|n IH]; intros a b Hlen; [reflexivity|].
  cbn [vector_of_bytes].
  rewrite firstn_app, skipn_app.
  replace (sizeof T - length a)%nat with 0%nat by lia.
  cbn [firstn skipn]. rewrite app_nil_r. f_equal.
  apply IH. rewrite length_skipn. lia.
Qed.

Lemma vector_bytes_repeat_length {T} `{PodOk T} n :
  length (vector_bytes (repeat (zero_init : T) n)) = (n * sizeof T)%nat.
Proof.
  rewrite vector_bytes_length by apply Forall_wf_repeat_zero.
  rewrite repeat_length. reflexivity.
Qed.

Lemma store_zero_init {T} `{PodOk T} (bs : list byte) :
  length bs = sizeof T -> store (zero_init : T) bs = of_bytes bs.
Proof.
  intros Hlen. unfold store.
  rewrite overwrite_all by (rewrite to_bytes_length by apply wf_zero_init; lia).
  reflexivity.
Qed.

Lemma istream_read_enough mem gpos log (n : nat) :
  (n <= length mem)%nat ->
  istream_read (mk_ifstream mem gpos false log) (Z.of_nat n)
  = (firstn n mem, mk_ifstream (skipn n mem) (gpos + Z.of_nat n) false
                               (log ++ [Z.of_nat n])).
Proof.
  intros Hn. unfold istream_read. cbn [is_fail is_rest is_gpos is_reads].
  destruct (Z.ltb_spec (Z.of_nat n) 0); [lia|].
  destruct (Z.leb_spec (Z.of_nat n) (Z.of_nat (length mem))); [|lia].
  rewrite Nat2Z.id. reflexivity.
Qed.

Lemma read_each_zero_init {T} `{PodOk T} n : forall (mem : list byte) gpos log,
  (n * sizeof T <= length mem)%nat ->
  exists log',
    read_each (mk_ifstream mem gpos false log) (repeat (zero_init : T) n)
    = (vector_of_bytes n mem,
       mk_ifstream (skipn (n * sizeof T) mem)
                   (gpos + Z.of_nat (n * sizeof T)) false log').
Proof.
  induction n as [|n IH]; intros mem gpos log Hlen.
  - exists log. cbn. rewrite Z.add_0_r. reflexivity.
  - cbn [repeat read_each vector_of_bytes]. unfold Read.
    rewrite istream_read_enough by lia.
    rewrite store_zero_init by (rewrite length_firstn; lia).
    destruct (IH (skipn (sizeof T) mem) (gpos + Z.of_nat (sizeof T))
                 (log ++ [Z.of_nat (sizeof T)])) as [log' E];
      [rewrite length_skipn; lia|].
    rewrite E. exists log'. rewrite skipn_skipn.
    replace (n * sizeof T + sizeof T)%nat with (S n * sizeof T)%nat by lia.
    f_equal. f_equal. lia.
Qed.

(** The on-disk element size is only compared with [sizeof(T)]: for every
    element size that is not smaller (and for every negative one),
    [ReadVector] decodes the [count * sizeof(T)] bytes that follow the header
    as [count] consecutive records and stops right after them, exactly as it
    does when the element size is [sizeof(T)]. *)
Theorem ReadVector_elementSize_ignored {T} `{PodOk T}
    (n : nat) (es : Z) (mem : list byte) (gpos : Z) (log : list Z) :
  Z.of_nat n * Z.of_nat (sizeof T) < 2 ^ 31 ->
  (Z.of_nat (sizeof T) <= es < 2 ^ 31 \/ - 2 ^ 31 <= es < 0) ->
  (n * sizeof T <= length mem)%nat ->
  exists log',
    ReadVector
      (mk_ifstream (to_bytes (mk_ArrayHeader (Z.of_nat n) es) ++ mem) gpos false log)
      (@nil T)
    = (Returned true, vector_of_bytes n mem,
       mk_ifstream (skipn (n * sizeof T) mem)
                   (gpos + 8 + Z.of_nat (n * sizeof T)) false log').
Proof.
  intros Hsmall Hes Hlen.
  pose proof (sizeof_small (T:=T)) as Hsz. pose proof (sizeof_pos (T:=T)) as Hpos.
  assert (Hn : Z.of_nat n < 2 ^ 31) by nia.
  unfold ReadVector, Read.
  rewrite istream_read_exact by reflexivity.
  unfold store. rewrite overwrite_all by reflexivity.
  rewrite ArrayHeader_of_to_bytes
    by (split; unfold in_signed; cbn [count elementSize]; lia).
  cbn [is_fail count elementSize].
  destruct (Z.ltb_spec (Z.of_nat n) 0); [lia|].
  unfold resize. rewrite firstn_nil, Nat2Z.id. cbn [app length].
  rewrite Nat.sub_0_r.
  destruct (Z.eq_dec es (Z.of_nat (sizeof T))) as [->|Hne].
  - assert (Hu : wrap_u 64 (Z.of_nat (sizeof T)) = Z.of_nat (sizeof T))
      by (unfold wrap_u; apply Z.mod_small; lia).
    rewrite Hu, Z.eqb_refl.
    rewrite wrap_s_small by (unfold in_signed; lia).
    rewrite <- Nat2Z.inj_mul.
    rewrite istream_read_enough by lia.
    cbn [is_fail negb]. rewrite repeat_length.
    rewrite overwrite_all
      by (rewrite vector_bytes_repeat_length, length_firstn; lia).
    rewrite <- (vector_of_bytes_prefix n (firstn (n * sizeof T) mem)
                  (skipn (n * sizeof T) mem))
      by (rewrite length_firstn; lia).
    rewrite firstn_skipn.
    eexists. reflexivity.
  - assert (Hu : Z.of_nat (sizeof T) < wrap_u 64 es).
    { unfold wrap_u. destruct Hes as [Hes|Hes].
      - rewrite Z.mod_small; lia.
      - replace es with (es + 2 ^ 64 - 1 * 2 ^ 64) by lia.
        rewrite <- Zminus_mod_idemp_r, Z_mod_mult, Z.sub_0_r.
        rewrite Z.mod_small; lia. }
    destruct (Z.eqb_spec (wrap_u 64 es) (Z.of_nat (sizeof T))); [lia|].
    destruct (Z.gtb_spec (wrap_u 64 es) (Z.of_nat (sizeof T))); [|lia].
    destruct (read_each_zero_init (T:=T) n mem
                (gpos + Z.of_nat (sizeof ArrayHeader))
                (log ++ [Z.of_nat (sizeof ArrayHeader)]) Hlen) as [log' E].
    rewrite E. cbn [is_fail negb]. exists log'. reflexivity.
Qed.

(** Closed arithmetic side conditions, by evaluation. *)
Ltac by_compute :=
  repeat split; vm_compute; first [reflexivity | discriminate | lia].

Lemma ReadVector_elementSize_ignored_witness :
  exists log',
    ReadVector
      (mk_ifstream (to_bytes (mk_ArrayHeader (Z.of_nat 2) 32) ++ skipn 8 newer_array)
                   0 false [])
      (@nil RecordGpuCtxSw)
    = (Returned true, vector_of_bytes 2 (skipn 8 newer_array),
       mk_ifstream (skipn (2 * sizeof RecordGpuCtxSw) (skipn 8 newer_array))
                   (0 + 8 + Z.of_nat (2 * sizeof RecordGpuCtxSw)) false log').
Proof.
  apply (ReadVector_elementSize_ignored (T:=RecordGpuCtxSw) 2 32
           (skipn 8 newer_array) 0 []).
  - by_compute.
  - left. by_compute.
  - by_compute.
Defined.

(** A stream that ends inside the array header (an empty stream included)
    makes [ReadVector] return [false] with the destination vector
    untouched. *)
Theorem ReadVector_truncated_header {T} `{Pod T}
    (mem : list byte) (gpos : Z) (log : list Z) (buffer : list T) :
  (length mem < 8)%nat ->
  ReadVector (mk_ifstream mem gpos false log) buffer
  = (Returned false, buffer,
     mk_ifstream [] (gpos + Z.of_nat (length mem)) true (log ++ [8])).
Proof.
  intros Hlen. unfold ReadVector, Read.
  rewrite istream_read_short by (cbn [sizeof ArrayHeader_Pod]; lia).
  reflexivity.
Qed.

Lemma ReadVector_truncated_header_witness :
  ReadVector (mk_ifstream [] 0 false []) (@nil RecordGpuCtxSw)
  = (Returned false, [], mk_ifstream [] (0 + Z.of_nat 0) true ([] ++ [8])).
Proof.
  apply (ReadVector_truncated_header (T:=RecordGpuCtxSw) [] 0 [] []).
  by_compute.
Defined.

(** A negative on-disk count is not reported by [return false]: the call
    is left by the exception of [resize], whatever the element size, with
    the destination vector untouched and nothing read after the header. *)
Theorem ReadVector_negative_count {T} `{Pod T}
    (c es : Z) (rest : list byte) (gpos : Z) (log : list Z) (buffer : list T) :
  - 2 ^ 31 <= c < 0 -> in_signed 32 es ->
  ReadVector (mk_ifstream (to_bytes (mk_ArrayHeader c es) ++ rest) gpos false log)
             buffer
  = (Threw, buffer, mk_ifstream rest (gpos + 8) false (log ++ [8])).
Proof.
  intros Hc Hes. unfold ReadVector, Read.
  rewrite istream_read_exact by reflexivity.
  unfold store. rewrite overwrite_all by reflexivity.
  rewrite ArrayHeader_of_to_bytes
    by (split; [unfold in_signed; cbn [count]; lia | exact Hes]).
  cbn [is_fail count].
  destruct (Z.ltb_spec c 0); [reflexivity | lia].
Qed.

Lemma ReadVector_negative_count_witness :
  ReadVector (mk_ifstream (to_bytes (mk_ArrayHeader (-1) 24) ++ []) 0 false [])
             (@nil RecordGpuCtxSw)
  = (Threw, [], mk_ifstream [] (0 + 8) false ([] ++ [8])).
Proof.
  apply (ReadVector_negative_count (T:=RecordGpuCtxSw) (-1) 24 [] 0 [] []).
  - by_compute.
  - by_compute.
Defined.

(** An array whose element size lies in [0, sizeof(T)) is refused with
    [return false] once its header is read, but only after the destination
    was resized: the caller is left with [count] records, the new ones
    zero-filled. *)
Theorem ReadVector_older_leaves_resized {T} `{PodOk T}
    (n : nat) (es : Z) (rest : list byte) (gpos : Z) (log : list Z)
    (buffer : list T) :
  Z.of_nat n < 2 ^ 31 -> 0 <= es < Z.of_nat (sizeof T) ->
  ReadVector
    (mk_ifstream (to_bytes (mk_ArrayHeader (Z.of_nat n) es) ++ rest) gpos false log)
    buffer
  = (Returned false, resize zero_init buffer n,
     mk_ifstream rest (gpos + 8) false (log ++ [8])).
Proof.
  intros Hn Hes. pose proof (sizeof_small (T:=T)) as Hsz.
  unfold ReadVector, Read.
  rewrite istream_read_exact by reflexivity.
  unfold store. rewrite overwrite_all by reflexivity.
  rewrite ArrayHeader_of_to_bytes
    by (split; unfold in_signed; cbn [count elementSize]; lia).
  cbn [is_fail count elementSize].
  destruct (Z.ltb_spec (Z.of_nat n) 0); [lia|].
  assert (Hu : wrap_u 64 es = es) by (unfold wrap_u; apply Z.mod_small; lia).
  rewrite Hu, Nat2Z.id.
  destruct (Z.eqb_spec es (Z.of_nat (sizeof T))); [lia|].
  destruct (Z.gtb_spec es (Z.of_nat (sizeof T))); [lia|].
  reflexivity.
Qed.

Lemma ReadVector_older_leaves_resized_witness :
  ReadVector
    (mk_ifstream (to_bytes (mk_ArrayHeader (Z.of_nat 2) 16) ++ to_bytes sample_in)
                 0 false [])
    (@nil RecordGpuCtxSw)
  = (Returned false, resize zero_init [] 2,
     mk_ifstream (to_bytes sample_in) (0 + 8) false ([] ++ [8])).
Proof.
  apply (ReadVector_older_leaves_resized (T:=RecordGpuCtxSw) 2 16
           (to_bytes sample_in) 0 [] []).
  - by_compute.
  - by_compute.
Defined.







(** ** Whole files *)

Lemma encode_vector_length {T} `{PodOk T} (v : list T) :
  Forall wf v -> Z.of_nat (length (encode_vector v)) = 8 + byte_count v.
Proof.
  intros Hwf. unfold encode_vector, byte_count.
  rewrite length_app, vector_bytes_length by exact Hwf.
  change (length (to_bytes (mk_ArrayHeader (Z.of_nat (length v)) (Z.of_nat (sizeof T)))))
    with 8%nat.
  lia.
Qed.

Lemma read_devices_written_pos (per : list (list RecordGpuCtxSw)) rest gpos log :
  Forall (Forall wf_RecordGpuCtxSw) per ->
  Forall (fun records => byte_count records < 2 ^ 31) per ->
  exists log',
    read_devices (mk_ifstream (flat_map encode_vector per ++ rest) gpos false log)
                 (repeat [] (length per))
    = (Returned true, per,
       mk_ifstream rest (gpos + Z.of_nat (length (flat_map encode_vector per)))
                   false log').
Proof.
  intros Hwf. revert gpos log.
  induction Hwf as [|v per Hv _ IH]; intros gpos log Hfit.
  - exists log. cbn. rewrite Z.add_0_r. reflexivity.
  - inversion Hfit as [|? ? Hv' Hfit']; subst.
    cbn [flat_map length repeat read_devices]. unfold encode_vector at 1.
    rewrite <- !app_assoc.
    rewrite (ReadVector_written v) by assumption.
    destruct (IH (gpos + 8 + byte_count v) (log ++ [8; byte_count v]) Hfit')
      as (log' & E).
    rewrite E. exists log'. f_equal. f_equal.
    rewrite length_app, Nat2Z.inj_add.
    rewrite (encode_vector_length v) by exact Hv. lia.
Qed.

(** Bytes that follow the last array of a file are neither read nor
    reported: a written file followed by anything decodes to the written
    value, and the stream stops at the end of the written part. *)
Theorem ReadFileData_ignores_trailing_bytes (fd prior : FileData) (extra : list byte) :
  wf_FileData fd ->
  length (perDeviceData fd) = length (deviceDescs fd) ->
  sizes_fit fd ->
  exists log,
    ReadFileData (Some (snd (WriteFileData true fd) ++ extra)) prior
    = (Returned true, fd,
       mk_ifstream extra (Z.of_nat (length (snd (WriteFileData true fd)))) false log).
Proof.
  intros Hwf Hlen Hfit. rewrite WriteFileData_out by assumption. cbn [snd].
  destruct Hwf as [Hd Hp]. destruct Hfit as [Sd Sp].
  unfold ReadFileData. rewrite <- app_assoc.
  rewrite Read_FileHeader_exact by reflexivity.
  cbn [is_fail magic].
  replace (bytes_eqb nvtrc01Magic nvtrc01Magic) with true by reflexivity.
  cbn [negb deviceDescs perDeviceData FileData_empty].
  unfold encode_vector at 1. rewrite <- !app_assoc.
  rewrite (ReadVector_written (deviceDescs fd)) by assumption.
  unfold resize. rewrite firstn_nil. cbn [app length]. rewrite Nat.sub_0_r.
  rewrite <- Hlen.
  match goal with
  | |- context [read_devices (mk_ifstream _ ?g false ?l) _] =>
      destruct (read_devices_written_pos (perDeviceData fd) extra g l Hp Sp)
        as (log' & E)
  end.
  rewrite E. exists log'. destruct fd as [descs per].
  cbn [deviceDescs perDeviceData] in *. f_equal. f_equal.
  rewrite !length_app, !Nat2Z.inj_add.
  rewrite (encode_vector_length descs) by exact Hd.
  change (Z.of_nat (length nvtrc01Magic)) with 8. lia.
Qed.

Lemma ReadFileData_ignores_trailing_bytes_witness :
  exists log,
    ReadFileData (Some (snd (WriteFileData true sample_capture) ++ [Byte.xff]))
                 FileData_empty
    = (Returned true, sample_capture,
       mk_ifstream [Byte.xff]
         (Z.of_nat (length (snd (WriteFileData true sample_capture)))) false log).
Proof.
  apply (ReadFileData_ignores_trailing_bytes sample_capture FileData_empty [Byte.xff]).
  - split; repeat constructor;
      unfold in_unsigned, in_signed; cbn; lia.
  - reflexivity.
  - split; repeat constructor; unfold byte_count; cbn; lia.
Defined.

Lemma flat_map_encode_vector_length (per : list (list RecordGpuCtxSw)) :
  Forall (Forall wf_RecordGpuCtxSw) per ->
  Z.of_nat (length (flat_map encode_vector per))
  = fold_right (fun records acc => 8 + 24 * Z.of_nat (length records) + acc) 0 per.
Proof.
  induction 1 as [|v per Hv _ IH]; [reflexivity|].
  cbn [flat_map fold_right]. rewrite length_app, Nat2Z.inj_add, IH.
  rewrite (encode_vector_length v) by exact Hv.
  unfold byte_count. cbn [sizeof RecordGpuCtxSw_Pod]. lia.
Qed.

(** The layout of a written file: the eight bytes of the magic tag, a
    header of 8 bytes and 288 bytes per device, then for each device a
    header of 8 bytes and 24 bytes per record. *)
Theorem WriteFileData_layout (fd : FileData) :
  wf_FileData fd -> sizes_fit fd ->
  fst (WriteFileData true fd) = true /\
  firstn 8 (snd (WriteFileData true fd)) = nvtrc01Magic /\
  Z.of_nat (length (snd (WriteFileData true fd)))
  = 8 + (8 + 288 * Z.of_nat (length (deviceDescs fd)))
    + fold_right (fun records acc => 8 + 24 * Z.of_nat (length records) + acc) 0
                 (perDeviceData fd).
Proof.
  intros Hwf Hfit. rewrite WriteFileData_out by assumption.
  destruct Hwf as [Hd Hp]. cbn [fst snd].
  split; [reflexivity|]. split; [reflexivity|].
  rewrite !length_app, !Nat2Z.inj_add.
  rewrite (encode_vector_length (deviceDescs fd)) by exact Hd.
  rewrite flat_map_encode_vector_length by exact Hp.
  unfold byte_count. cbn [sizeof DeviceDesc_Pod].
  change (Z.of_nat (length nvtrc01Magic)) with 8. lia.
Qed.

Lemma WriteFileData_layout_witness :
  Z.of_nat (length (snd (WriteFileData true sample_capture)))
  = 8 + (8 + 288 * Z.of_nat (length (deviceDescs sample_capture)))
    + fold_right (fun records acc => 8 + 24 * Z.of_nat (length records) + acc) 0
                 (perDeviceData sample_capture).
Proof.
  apply (WriteFileData_layout sample_capture).
  - split; repeat constructor;
      unfold in_unsigned, in_signed; cbn; lia.
  - split; repeat constructor; unfold byte_count; cbn; lia.
Defined.

(** Two captures that are written to the same bytes are the same capture. *)
Theorem WriteFileData_injective (fd1 fd2 : FileData) :
  wf_FileData fd1 -> wf_FileData fd2 ->
  length (perDeviceData fd1) = length (deviceDescs fd1) ->
  length (perDeviceData fd2) = length (deviceDescs fd2) ->
  sizes_fit fd1 -> sizes_fit fd2 ->
  snd (WriteFileData true fd1) = snd (WriteFileData true fd2) ->
  fd1 = fd2.
Proof.
  intros Hwf1 Hwf2 Hl1 Hl2 Hs1 Hs2 E.
  destruct (ReadFileData_WriteFileData fd1 FileData_empty Hwf1 Hs1 Hl1)
    as [_ [ifs1 R1]].
  destruct (ReadFileData_WriteFileData fd2 FileData_empty Hwf2 Hs2 Hl2)
    as [_ [ifs2 R2]].
  rewrite E in R1. rewrite R1 in R2. injection R2 as -> _. reflexivity.
Qed.

(** Two captures that differ only in the order of their two records are
    written as different files. *)
Lemma WriteFileData_injective_witness :
  sample_capture <> swapped_capture /\
  length (snd (WriteFileData true sample_capture))
  = length (snd (WriteFileData true swapped_capture)) /\
  snd (WriteFileData true sample_capture) <> snd (WriteFileData true swapped_capture).
Proof.
  split; [discriminate|]. split; [vm_compute; reflexivity|].
  intros E.
  assert (Hwf1 : wf_FileData sample_capture)
    by (split; repeat constructor; unfold in_unsigned, in_signed; cbn; lia).
  assert (Hwf2 : wf_FileData swapped_capture)
    by (split; repeat constructor; unfold in_unsigned, in_signed; cbn; lia).
  assert (Hfit1 : sizes_fit sample_capture)
    by (split; repeat constructor; unfold byte_count; cbn; lia).
  assert (Hfit2 : sizes_fit swapped_capture)
    by (split; repeat constructor; unfold byte_count; cbn; lia).
  pose proof (WriteFileData_injective sample_capture swapped_capture
                Hwf1 Hwf2 eq_refl eq_refl Hfit1 Hfit2 E) as Heq.
  discriminate Heq.
Defined.

(** A negative count in the device-descriptor header does not make
    [ReadFileData] return [false]: the exception of [resize] leaves the
    call, and [read_nvtrc_file], which does not catch it. *)
Theorem ReadFileData_negative_count_throws
    (c es : Z) (rest : list byte) (prior : FileData) :
  - 2 ^ 31 <= c < 0 -> in_signed 32 es ->
  ReadFileData (Some (nvtrc01Magic ++ to_bytes (mk_ArrayHeader c es) ++ rest)) prior
  = (Threw, FileData_empty, mk_ifstream rest 16 false [8; 8]) /\
  (forall k filename trace_info,
      GpuvisNvtrc.read_nvtrc_file k
        (Some (nvtrc01Magic ++ to_bytes (mk_ArrayHeader c es) ++ rest))
        filename trace_info
      = Some (Threw, trace_info, [])).
Proof.
  intros Hc Hes.
  assert (E : forall prior',
             ReadFileData (Some (nvtrc01Magic ++ to_bytes (mk_ArrayHeader c es) ++ rest))
                          prior'
             = (Threw, FileData_empty, mk_ifstream rest 16 false [8; 8])).
  { intros prior'. unfold ReadFileData.
    rewrite Read_FileHeader_exact by reflexivity.
    cbn [is_fail magic].
    replace (bytes_eqb nvtrc01Magic nvtrc01Magic) with true by reflexivity.
    cbn [negb deviceDescs perDeviceData FileData_empty].
    rewrite ReadVector_negative_count by assumption. reflexivity. }
  split; [apply E|].
  intros k filename trace_info. unfold GpuvisNvtrc.read_nvtrc_file.
  rewrite E. reflexivity.
Qed.

Lemma ReadFileData_negative_count_throws_witness :
  ReadFileData (Some (nvtrc01Magic ++ to_bytes (mk_ArrayHeader (-1) 288) ++ []))
               FileData_empty
  = (Threw, FileData_empty, mk_ifstream [] 16 false [8; 8]).
Proof.
  apply (ReadFileData_negative_count_throws (-1) 288 [] FileData_empty);
    by_compute.
Defined.

(** ** Names written and read back *)

Lemma array_set_app {A} (a b : list A) x v :
  array_set (a ++ x :: b) (length a) v = a ++ v :: b.
Proof.
  induction a as [|h a IH]; [reflexivity|].
  cbn [app length array_set]. rewrite IH. reflexivity.
Qed.

Lemma skipn_cons_nth {A} (l : list A) n :
  (n < length l)%nat -> exists x, skipn n l = x :: skipn (S n) l.
Proof.
  revert n. induction l as [|h l IH]; intros n Hn; [cbn in Hn; lia|].
  destruct n as [|n]; [exists h; reflexivity|].
  cbn [length] in Hn. destruct (IH n ltac:(lia)) as [x E].
  exists x. cbn [skipn]. exact E.
Qed.

Lemma SetName_name (desc : DeviceDesc) (s : list byte) :
  length (name desc) = name_capacity ->
  name (SetName desc s)
  = firstn (Nat.min (length s) 238) s
    ++ Byte.x00 :: skipn (S (Nat.min (length s) 238)) (name desc).
Proof.
  intros Hcap. unfold name_capacity in Hcap.
  set (n := Nat.min (length s) 238).
  assert (Hn : n = if (length s <? 239 - 1)%nat then length s else (239 - 1)%nat).
  { unfold n. destruct (Nat.ltb_spec (length s) (239 - 1)); lia. }
  unfold SetName, name_capacity. cbn [name]. rewrite <- Hn.
  assert (Hlen : length (firstn n s) = n) by (rewrite length_firstn; unfold n; lia).
  unfold overwrite. rewrite Hlen.
  destruct (skipn_cons_nth (name desc) n) as [x Ex]; [unfold n; lia|].
  rewrite Ex.
  pose proof (array_set_app (firstn n s) (skipn (S n) (name desc)) x Byte.x00) as A.
  rewrite Hlen in A. exact A.
Qed.

(** [SetName] writes the characters it keeps and one null byte, and nothing
    else: every other field of the descriptor and every byte of the name
    buffer after the terminator are as they were, and the descriptor stays
    a valid object. *)
Theorem SetName_writes_only_the_name (desc : DeviceDesc) (s : list byte) :
  wf_DeviceDesc desc ->
  let n := Nat.min (length s) 238 in
  skipn (S n) (name (SetName desc s)) = skipn (S n) (name desc) /\
  uuid (SetName desc s) = uuid desc /\
  gpuCtxSwTraceError (SetName desc s) = gpuCtxSwTraceError desc /\
  cpuTimestampStart (SetName desc s) = cpuTimestampStart desc /\
  gpuTimestampStart (SetName desc s) = gpuTimestampStart desc /\
  cpuTimestampEnd (SetName desc s) = cpuTimestampEnd desc /\
  gpuTimestampEnd (SetName desc s) = gpuTimestampEnd desc /\
  wf_DeviceDesc (SetName desc s).
Proof.
  intros Hwf n. pose proof Hwf as (Hu & Hcap & He & Ha & Hb & Hc & Hd).
  pose proof (SetName_name desc s Hcap) as Hname. fold n in Hname.
  assert (Hlen : length (firstn n s) = n) by (rewrite length_firstn; unfold n; lia).
  split.
  { rewrite Hname. replace (S n) with (n + 1)%nat by lia.
    rewrite (skipn_plus (firstn n s) _ n 1 Hlen). reflexivity. }
  repeat (split; [reflexivity|]).
  unfold wf_DeviceDesc. rewrite Hname.
  cbn [SetName uuid gpuCtxSwTraceError cpuTimestampStart gpuTimestampStart
       cpuTimestampEnd gpuTimestampEnd].
  split; [exact Hu|].
  split; [|exact (conj He (conj Ha (conj Hb (conj Hc Hd))))].
  unfold name_capacity in *.
  rewrite length_app, Hlen. cbn [length]. rewrite length_skipn, Hcap.
  unfold n. lia.
Qed.

Lemma wf_filled_desc : wf_DeviceDesc filled_desc.
Proof.
  unfold wf_DeviceDesc, name_capacity, in_unsigned, in_signed.
  repeat split; vm_compute; first [reflexivity | discriminate].
Qed.

(** On a descriptor none of whose parts is zero, setting the name GPU0
    leaves the 234 bytes after the terminator (all of them the letter x),
    the uuid, the error code and the four timestamps as they were. *)
Lemma SetName_writes_only_the_name_witness :
  let desc' := SetName filled_desc (list_byte_of_string "GPU0") in
  firstn 5 (name desc') = list_byte_of_string "GPU0" ++ [Byte.x00] /\
  skipn 5 (name desc') = repeat Byte.x78 234 /\
  skipn 5 (name desc') = skipn 5 (name filled_desc) /\
  uuid desc' = repeat Byte.xab 16 /\
  gpuCtxSwTraceError desc' = 3 /\
  cpuTimestampStart desc' = 500 /\
  gpuTimestampStart desc' = 7000 /\
  cpuTimestampEnd desc' = 900 /\
  gpuTimestampEnd desc' = 9000 /\
  wf_DeviceDesc desc'.
Proof.
  pose proof (SetName_writes_only_the_name filled_desc (list_byte_of_string "GPU0")
                wf_filled_desc) as (Htail & Hu & He & Ha & Hb & Hc & Hd & Hwf).
  split; [vm_compute; reflexivity|].
  split; [vm_compute; reflexivity|].
  split; [exact Htail|].
  split; [exact Hu|]. split; [exact He|]. split; [exact Ha|].
  split; [exact Hb|]. split; [exact Hc|]. split; [exact Hd|]. exact Hwf.
Defined.

Lemma c_str_terminated (a rest : list byte) :
  Forall (fun b => b <> Byte.x00) a ->
  GpuvisNvtrc.c_str (a ++ Byte.x00 :: rest) = Some a.
Proof.
  induction 1 as [|b a Hb _ IH]; [reflexivity|].
  cbn [app GpuvisNvtrc.c_str].
  destruct (Byte.eqb b Byte.x00) eqn:E.
  - apply Byte.byte_dec_bl in E. contradiction.
  - rewrite IH. reflexivity.
Qed.

(** A name without null bytes that was stored with [SetName] is read back
    from the buffer as a C string (as [adapt_trace_info] does) cut at 238
    characters: in full when it fits. *)
Theorem SetName_read_back (desc : DeviceDesc) (s : list byte) :
  length (name desc) = name_capacity ->
  Forall (fun b => b <> Byte.x00) s ->
  GpuvisNvtrc.c_str (name (SetName desc s)) = Some (firstn 238 s) /\
  ((length s <= 238)%nat ->
   GpuvisNvtrc.c_str (name (SetName desc s)) = Some s).
Proof.
  intros Hcap Hs. rewrite (SetName_name desc s Hcap).
  assert (E : firstn (Nat.min (length s) 238) s = firstn 238 s).
  { destruct (Nat.le_gt_cases (length s) 238) as [Hle|Hgt].
    - rewrite Nat.min_l by exact Hle. rewrite !firstn_all2 by lia. reflexivity.
    - rewrite Nat.min_r by lia. reflexivity. }
  rewrite E.
  assert (Hf : Forall (fun b => b <> Byte.x00) (firstn 238 s)).
  { rewrite <- (firstn_skipn 238 s) in Hs. apply Forall_app in Hs. apply Hs. }
  rewrite c_str_terminated by exact Hf.
  split; [reflexivity|]. intros Hle. rewrite firstn_all2 by exact Hle. reflexivity.
Qed.

Lemma SetName_read_back_witness :
  GpuvisNvtrc.c_str (name (SetName zero_init (list_byte_of_string "GPU0")))
  = Some (list_byte_of_string "GPU0").
Proof.
  assert (Hcap : length (name (zero_init : DeviceDesc)) = name_capacity)
    by reflexivity.
  assert (Hs : Forall (fun b => b <> Byte.x00) (list_byte_of_string "GPU0"))
    by (repeat constructor; discriminate).
  destruct (SetName_read_back zero_init (list_byte_of_string "GPU0") Hcap Hs)
    as [_ H].
  apply H. by_compute.
Defined.

(** [SetName] does not erase a longer name stored before: the characters of
    the old name that lie after the new terminator stay in the buffer (and
    are written to the file with it). *)
Theorem SetName_leaves_old_tail (desc : DeviceDesc) (s1 s2 : list byte) (i : nat) :
  length (name desc) = name_capacity ->
  (length s2 < i)%nat -> (i < length s1)%nat -> (i < 238)%nat ->
  nth_error (name (SetName (SetName desc s1) s2)) i = nth_error s1 i.
Proof.
  intros Hcap H2 H1 Hi.
  assert (Hcap1 : length (name (SetName desc s1)) = name_capacity).
  { rewrite (SetName_name desc s1 Hcap). unfold name_capacity in *.
    rewrite length_app, length_firstn. cbn [length]. rewrite length_skipn, Hcap. lia. }
  rewrite (SetName_name (SetName desc s1) s2 Hcap1).
  rewrite Nat.min_l by lia.
  rewrite firstn_all2 by lia.
  rewrite nth_error_app2 by lia.
  destruct (i - length s2)%nat as [|j] eqn:Ej; [lia|].
  cbn [nth_error]. rewrite nth_error_skipn.
  replace (S (length s2) + j)%nat with i by lia.
  rewrite (SetName_name desc s1 Hcap).
  rewrite nth_error_app1 by (rewrite length_firstn; lia).
  rewrite nth_error_firstn.
  destruct (Nat.ltb_spec i (Nat.min (length s1) 238)); [reflexivity | lia].
Qed.

Lemma SetName_leaves_old_tail_witness :
  nth_error (name (SetName (SetName zero_init (list_byte_of_string "GeForce"))
                           (list_byte_of_string "GPU")))
            5
  = nth_error (list_byte_of_string "GeForce") 5.
Proof.
  assert (Hcap : length (name (zero_init : DeviceDesc)) = name_capacity)
    by reflexivity.
  apply (SetName_leaves_old_tail zero_init (list_byte_of_string "GeForce")
           (list_byte_of_string "GPU") 5 Hcap); by_compute.
Defined.

(** ** The scale of a converter *)

Lemma binary_round_aux_finite_wide sx mx ex lx k :
  0 <= k <= 400 -> 0 <= mx < 2 ^ k -> ex <= 200 ->
  SF_is_finite (binary_round_aux prec emax sx mx ex lx) = true.
Proof.
  intros Hk Hmx Hex. unfold binary_round_aux.
  destruct (shr_fexp_bounds mx ex lx (proj1 Hmx)) as [Hb1 He1].
  destruct (shr_fexp prec emax mx ex lx) as [mrs1 e1]. cbn [fst snd] in Hb1, He1.
  pose proof (round_nearest_even_bounds (shr_m mrs1) (loc_of_shr_record mrs1)) as Hr.
  set (m2 := round_nearest_even (shr_m mrs1) (loc_of_shr_record mrs1)) in *.
  destruct (shr_fexp_bounds m2 e1 loc_Exact ltac:(lia)) as [Hb2 He2].
  destruct (shr_fexp prec emax m2 e1 loc_Exact) as [mrs2 e2]. cbn [fst snd] in Hb2, He2.
  destruct (shr_m mrs2) as [|m|m] eqn:Em; [reflexivity| |lia].
  assert (Hd1 : 0 <= Zdigits2 mx <= k) by (apply Zdigits2_bound; lia).
  assert (Hd2 : 0 <= Zdigits2 m2 <= k + 1).
  { apply Zdigits2_bound; [lia|]. rewrite Z.pow_add_r by lia. lia. }
  unfold fexp, emin, prec, emax in *.
  destruct (Z.leb_spec e2 (1024 - 53)); [reflexivity | lia].
Qed.

(** The mantissa and the exponent of a rounded number. *)
Lemma binary_round_aux_bounds sx mx ex lx s m e :
  0 <= mx ->
  binary_round_aux prec emax sx mx ex lx = S754_finite s m e ->
  Z.pos m <= mx + 1 /\ ex <= e.
Proof.
  intros Hmx. unfold binary_round_aux.
  destruct (shr_fexp_bounds mx ex lx Hmx) as [Hb1 He1].
  destruct (shr_fexp prec emax mx ex lx) as [mrs1 e1]. cbn [fst snd] in Hb1, He1.
  pose proof (round_nearest_even_bounds (shr_m mrs1) (loc_of_shr_record mrs1)) as Hr.
  set (m2 := round_nearest_even (shr_m mrs1) (loc_of_shr_record mrs1)) in *.
  destruct (shr_fexp_bounds m2 e1 loc_Exact ltac:(lia)) as [Hb2 He2].
  destruct (shr_fexp prec emax m2 e1 loc_Exact) as [mrs2 e2]. cbn [fst snd] in Hb2, He2.
  destruct (shr_m mrs2) as [|m'|m'] eqn:Em; try discriminate.
  destruct (Z.leb e2 (emax - prec)); [|discriminate].
  intros [= _ <- <-]. lia.
Qed.

Lemma double_of_int64_bounds z s m e :
  in_signed 64 z -> double_of_int64 z = S754_finite s m e ->
  Z.pos m < 2 ^ 117 /\ - 52 <= e.
Proof.
  unfold in_signed. intros Hz E.
  assert (Hr : forall sx p, Z.pos p < 2 ^ 64 ->
             binary_round prec emax sx p 0 = S754_finite s m e ->
             Z.pos m < 2 ^ 117 /\ - 52 <= e).
  { clear. intros sx p Hp. unfold binary_round, shl_align.
    pose proof (digits2_pos_bound p 64 ltac:(lia) Hp) as Hd.
    pose proof (Pos2Z.is_pos (digits2_pos p)) as Hd0.
    destruct (fexp prec emax (Z.pos (digits2_pos p) + 0) - 0) as [|d|d] eqn:Ed;
      intros Er.
    - apply binary_round_aux_bounds in Er; [|lia].
      change (2 ^ 117) with (2 ^ 64 * 2 ^ 53). lia.
    - apply binary_round_aux_bounds in Er; [|lia].
      change (2 ^ 117) with (2 ^ 64 * 2 ^ 53). lia.
    - assert (Hdd : Z.pos d <= 52 /\ - 52 <= fexp prec emax (Z.pos (digits2_pos p) + 0))
        by (unfold fexp, emin, prec, emax in *; lia).
      apply binary_round_aux_bounds in Er; [|lia].
      rewrite Pos_iter_xO in Er.
      assert (2 ^ Z.pos d <= 2 ^ 52) by (apply Z.pow_le_mono_r; lia).
      change (2 ^ 117) with (2 ^ 64 * 2 ^ 53). nia. }
  unfold double_of_int64, binary_normalize in E.
  destruct z as [|p|p]; [discriminate| |]; eapply Hr; try exact E; lia.
Qed.

Lemma binary_round_aux_exponent_le sx mx ex lx k s m e :
  0 <= k -> 0 <= mx < 2 ^ k ->
  binary_round_aux prec emax sx mx ex lx = S754_finite s m e ->
  e <= Z.max (Z.max ex (k + ex - 53)) (-1074) + Z.max 0 (k - 52).
Proof.
  intros Hk Hmx. unfold binary_round_aux.
  destruct (shr_fexp_bounds mx ex lx (proj1 Hmx)) as [Hb1 He1].
  destruct (shr_fexp prec emax mx ex lx) as [mrs1 e1]. cbn [fst snd] in Hb1, He1.
  pose proof (round_nearest_even_bounds (shr_m mrs1) (loc_of_shr_record mrs1)) as Hr.
  set (m2 := round_nearest_even (shr_m mrs1) (loc_of_shr_record mrs1)) in *.
  destruct (shr_fexp_bounds m2 e1 loc_Exact ltac:(lia)) as [Hb2 He2].
  destruct (shr_fexp prec emax m2 e1 loc_Exact) as [mrs2 e2]. cbn [fst snd] in Hb2, He2.
  assert (Hd1 : 0 <= Zdigits2 mx <= k) by (apply Zdigits2_bound; lia).
  assert (Hd2 : 0 <= Zdigits2 m2 <= k + 1).
  { apply Zdigits2_bound; [lia|]. rewrite Z.pow_add_r by lia. lia. }
  destruct (shr_m mrs2) as [|m'|m'] eqn:Em; try discriminate.
  destruct (Z.leb e2 (emax - prec)); [|discriminate].
  intros [= _ _ <-]. unfold fexp, emin, prec, emax in *. lia.
Qed.

Lemma double_of_int64_exponent_le z s m e :
  in_signed 64 z -> double_of_int64 z = S754_finite s m e -> e <= 127.
Proof.
  unfold in_signed. intros Hz E.
  assert (Hr : forall sx p, Z.pos p < 2 ^ 64 ->
             binary_round prec emax sx p 0 = S754_finite s m e -> e <= 127).
  { clear. intros sx p Hp. unfold binary_round, shl_align.
    pose proof (digits2_pos_bound p 64 ltac:(lia) Hp) as Hd.
    pose proof (Pos2Z.is_pos (digits2_pos p)) as Hd0.
    destruct (fexp prec emax (Z.pos (digits2_pos p) + 0) - 0) as [|d|d] eqn:Ed;
      intros Er.
    - apply binary_round_aux_exponent_le with (k := 64) in Er; lia.
    - apply binary_round_aux_exponent_le with (k := 64) in Er; lia.
    - assert (Hdd : Z.pos d <= 52 /\ fexp prec emax (Z.pos (digits2_pos p) + 0) <= 0)
        by (unfold fexp, emin, prec, emax in *; lia).
      apply binary_round_aux_exponent_le with (k := 116) in Er; [lia|lia|].
      rewrite Pos_iter_xO.
      assert (2 ^ Z.pos d <= 2 ^ 52) by (apply Z.pow_le_mono_r; lia).
      change (2 ^ 116) with (2 ^ 64 * 2 ^ 52). nia. }
  unfold double_of_int64, binary_normalize in E.
  destruct z as [|p|p]; [discriminate| |]; eapply Hr; try exact E; lia.
Qed.

(** Dividing two doubles that come from 64-bit integers never overflows. *)
Lemma SFdiv_int64_finite a b :
  in_signed 64 a -> in_signed 64 b ->
  SFeqb (double_of_int64 b) (S754_zero false) = false ->
  SF_is_finite (SFdiv prec emax (double_of_int64 a) (double_of_int64 b)) = true.
Proof.
  intros Ha Hb Hnz.
  pose proof (double_of_int64_finite a Ha) as Fa.
  pose proof (double_of_int64_finite b Hb) as Fb.
  destruct (double_of_int64 b) as [sb|sb| |sb mb eb] eqn:Eb; try discriminate.
  destruct (double_of_int64 a) as [sa|sa| |sa ma ea] eqn:Ea; try discriminate;
    [reflexivity|].
  destruct (double_of_int64_bounds a sa ma ea Ha Ea) as [Hma Hea].
  destruct (double_of_int64_bounds b sb mb eb Hb Eb) as [Hmb Heb].
  pose proof (double_of_int64_exponent_le a sa ma ea Ha Ea) as Hea'.
  cbn [SFdiv]. unfold SFdiv_core_binary.
  set (d1 := Zdigits2 (Z.pos ma)). set (d2 := Zdigits2 (Z.pos mb)).
  assert (Hd1 : 0 <= d1 <= 117) by (apply Zdigits2_bound; lia).
  assert (Hd2 : 0 <= d2 <= 117) by (apply Zdigits2_bound; lia).
  assert (Hd1' : 1 <= d1) by (unfold d1; cbn [Zdigits2]; lia).
  set (e' := Z.min (fexp prec emax (d1 + ea - (d2 + eb))) (ea - eb)).
  set (sh := ea - eb - e').
  assert (Hsh : 0 <= sh <= 169 /\ e' <= 200).
  { unfold sh, e', fexp, emin, prec, emax. lia. }
  set (m' := match sh with
             | 0 => Z.pos ma
             | Z.pos _ => Z.shiftl (Z.pos ma) sh
             | Z.neg _ => 0
             end).
  assert (Hm' : 0 <= m' < 2 ^ 286).
  { assert (H2 : 2 ^ sh <= 2 ^ 169) by (apply Z.pow_le_mono_r; lia).
    assert (H0 : 0 < 2 ^ sh) by (apply Z.pow_pos_nonneg; lia).
    change (2 ^ 286) with (2 ^ 117 * 2 ^ 169).
    unfold m'. destruct sh as [|p|p] eqn:Es.
    - cbn in H2. nia.
    - rewrite Z.shiftl_mul_pow2 by lia. nia.
    - lia. }
  pose proof (Z_div_mod m' (Z.pos mb) ltac:(lia)) as Hdiv.
  destruct (Z.div_eucl m' (Z.pos mb)) as [q r].
  destruct Hdiv as [Hq Hr].
  assert (Hqb : 0 <= q < 2 ^ 286) by nia.
  apply binary_round_aux_finite_wide with (k := 286); lia.
Qed.

(** Whatever the four sync timestamps are, the scale of the converter is a
    finite double: the guard on a zero source span and the range of 64-bit
    integers exclude NaN and the infinities. *)
Theorem CreateTimestampConverter_scale_finite (srcStart srcEnd dstStart dstEnd : Z) :
  SF_is_finite (scale (CreateTimestampConverter srcStart srcEnd dstStart dstEnd))
  = true.
Proof.
  unfold CreateTimestampConverter. cbn [scale].
  destruct (SFeqb (double_of_int64 (wrap_s 64 (srcEnd - srcStart)))
                  (S754_zero false)) eqn:E; [reflexivity|].
  apply SFdiv_int64_finite; try (apply wrap_s_range; lia). exact E.
Qed.

Lemma SFmul_zero_r f s :
  SF_is_finite f = true ->
  exists s', SFmul prec emax f (S754_zero s) = S754_zero s'.
Proof.
  destruct f as [s2|s2| |s2 m e]; cbn [SF_is_finite SFmul]; try discriminate;
    intros _; eexists; reflexivity.
Qed.

(** The end-of-capture sync point is a fixed point of the conversion: every
    converter maps [srcEnd] to [dstEnd] exactly, and the converter of a
    device maps its GPU end timestamp to its CPU end timestamp. *)
Theorem convert_anchor (srcStart srcEnd dstStart dstEnd : Z) :
  in_signed 64 dstEnd ->
  convert (CreateTimestampConverter srcStart srcEnd dstStart dstEnd) srcEnd
  = Some dstEnd /\
  (forall desc : DeviceDesc,
      cpuTimestampEnd desc = dstEnd ->
      convert (CreateTimestampConverter_desc desc) (gpuTimestampEnd desc)
      = Some dstEnd).
Proof.
  intros Hdst.
  assert (A : forall s e d,
             convert (CreateTimestampConverter s e d dstEnd) e = Some dstEnd).
  { intros s e d.
    pose proof (CreateTimestampConverter_scale_finite s e d dstEnd) as Hf.
    unfold convert.
    change (srcAtSyncPoint (CreateTimestampConverter s e d dstEnd)) with e.
    change (dstAtSyncPoint (CreateTimestampConverter s e d dstEnd)) with dstEnd.
    rewrite Z.sub_diag.
    change (double_of_int64 (wrap_s 64 0)) with (S754_zero false).
    destruct (SFmul_zero_r _ false Hf) as [s' Hmul]. rewrite Hmul.
    cbn [int64_of_double]. f_equal. apply wrap_s_small; [lia | exact Hdst]. }
  split; [apply A|].
  intros desc <-. unfold CreateTimestampConverter_desc. apply A.
Qed.

Lemma convert_anchor_witness :
  convert (CreateTimestampConverter 1000 2000 500000 500500) 2000 = Some 500500.
Proof.
  apply (convert_anchor 1000 2000 500000 500500). by_compute.
Defined.

(** ** The adapter on whole captures *)

Lemma adapt_records_events k records :
  Forall wf_RecordGpuCtxSw records ->
  Forall (fun r => type r < 3) records ->
  exists events,
    GpuvisNvtrc.adapt_records k records = Some events /\
    Forall2 adapted_from records events.
Proof.
  induction 1 as [|r records Hr _ IH]; intros Ht.
  - exists []. split; [reflexivity | constructor].
  - inversion Ht as [|? ? Hlt Hts]; subst.
    destruct (IH Hts) as (events & E & Hev).
    cbn [GpuvisNvtrc.adapt_records]. unfold GpuvisNvtrc.adapt_record.
    rewrite (event_name_label_nth r Hr), E.
    destruct Hr as (_ & Hty & _). unfold in_unsigned in Hty.
    assert (Hc : type r = 0 \/ type r = 1 \/ type r = 2) by lia.
    destruct Hc as [Hc | [Hc | Hc]]; rewrite Hc;
      cbn [Z.to_nat Pos.to_nat Pos.iter_op GpuvisNvtrc.namehack nth_error];
      eexists; (split; [reflexivity|]); constructor; try exact Hev;
      repeat split.
Qed.

Lemma array_get_nth {A} (arr : list A) (i : nat) :
  GpuvisNvtrc.array_get arr (Z.of_nat i) = nth_error arr i.
Proof.
  unfold GpuvisNvtrc.array_get.
  destruct (Z.ltb_spec (Z.of_nat i) 0); [lia|]. rewrite Nat2Z.id. reflexivity.
Qed.

Lemma adapt_events_loop_events k per n : forall i,
  (i + n <= length per)%nat ->
  Forall (Forall wf_RecordGpuCtxSw) per ->
  Forall (Forall (fun r => type r < 3)) per ->
  exists events,
    GpuvisNvtrc.adapt_events_loop k per i n = Some events /\
    Forall2 adapted_from (concat (firstn n (skipn i per))) events.
Proof.
  induction n as [|n IH]; intros i Hlen Hwf Ht.
  - exists []. split; [reflexivity | constructor].
  - cbn [GpuvisNvtrc.adapt_events_loop]. rewrite array_get_nth.
    destruct (nth_error per i) as [records|] eqn:En;
      [|apply nth_error_None in En; lia].
    assert (Hin : In records per) by (eapply nth_error_In; exact En).
    destruct (adapt_records_events k records) as (es & Er & Hes).
    { exact (proj1 (Forall_forall _ _) Hwf records Hin). }
    { exact (proj1 (Forall_forall _ _) Ht records Hin). }
    destruct (IH (S i) ltac:(lia) Hwf Ht) as (es' & El & Hes').
    rewrite Er, El. exists (es ++ es'). split; [reflexivity|].
    assert (Hs : skipn i per = records :: skipn (S i) per).
    { clear - En. revert i En. induction per as [|h per IHp]; intros [|i] En;
        cbn in En; try discriminate.
      - injection En as ->. reflexivity.
      - cbn [skipn]. apply IHp. exact En. }
    rewrite Hs. cbn [firstn concat]. apply Forall2_app; assumption.
Qed.

(** On a capture with one record list per device whose record types are
    all 0, 1 or 2, [adapt_events] hands the callback exactly one event per
    record, device after device and in the order of the records; each
    event carries the process id and the raw (unconverted) timestamp of its
    record. *)
Theorem adapt_events_one_event_per_record
    (k : GpuvisNvtrc.host_constants) (fd : FileData) :
  Forall (Forall wf_RecordGpuCtxSw) (perDeviceData fd) ->
  length (perDeviceData fd) = length (deviceDescs fd) ->
  Forall (Forall (fun r => type r < 3)) (perDeviceData fd) ->
  exists events,
    GpuvisNvtrc.adapt_events k fd = Some events /\
    Forall2 adapted_from (concat (perDeviceData fd)) events.
Proof.
  intros Hwf Hlen Ht. unfold GpuvisNvtrc.adapt_events.
  destruct (adapt_events_loop_events k (perDeviceData fd)
              (length (deviceDescs fd)) 0 ltac:(lia) Hwf Ht) as (events & E & Hev).
  exists events. split; [exact E|].
  cbn [skipn] in Hev. rewrite <- Hlen, firstn_all in Hev. exact Hev.
Qed.

Lemma adapt_events_one_event_per_record_witness :
  exists events,
    GpuvisNvtrc.adapt_events (GpuvisNvtrc.mk_host_constants (-1) 1) sample_capture
    = Some events /\
    Forall2 adapted_from (concat (perDeviceData sample_capture)) events.
Proof.
  apply (adapt_events_one_event_per_record
           (GpuvisNvtrc.mk_host_constants (-1) 1) sample_capture).
  - repeat constructor; unfold in_unsigned, in_signed; cbn; lia.
  - reflexivity.
  - repeat constructor.
Defined.

Lemma adapt_events_loop_out_of_bounds k per n : forall i,
  (i <= length per)%nat -> (length per < i + n)%nat ->
  GpuvisNvtrc.adapt_events_loop k per i n = None.
Proof.
  induction n as [|n IH]; intros i Hi Hn; [lia|].
  cbn [GpuvisNvtrc.adapt_events_loop]. rewrite array_get_nth.
  destruct (nth_error per i) as [records|] eqn:En; [|reflexivity].
  assert (Hlt : (i < length per)%nat) by (apply nth_error_Some; congruence).
  rewrite (IH (S i)) by lia.
  destruct (GpuvisNvtrc.adapt_records k records); reflexivity.
Qed.

(** [adapt_events] runs over the device descriptors and indexes
    [perDeviceData] with the same index: on a capture with fewer record
    lists than descriptors the index leaves the vector, whatever the
    records are. *)
Theorem adapt_events_missing_record_list
    (k : GpuvisNvtrc.host_constants) (fd : FileData) :
  (length (perDeviceData fd) < length (deviceDescs fd))%nat ->
  GpuvisNvtrc.adapt_events k fd = None.
Proof.
  intros Hlen. unfold GpuvisNvtrc.adapt_events.
  apply adapt_events_loop_out_of_bounds; lia.
Qed.

Lemma adapt_events_missing_record_list_witness :
  GpuvisNvtrc.adapt_events (GpuvisNvtrc.mk_host_constants (-1) 1)
    (mk_FileData [zero_init] []) = None.
Proof.
  apply (adapt_events_missing_record_list
           (GpuvisNvtrc.mk_host_constants (-1) 1) (mk_FileData [zero_init] [])).
  by_compute.
Defined.

Lemma adapt_events_loop_app k per extra n : forall i,
  (i + n <= length per)%nat ->
  GpuvisNvtrc.adapt_events_loop k (per ++ extra) i n
  = GpuvisNvtrc.adapt_events_loop k per i n.
Proof.
  induction n as [|n IH]; intros i Hlen; [reflexivity|].
  cbn [GpuvisNvtrc.adapt_events_loop]. rewrite !array_get_nth.
  rewrite nth_error_app1 by lia. rewrite (IH (S i)) by lia. reflexivity.
Qed.

(** Record lists beyond the number of device descriptors are never looked
    at: they change nothing to the events. *)
Theorem adapt_events_ignores_extra_lists
    (k : GpuvisNvtrc.host_constants) (descs : list DeviceDesc)
    (per extra : list (list RecordGpuCtxSw)) :
  (length descs <= length per)%nat ->
  GpuvisNvtrc.adapt_events k (mk_FileData descs (per ++ extra))
  = GpuvisNvtrc.adapt_events k (mk_FileData descs per).
Proof.
  intros Hlen. unfold GpuvisNvtrc.adapt_events. cbn [perDeviceData deviceDescs].
  apply adapt_events_loop_app. lia.
Qed.

Lemma adapt_events_ignores_extra_lists_witness :
  GpuvisNvtrc.adapt_events (GpuvisNvtrc.mk_host_constants (-1) 1)
    (mk_FileData [zero_init] ([[sample_in]] ++ [[mk_RecordGpuCtxSw 1 7 0 0 0]]))
  = GpuvisNvtrc.adapt_events (GpuvisNvtrc.mk_host_constants (-1) 1)
      (mk_FileData [zero_init] [[sample_in]]).
Proof.
  apply (adapt_events_ignores_extra_lists (GpuvisNvtrc.mk_host_constants (-1) 1)
           [zero_init] [[sample_in]] [[mk_RecordGpuCtxSw 1 7 0 0 0]]).
  by_compute.
Defined.

(** ** [adapt_trace_info] *)

Lemma string_append_assoc (a b c : string) :
  ((a ++ b) ++ c = a ++ (b ++ c))%string.
Proof.
  induction a as [|x a IH]; [reflexivity|]. cbn [append]. rewrite IH. reflexivity.
Qed.

Lemma string_append_empty_r (a : string) : (a ++ "" = a)%string.
Proof. induction a as [|x a IH]; [reflexivity|]. cbn [append]. rewrite IH. reflexivity. Qed.

Lemma adapt_trace_info_loop_next descs : forall labels j u m,
  Forall2 (fun d l => device_uname d = Some l) descs labels ->
  GpuvisNvtrc.adapt_trace_info_loop descs (S j) u m
  = Some ((u ++ fold_right (fun l acc => "&" ++ l ++ acc) "" labels)%string,
          fold_left Z.min (map cpuTimestampStart descs) m).
Proof.
  induction descs as [|d descs IH]; intros labels j u m HL.
  - inversion HL; subst. cbn. rewrite string_append_empty_r. reflexivity.
  - inversion HL as [|? l ? ls Hd HL']; subst.
    cbn [GpuvisNvtrc.adapt_trace_info_loop map fold_left fold_right].
    unfold device_uname in Hd.
    destruct (GpuvisNvtrc.c_str (name d)) as [s|]; [|discriminate].
    assert (Hl : l = ("nvgpu(" ++ string_of_list_byte s ++ ")")%string)
      by congruence.
    clear Hd HL. rewrite <- Hl. cbn [Nat.ltb Nat.leb].
    rewrite (IH ls (S j) _ _ HL'). f_equal. f_equal.
    rewrite !string_append_assoc. reflexivity.
Qed.

Lemma concat_amp (labels : list string) : forall l : string,
  (l ++ fold_right (fun x acc => "&" ++ x ++ acc) "" labels)%string
  = String.concat "&" (l :: labels).
Proof.
  induction labels as [|x labels IH]; intros l.
  - cbn. apply string_append_empty_r.
  - cbn [fold_right]. rewrite (IH x).
    change (String.concat "&" (l :: x :: labels))
      with (l ++ "&" ++ String.concat "&" (x :: labels))%string.
    reflexivity.
Qed.

Lemma adapt_trace_info_loop_first descs labels u m :
  Forall2 (fun d l => device_uname d = Some l) descs labels ->
  GpuvisNvtrc.adapt_trace_info_loop descs 0 u m
  = Some ((u ++ String.concat "&" labels)%string,
          fold_left Z.min (map cpuTimestampStart descs) m).
Proof.
  intros HL. destruct HL as [|d l descs labels Hd HL].
  - cbn. rewrite string_append_empty_r. reflexivity.
  - cbn [GpuvisNvtrc.adapt_trace_info_loop map fold_left].
    unfold device_uname in Hd.
    destruct (GpuvisNvtrc.c_str (name d)) as [s|]; [|discriminate].
    assert (Hl : l = ("nvgpu(" ++ string_of_list_byte s ++ ")")%string)
      by congruence.
    clear Hd. rewrite <- Hl. cbn [Nat.ltb Nat.leb].
    rewrite (adapt_trace_info_loop_next descs labels 0 _ _ HL).
    rewrite string_append_assoc, concat_amp. reflexivity.
Qed.

(** When every device name is terminated, [adapt_trace_info] appends to
    the [uname] it is given the pieces [nvgpu(NAME)] of the devices, in
    order and joined by [&]; it sets [file] to the file name, [cpus] to 0
    and [timestamp_in_us], and keeps what [uname] held before. *)
Theorem adapt_trace_info_uname
    (trace_info : GpuvisNvtrc.trace_info_t) (fd : FileData) (filename : string)
    (labels : list string) :
  Forall2 (fun d l => device_uname d = Some l) (deviceDescs fd) labels ->
  exists trace_info',
    GpuvisNvtrc.adapt_trace_info trace_info fd filename = Some trace_info' /\
    GpuvisNvtrc.uname trace_info'
    = (GpuvisNvtrc.uname trace_info ++ String.concat "&" labels)%string /\
    GpuvisNvtrc.file trace_info' = filename /\
    GpuvisNvtrc.cpus trace_info' = 0 /\
    GpuvisNvtrc.timestamp_in_us trace_info' = true.
Proof.
  intros HL. unfold GpuvisNvtrc.adapt_trace_info.
  rewrite (adapt_trace_info_loop_first _ labels _ _ HL).
  eexists. repeat split.
Qed.

Lemma adapt_trace_info_uname_witness :
  exists trace_info',
    GpuvisNvtrc.adapt_trace_info (GpuvisNvtrc.mk_trace_info_t "host" false 8 "" 0)
      (mk_FileData [SetName zero_init (list_byte_of_string "A");
                    SetName zero_init (list_byte_of_string "B")] [[]; []])
      "capture.nvtrc"
    = Some trace_info' /\
    GpuvisNvtrc.uname trace_info'
    = ("host" ++ String.concat "&" ["nvgpu(A)"; "nvgpu(B)"])%string /\
    GpuvisNvtrc.file trace_info' = "capture.nvtrc"%string /\
    GpuvisNvtrc.cpus trace_info' = 0 /\
    GpuvisNvtrc.timestamp_in_us trace_info' = true.
Proof.
  apply (adapt_trace_info_uname (GpuvisNvtrc.mk_trace_info_t "host" false 8 "" 0)
           (mk_FileData [SetName zero_init (list_byte_of_string "A");
                         SetName zero_init (list_byte_of_string "B")] [[]; []])
           "capture.nvtrc" ["nvgpu(A)"; "nvgpu(B)"]%string).
  repeat constructor.
Defined.

Lemma fold_left_min_spec (l : list Z) : forall m,
  fold_left Z.min l m <= m /\
  Forall (fun x => fold_left Z.min l m <= x) l /\
  (fold_left Z.min l m = m \/ In (fold_left Z.min l m) l).
Proof.
  induction l as [|x l IH]; intros m; cbn [fold_left].
  - split; [lia|]. split; [constructor | left; reflexivity].
  - destruct (IH (Z.min m x)) as (H1 & H2 & H3).
    split; [lia|]. split; [constructor; [lia | exact H2]|].
    destruct H3 as [H3|H3]; [|right; right; exact H3].
    destruct (Z.min_spec m x) as [[_ E]|[_ E]].
    + left. rewrite H3. exact E.
    + right. left. rewrite H3. symmetry. exact E.
Qed.

Lemma adapt_trace_info_loop_min descs : forall i u m u' m',
  GpuvisNvtrc.adapt_trace_info_loop descs i u m = Some (u', m') ->
  m' = fold_left Z.min (map cpuTimestampStart descs) m.
Proof.
  induction descs as [|d descs IH]; intros i u m u' m' E;
    cbn [GpuvisNvtrc.adapt_trace_info_loop] in E.
  - injection E as _ <-. reflexivity.
  - destruct (GpuvisNvtrc.c_str (name d)); [|discriminate].
    apply IH in E. exact E.
Qed.

(** The [min_file_ts] that [adapt_trace_info] sets is the smallest CPU
    start timestamp of the devices, and [INT64_MAX] when the capture has no
    device. *)
Theorem adapt_trace_info_min_file_ts
    (trace_info trace_info' : GpuvisNvtrc.trace_info_t) (fd : FileData)
    (filename : string) :
  GpuvisNvtrc.adapt_trace_info trace_info fd filename = Some trace_info' ->
  let ts := GpuvisNvtrc.min_file_ts trace_info' in
  ts <= GpuvisNvtrc.INT64_MAX /\
  Forall (fun d => ts <= cpuTimestampStart d) (deviceDescs fd) /\
  (ts = GpuvisNvtrc.INT64_MAX \/
   Exists (fun d => ts = cpuTimestampStart d) (deviceDescs fd)) /\
  (deviceDescs fd = [] -> ts = GpuvisNvtrc.INT64_MAX).
Proof.
  intros E ts. unfold GpuvisNvtrc.adapt_trace_info in E.
  destruct (GpuvisNvtrc.adapt_trace_info_loop (deviceDescs fd) 0
              (GpuvisNvtrc.uname trace_info) GpuvisNvtrc.INT64_MAX)
    as [[u' m']|] eqn:El; [|discriminate].
  apply adapt_trace_info_loop_min in El.
  injection E as <-. subst ts m'.
  cbn [GpuvisNvtrc.min_file_ts]. unfold GpuvisNvtrc.rdtsc_to_us.
  destruct (fold_left_min_spec (map cpuTimestampStart (deviceDescs fd))
              GpuvisNvtrc.INT64_MAX) as (H1 & H2 & H3).
  split; [exact H1|]. split; [|split].
  - apply Forall_forall. intros d Hd.
    apply (proj1 (Forall_forall _ _) H2 (cpuTimestampStart d)).
    apply in_map. exact Hd.
  - destruct H3 as [H3|H3]; [left; exact H3|right].
    apply in_map_iff in H3. destruct H3 as (d & Hd & Hin).
    apply Exists_exists. exists d. split; [exact Hin | symmetry; exact Hd].
  - intros ->. reflexivity.
Qed.

(** For three devices whose CPU clocks start at 500, 300 and 400 the
    stored [min_file_ts] is 300, the start of the second device. *)
Lemma adapt_trace_info_min_file_ts_witness :
  GpuvisNvtrc.adapt_trace_info (GpuvisNvtrc.mk_trace_info_t "" false 8 "" 0)
    three_device_capture "f"
  = Some (GpuvisNvtrc.mk_trace_info_t "nvgpu(GPU0)&nvgpu(GPU1)&nvgpu(GPU2)"
            true 0 "f" 300) /\
  map cpuTimestampStart (deviceDescs three_device_capture) = [500; 300; 400] /\
  300 <= GpuvisNvtrc.INT64_MAX /\
  Forall (fun d => 300 <= cpuTimestampStart d) (deviceDescs three_device_capture) /\
  (300 = GpuvisNvtrc.INT64_MAX \/
   Exists (fun d => 300 = cpuTimestampStart d) (deviceDescs three_device_capture)).
Proof.
  assert (E : GpuvisNvtrc.adapt_trace_info
                (GpuvisNvtrc.mk_trace_info_t "" false 8 "" 0) three_device_capture "f"
              = Some (GpuvisNvtrc.mk_trace_info_t
                        "nvgpu(GPU0)&nvgpu(GPU1)&nvgpu(GPU2)" true 0 "f" 300))
    by (vm_compute; reflexivity).
  split; [exact E|]. split; [reflexivity|].
  pose proof (adapt_trace_info_min_file_ts _ _ _ _ E) as (H1 & H2 & H3 & _).
  split; [exact H1|]. split; [exact H2 | exact H3].
Defined.

(** Reading a buffer as a C string leaves the buffer exactly when it
    holds no null byte. *)
Lemma c_str_None (buf : list byte) :
  GpuvisNvtrc.c_str buf = None <-> ~ In Byte.x00 buf.
Proof.
  induction buf as [|b t IH]; cbn [GpuvisNvtrc.c_str In].
  - split; [intros _ [] | reflexivity].
  - destruct (Byte.eqb b Byte.x00) eqn:E.
    + apply Byte.byte_dec_bl in E. subst b.
      split; [discriminate | intros Hn; exfalso; apply Hn; left; reflexivity].
    + destruct (GpuvisNvtrc.c_str t) as [s|].
      * split; [discriminate|]. intros Hn.
        assert (Hs : Some s = None)
          by (apply IH; intros Ht; apply Hn; right; exact Ht).
        discriminate Hs.
      * split; [|reflexivity]. intros _ [Hb|Ht].
        -- subst b. rewrite (Byte.byte_dec_lb eq_refl) in E. discriminate E.
        -- apply (proj1 IH eq_refl). exact Ht.
Qed.

Lemma adapt_trace_info_None
    (trace_info : GpuvisNvtrc.trace_info_t) (fd : FileData) (filename : string) :
  GpuvisNvtrc.adapt_trace_info trace_info fd filename = None <->
  Exists (fun d => GpuvisNvtrc.c_str (name d) = None) (deviceDescs fd).
Proof.
  unfold GpuvisNvtrc.adapt_trace_info.
  generalize (GpuvisNvtrc.uname trace_info) GpuvisNvtrc.INT64_MAX 0%nat.
  induction (deviceDescs fd) as [|d descs IH]; intros u m i;
    cbn [GpuvisNvtrc.adapt_trace_info_loop].
  - split; [discriminate | intros Hex; inversion Hex].
  - destruct (GpuvisNvtrc.c_str (name d)) as [s|] eqn:Ec.
    + rewrite IH. split.
      * intros Hex. right. exact Hex.
      * intros Hex. inversion Hex as [? ? Hd|? ? Hr]; subst;
          [congruence | exact Hr].
    + split; [intros _; left; exact Ec | reflexivity].
Qed.

(** Nothing between the file and [adapt_trace_info] looks for the
    terminator of a device name.  [WriteFileData] and [ReadFileData] copy
    the 239 bytes of a name buffer as they are, so a capture with a name
    buffer that holds no null byte is written, and its file is decoded
    successfully to the same capture; [adapt_trace_info] then builds the
    name with [std::string(char const* )], which looks for the terminator
    past the end of the array.  The embedding gives that read, and with it
    [read_nvtrc_file], no result. *)
Theorem read_nvtrc_file_unterminated_name
    (k : GpuvisNvtrc.host_constants) (fd : FileData) (filename : string)
    (trace_info : GpuvisNvtrc.trace_info_t) :
  wf_FileData fd ->
  length (perDeviceData fd) = length (deviceDescs fd) ->
  sizes_fit fd ->
  Exists (fun d => ~ In Byte.x00 (name d)) (deviceDescs fd) ->
  fst (WriteFileData true fd) = true /\
  (exists ifs,
      ReadFileData (Some (snd (WriteFileData true fd))) FileData_empty
      = (Returned true, fd, ifs)) /\
  GpuvisNvtrc.adapt_trace_info trace_info fd filename = None /\
  GpuvisNvtrc.read_nvtrc_file k (Some (snd (WriteFileData true fd)))
    filename trace_info
  = None.
Proof.
  intros Hwf Hlen Hfit Hex.
  destruct (ReadFileData_WriteFileData fd FileData_empty Hwf Hfit Hlen)
    as [Hw [ifs R]].
  assert (Ha : GpuvisNvtrc.adapt_trace_info trace_info fd filename = None).
  { apply adapt_trace_info_None. apply Exists_exists.
    apply Exists_exists in Hex. destruct Hex as (d & Hin & Hd).
    exists d. split; [exact Hin | apply c_str_None; exact Hd]. }
  split; [exact Hw|]. split; [exists ifs; exact R|]. split; [exact Ha|].
  unfold GpuvisNvtrc.read_nvtrc_file. rewrite R, Ha. reflexivity.
Qed.

(** A capture whose only device has a name buffer filled with the letter
    x: the file is 336 bytes long and is decoded, and the loader then
    leaves the name buffer. *)
Lemma read_nvtrc_file_unterminated_name_witness :
  name filled_desc = repeat Byte.x78 239 /\
  length (snd (WriteFileData true (mk_FileData [filled_desc] [[sample_in]])))
  = 336%nat /\
  fst (ReadFileData
         (Some (snd (WriteFileData true (mk_FileData [filled_desc] [[sample_in]]))))
         FileData_empty)
  = (Returned true, mk_FileData [filled_desc] [[sample_in]]) /\
  GpuvisNvtrc.read_nvtrc_file (GpuvisNvtrc.mk_host_constants (-1) 1)
    (Some (snd (WriteFileData true (mk_FileData [filled_desc] [[sample_in]]))))
    "capture.nvtrc" (GpuvisNvtrc.mk_trace_info_t "" false 8 "" 0)
  = None.
Proof.
  destruct (read_nvtrc_file_unterminated_name
              (GpuvisNvtrc.mk_host_constants (-1) 1)
              (mk_FileData [filled_desc] [[sample_in]]) "capture.nvtrc"
              (GpuvisNvtrc.mk_trace_info_t "" false 8 "" 0))
    as (_ & (ifs & R) & _ & Hload).
  - split.
    + constructor; [exact wf_filled_desc | constructor].
    + constructor; [|constructor]. constructor; [exact wf_sample_in | constructor].
  - reflexivity.
  - split; [unfold byte_count; cbn; lia|].
    constructor; [unfold byte_count; cbn; lia | constructor].
  - constructor. cbn [name filled_desc]. intros Hin.
    apply repeat_spec in Hin. discriminate Hin.
  - split; [reflexivity|]. split; [vm_compute; reflexivity|].
    split; [rewrite R; reflexivity | exact Hload].
Defined.

(** ** Loading a written file *)

Lemma name_fits_labels (descs : list DeviceDesc) :
  Forall name_fits descs ->
  exists labels, Forall2 (fun d l => device_uname d = Some l) descs labels.
Proof.
  induction 1 as [|d descs [s Hs] _ [labels IH]].
  - exists []. constructor.
  - eexists (_ :: labels). constructor; [|exact IH].
    unfold device_uname. rewrite Hs. reflexivity.
Qed.

(** Writing a capture and loading the file with [read_nvtrc_file]: when
    the capture is made of valid objects, has one record list per device
    and arrays below [2 ^ 31] bytes, terminated device names and record
    types 0, 1 or 2, the load succeeds, the callback receives one event per
    record in file order, and [trace_info] names the file. *)
Theorem read_nvtrc_file_written
    (k : GpuvisNvtrc.host_constants) (fd : FileData) (filename : string)
    (trace_info : GpuvisNvtrc.trace_info_t) :
  wf_FileData fd ->
  length (perDeviceData fd) = length (deviceDescs fd) ->
  sizes_fit fd ->
  Forall name_fits (deviceDescs fd) ->
  Forall (Forall (fun r => type r < 3)) (perDeviceData fd) ->
  exists trace_info' events,
    GpuvisNvtrc.read_nvtrc_file k (Some (snd (WriteFileData true fd)))
      filename trace_info
    = Some (Returned true, trace_info', events) /\
    Forall2 adapted_from (concat (perDeviceData fd)) events /\
    GpuvisNvtrc.file trace_info' = filename.
Proof.
  intros Hwf Hlen Hfit Hnames Htypes.
  destruct (ReadFileData_WriteFileData fd FileData_empty Hwf Hfit Hlen)
    as [_ [ifs R]].
  destruct (name_fits_labels _ Hnames) as [labels HL].
  destruct (adapt_events_loop_events k (perDeviceData fd)
              (length (deviceDescs fd)) 0 ltac:(lia) (proj2 Hwf) Htypes)
    as (events & E & Hev).
  unfold GpuvisNvtrc.read_nvtrc_file. rewrite R.
  unfold GpuvisNvtrc.adapt_trace_info, GpuvisNvtrc.adapt_events.
  rewrite (adapt_trace_info_loop_first _ labels _ _ HL), E.
  eexists _, events. split; [reflexivity|]. split; [|reflexivity].
  cbn [skipn] in Hev. rewrite <- Hlen, firstn_all in Hev. exact Hev.
Qed.

Lemma read_nvtrc_file_written_witness :
  exists trace_info' events,
    GpuvisNvtrc.read_nvtrc_file (GpuvisNvtrc.mk_host_constants (-1) 1)
      (Some (snd (WriteFileData true sample_capture))) "capture.nvtrc"
      (GpuvisNvtrc.mk_trace_info_t "" false 8 "" 0)
    = Some (Returned true, trace_info', events) /\
    Forall2 adapted_from (concat (perDeviceData sample_capture)) events /\
    GpuvisNvtrc.file trace_info' = "capture.nvtrc"%string.
Proof.
  apply (read_nvtrc_file_written (GpuvisNvtrc.mk_host_constants (-1) 1)
           sample_capture "capture.nvtrc"
           (GpuvisNvtrc.mk_trace_info_t "" false 8 "" 0)).
  - split; repeat constructor; unfold in_unsigned, in_signed; cbn; lia.
  - reflexivity.
  - split; repeat constructor; unfold byte_count; cbn; lia.
  - constructor; [|constructor]. eexists. vm_compute. reflexivity.
  - repeat constructor.
Defined.

(** ** Text output *)

Lemma string_length_append (a b : string) :
  String.length (a ++ b) = (String.length a + String.length b)%nat.
Proof.
  induction a as [|x a IH]; [reflexivity|]. cbn [append String.length].
  rewrite IH. reflexivity.
Qed.



Lemma put_width0 os body :
  fmt_width os = 0%nat ->
  put os "" body
  = mk_ostream (fmt_text os ++ body) (fmt_base os) (fmt_adjust os) (fmt_fill os) 0.
Proof.
  intros Hw. unfold put, padded. rewrite Hw. cbn [Nat.sub fill_string repeat
    string_of_list_ascii].
  destruct (fmt_adjust os); cbn [append]; rewrite ?string_append_empty_r;
    reflexivity.
Qed.

Lemma printBytes_text (bs : list byte) : forall oss,
  fmt_base oss = hex -> fmt_width oss = 0%nat ->
  fold_left (fun o b => put_unsigned o (Z.to_N (byte.unsigned b))) bs oss
  = mk_ostream (fmt_text oss ++ hex_of_bytes bs) hex (fmt_adjust oss) (fmt_fill oss) 0.
Proof.
  induction bs as [|b bs IH]; intros oss Hb Hw.
  - cbn. rewrite string_append_empty_r. destruct oss; cbn in *; subst; reflexivity.
  - cbn [fold_left hex_of_bytes fold_right]. unfold put_unsigned.
    rewrite put_width0 by exact Hw. rewrite Hb.
    rewrite IH by reflexivity.
    cbn [fmt_text fmt_adjust fmt_fill]. rewrite string_append_assoc.
    reflexivity.
Qed.

(** [PrintableUuid] in closed form: five groups of 4, 2, 2, 2 and 6 bytes
    separated by dashes. *)
Lemma PrintableUuid_groups (uuid : list byte) :
  PrintableUuid uuid
  = (hex_of_bytes (firstn 4 uuid) ++ "-"
     ++ hex_of_bytes (firstn 2 (skipn 4 uuid)) ++ "-"
     ++ hex_of_bytes (firstn 2 (skipn 6 uuid)) ++ "-"
     ++ hex_of_bytes (firstn 2 (skipn 8 uuid)) ++ "-"
     ++ hex_of_bytes (firstn 6 (skipn 10 uuid)))%string.
Proof.
  unfold PrintableUuid, printBytes, put_string.
  cbn [Nat.add]. change (skipn 0 uuid) with uuid.
  rewrite (printBytes_text (firstn 4 uuid) (set_base hex ostringstream))
    by reflexivity.
  repeat match goal with
  | |- context [put (mk_ostream ?t ?b ?a ?f ?w) "" ?s] =>
      rewrite (put_width0 (mk_ostream t b a f w) s) by reflexivity;
      cbn [fmt_text fmt_base fmt_adjust fmt_fill]
  | |- context [fold_left _ ?bs (mk_ostream ?t ?b ?a ?f ?w)] =>
      rewrite (printBytes_text bs (mk_ostream t b a f w)) by reflexivity;
      cbn [fmt_text fmt_base fmt_adjust fmt_fill]
  end.
  cbn [set_base ostringstream fmt_text fmt_base fmt_adjust fmt_fill].
  rewrite !string_append_assoc. reflexivity.
Qed.

Lemma hex_byte_length (b : byte) :
  String.length (digits_string hex (Z.to_N (byte.unsigned b)))
  = if two_digits b then 2%nat else 1%nat.
Proof. destruct b; reflexivity. Qed.

Lemma hex_of_bytes_length (bs : list byte) :
  String.length (hex_of_bytes bs) = (length bs + length (filter two_digits bs))%nat.
Proof.
  induction bs as [|b bs IH]; [reflexivity|].
  cbn [hex_of_bytes fold_right filter length].
  fold (hex_of_bytes bs).
  rewrite string_length_append, hex_byte_length, IH.
  destruct (two_digits b); cbn [length]; lia.
Qed.

Lemma filter_length_sum {A} (f : A -> bool) (l : list A) :
  length (filter f l) = list_sum (map (fun x => if f x then 1%nat else 0%nat) l).
Proof.
  induction l as [|x l IH]; [reflexivity|].
  cbn [filter map list_sum]. destruct (f x); cbn [length]; rewrite IH; reflexivity.
Qed.

(** The text of a 16-byte UUID has one character per byte, one more for
    each byte of value 16 or more, and four dashes: between 20 and 36
    characters, and 36 only when no byte is below 16. *)
Theorem PrintableUuid_length (uuid : list byte) :
  length uuid = 16%nat ->
  String.length (PrintableUuid uuid)
  = (20 + length (filter two_digits uuid))%nat /\
  (20 <= String.length (PrintableUuid uuid) <= 36)%nat /\
  (String.length (PrintableUuid uuid) = 36%nat <-> forallb two_digits uuid = true).
Proof.
  intros Hlen.
  assert (E : String.length (PrintableUuid uuid)
              = (20 + length (filter two_digits uuid))%nat).
  { rewrite PrintableUuid_groups.
    rewrite !string_length_append, !hex_of_bytes_length.
    rewrite !filter_length_sum.
    do 16 (destruct uuid as [|? uuid]; [discriminate|]).
    destruct uuid; [|discriminate].
    cbn [firstn skipn map length String.length].
    unfold list_sum. cbn [fold_right]. lia. }
  pose proof (filter_length_le two_digits uuid) as Hle.
  split; [exact E|]. split; [lia|].
  rewrite E. split.
  - intros H36. apply forallb_forall.
    assert (Hf : length (filter two_digits uuid) = length uuid) by lia.
    clear - Hf. induction uuid as [|b uuid IH]; intros x Hx; [contradiction|].
    cbn [filter] in Hf. pose proof (filter_length_le two_digits uuid) as Hle.
    destruct (two_digits b) eqn:Eb; cbn [length] in Hf; [|lia].
    destruct Hx as [<-|Hx]; [exact Eb|]. apply IH; [lia | exact Hx].
  - intros Hall. assert (Hf : filter two_digits uuid = uuid).
    { clear - Hall. induction uuid as [|b uuid IH]; [reflexivity|].
      cbn [forallb] in Hall. apply andb_true_iff in Hall. destruct Hall as [Hb Hr].
      cbn [filter]. rewrite Hb, IH by exact Hr. reflexivity. }
    rewrite Hf. lia.
Qed.

Lemma PrintableUuid_length_witness :
  String.length (PrintableUuid (repeat Byte.xff 16))
  = (20 + length (filter two_digits (repeat Byte.xff 16)))%nat.
Proof.
  exact (proj1 (PrintableUuid_length (repeat Byte.xff 16) eq_refl)).
Defined.

(** [PrintableUuid] prints the bytes without padding them to two digits,
    so different UUIDs share their text: the bytes 01 10 and the bytes
    11 00 at the start of a UUID both print as 110. *)
Theorem PrintableUuid_not_injective (rest : list byte) :
  length rest = 14%nat ->
  Byte.x01 :: Byte.x10 :: rest <> Byte.x11 :: Byte.x00 :: rest /\
  PrintableUuid (Byte.x01 :: Byte.x10 :: rest)
  = PrintableUuid (Byte.x11 :: Byte.x00 :: rest).
Proof.
  intros _. split; [discriminate|].
  rewrite !PrintableUuid_groups.
  destruct rest as [|b2 [|b3 rest]]; reflexivity.
Qed.

Lemma PrintableUuid_not_injective_witness :
  PrintableUuid (Byte.x01 :: Byte.x10 :: repeat Byte.x00 14)
  = PrintableUuid (Byte.x11 :: Byte.x00 :: repeat Byte.x00 14).
Proof.
  exact (proj2 (PrintableUuid_not_injective (repeat Byte.x00 14) eq_refl)).
Defined.







(** The text and the state that [print_record] produces. *)
Lemma print_record_text (os : ostream) (r : RecordGpuCtxSw) :
  fmt_width os = 0%nat ->
  let d1 := digits_string hex (Z.to_N (wrap_u 64 (timestamp r))) in
  let d3 := digits_string dec (Z.to_N (processId r)) in
  let d4 := digits_string hex (Z.to_N (contextHandle r)) in
  print_record os r
  = mk_ostream
      (fmt_text os ++ tab ++ "Timestamp: 0x"
       ++ (fill_string "0" (16 - String.length d1) ++ d1)
       ++ " | Event: "
       ++ (record_type_label r
           ++ fill_string " " (13 - String.length (record_type_label r)))
       ++ " | PID: "
       ++ (d3 ++ fill_string " " (10 - String.length d3))
       ++ " | ContextID: 0x"
       ++ (fill_string "0" (8 - String.length d4) ++ d4)
       ++ newline)
      dec adj_right "0"%char 0.
Proof.
  intros Hw d1 d3 d4. destruct os as [text b a f w]. cbn in Hw. subst w.
  cbv beta iota zeta delta
    [print_record put_string put_signed put_unsigned put padded set_base
     set_adjust setfill setw fmt_text fmt_base fmt_adjust fmt_fill fmt_width].
  fold d1 d3 d4.
  cbn [Nat.sub String.length Nat.add fill_string repeat string_of_list_ascii append].
  f_equal.
  assert (Ha : match a with
               | adj_left => ((tab ++ "Timestamp: 0x") ++ "")%string
               | _ => (tab ++ "Timestamp: 0x")%string
               end = (tab ++ "Timestamp: 0x")%string).
  { destruct a; [apply string_append_empty_r | reflexivity | reflexivity]. }
  rewrite Ha. rewrite ?string_append_empty_r, !string_append_assoc.
  reflexivity.
Qed.



Lemma put_state os sign body :
  fmt_state (put os sign body) = (fmt_base os, fmt_adjust os, fmt_fill os, 0%nat).
Proof. reflexivity. Qed.

Lemma put_signed_state bits os z :
  fmt_state (put_signed bits os z) = (fmt_base os, fmt_adjust os, fmt_fill os, 0%nat).
Proof.
  unfold put_signed. destruct (fmt_base os) eqn:Eb; try destruct (z <? 0);
    rewrite put_state, Eb; reflexivity.
Qed.

Lemma fmt_state_fields os b a f w :
  fmt_state os = (b, a, f, w) ->
  fmt_base os = b /\ fmt_adjust os = a /\ fmt_fill os = f /\ fmt_width os = w.
Proof. unfold fmt_state. intros [= <- <- <- <-]. repeat split. Qed.

Lemma device_header_state os d :
  fmt_state (put_string (put_signed 32 (put_string os "Device ") (Z.of_nat d))
                        (" records:" ++ newline))
  = (fmt_base os, fmt_adjust os, fmt_fill os, 0%nat).
Proof.
  unfold put_string. rewrite put_state.
  destruct (fmt_state_fields _ _ _ _ _ (put_signed_state 32 (put os "" "Device ")
                                          (Z.of_nat d))) as (-> & -> & -> & _).
  reflexivity.
Qed.

Lemma print_records_state (records : list RecordGpuCtxSw) : forall os,
  fmt_width os = 0%nat -> records <> [] ->
  fmt_state (fold_left print_record records os) = (dec, adj_right, "0"%char, 0%nat).
Proof.
  induction records as [|r records IH]; intros os Hw Hne; [contradiction|].
  cbn [fold_left]. rewrite (print_record_text os r Hw).
  destruct records as [|r' records]; [reflexivity|].
  apply IH; [reflexivity | discriminate].
Qed.

Lemma print_devices_keeps_state (per : list (list RecordGpuCtxSw)) : forall os d,
  fmt_state os = (dec, adj_right, "0"%char, 0%nat) ->
  fmt_state (print_devices os d per) = (dec, adj_right, "0"%char, 0%nat).
Proof.
  induction per as [|records per IH]; intros os d Hs; [exact Hs|].
  cbn [print_devices]. apply IH.
  pose proof (device_header_state os d) as Hh.
  destruct (fmt_state_fields _ _ _ _ _ Hs) as (Eb & Ea & Ef & _).
  rewrite Eb, Ea, Ef in Hh.
  destruct records as [|r records]; [exact Hh|].
  apply print_records_state; [|discriminate].
  apply (fmt_state_fields _ _ _ _ _ Hh).
Qed.

Lemma print_devices_state (per : list (list RecordGpuCtxSw)) : forall os d,
  Exists (fun records => records <> []) per ->
  fmt_state (print_devices os d per) = (dec, adj_right, "0"%char, 0%nat).
Proof.
  induction per as [|records per IH]; intros os d Hex; [inversion Hex|].
  cbn [print_devices].
  pose proof (device_header_state os d) as Hh.
  destruct records as [|r records].
  - apply IH. inversion Hex as [? ? Hne|? ? Hr]; subst; [contradiction | exact Hr].
  - apply print_devices_keeps_state.
    apply print_records_state; [|discriminate].
    apply (fmt_state_fields _ _ _ _ _ Hh).
Qed.

(** [PrettyPrintFileData] does not restore the formatting of the stream it
    is given: once it has listed a record, the stream is left in base 10,
    right-adjusting, and with ['0'] as its fill character, whatever the
    caller had set. *)
Theorem PrettyPrintFileData_leaves_zero_fill
    (os os' : ostream) (fd : FileData) (showDeviceDescs : bool) :
  Exists (fun records => records <> []) (perDeviceData fd) ->
  PrettyPrintFileData os fd showDeviceDescs true = Some os' ->
  fmt_state os' = (dec, adj_right, "0"%char, 0%nat).
Proof.
  intros Hex E. unfold PrettyPrintFileData in E.
  destruct (if showDeviceDescs then print_descs os 0 (deviceDescs fd) else Some os)
    as [os1|]; [|discriminate].
  injection E as <-. apply print_devices_state. exact Hex.
Qed.

Lemma PrettyPrintFileData_leaves_zero_fill_witness :
  fmt_state (print_devices ostringstream 0 (perDeviceData sample_capture))
  = (dec, adj_right, "0"%char, 0%nat).
Proof.
  apply (PrettyPrintFileData_leaves_zero_fill ostringstream
           (print_devices ostringstream 0 (perDeviceData sample_capture))
           sample_capture false).
  - left. discriminate.
  - reflexivity.
Defined.

(** ** What a decode yields *)

Lemma le_signed_range n bs : (0 < n)%nat -> in_signed (8 * Z.of_nat n) (le_signed n bs).
Proof. intros Hn. unfold le_signed. apply wrap_s_range. lia. Qed.

Lemma le_unsigned_range bs n :
  length bs = n -> in_unsigned (8 * Z.of_nat n) (le_unsigned bs).
Proof.
  intros <-. unfold le_unsigned, in_unsigned.
  pose proof (le_combine_bound bs) as Hb. exact Hb.
Qed.

Lemma DeviceDesc_of_bytes_wf (bs : list byte) :
  length bs = sizeof DeviceDesc -> wf_DeviceDesc (of_bytes bs).
Proof.
  cbn [sizeof DeviceDesc_Pod]. intros Hlen.
  unfold wf_DeviceDesc, name_capacity.
  cbn [of_bytes DeviceDesc_Pod uuid name gpuCtxSwTraceError cpuTimestampStart
       gpuTimestampStart cpuTimestampEnd gpuTimestampEnd].
  unfold name_capacity.
  split; [rewrite length_firstn; lia|].
  split; [rewrite length_firstn, length_skipn; lia|].
  split; [apply (le_unsigned_range _ 1); rewrite length_firstn, length_skipn; lia|].
  repeat split; apply (le_signed_range 8); lia.
Qed.

Lemma RecordGpuCtxSw_of_bytes_wf (bs : list byte) :
  length bs = sizeof RecordGpuCtxSw -> wf_RecordGpuCtxSw (of_bytes bs).
Proof.
  cbn [sizeof RecordGpuCtxSw_Pod]. intros Hlen.
  unfold wf_RecordGpuCtxSw.
  cbn [of_bytes RecordGpuCtxSw_Pod category type processId timestamp contextHandle].
  split; [apply (le_unsigned_range _ 2); rewrite length_firstn; lia|].
  split; [apply (le_unsigned_range _ 2); rewrite length_firstn, length_skipn; lia|].
  split; [apply (le_unsigned_range _ 4); rewrite length_firstn, length_skipn; lia|].
  split; [apply (le_signed_range 8); lia|].
  apply (le_unsigned_range _ 8). rewrite length_firstn, length_skipn. lia.
Qed.

Lemma istream_read_length s n :
  0 <= n -> (length (fst (istream_read s n)) <= Z.to_nat n)%nat.
Proof.
  intros Hn. unfold istream_read. destruct (is_fail s); [cbn; lia|].
  destruct (Z.ltb_spec n 0); [lia|].
  destruct (Z.leb_spec n (Z.of_nat (length (is_rest s)))); cbn [fst].
  - rewrite length_firstn. lia.
  - lia.
Qed.

Lemma wrap_s_32_le p : 0 <= p -> wrap_s 32 p <= p.
Proof.
  intros Hp. unfold wrap_s.
  pose proof (Z.mod_le (p + 2 ^ (32 - 1)) (2 ^ 32) ltac:(lia) ltac:(lia)). lia.
Qed.

Section DecodedObjects.
Context {T : Type} `{PodOk T}.
Hypothesis of_bytes_wf : forall bs : list byte, length bs = sizeof T -> wf (of_bytes bs : T).

Lemma vector_of_bytes_wf n : forall mem : list byte,
  length mem = (n * sizeof T)%nat -> Forall wf (vector_of_bytes (T:=T) n mem).
Proof.
  induction n as [|n IH]; intros mem Hlen; [constructor|].
  cbn [vector_of_bytes]. constructor.
  - apply of_bytes_wf. rewrite length_firstn. lia.
  - apply IH. rewrite length_skipn. lia.
Qed.

Lemma store_wf (elem : T) (bs : list byte) :
  wf elem -> (length bs <= sizeof T)%nat -> wf (store elem bs).
Proof.
  intros He Hlen. unfold store. apply of_bytes_wf.
  rewrite overwrite_length; rewrite to_bytes_length by exact He; lia.
Qed.

Lemma read_each_wf (buffer : list T) : forall ifs,
  Forall wf buffer -> Forall wf (fst (read_each ifs buffer)).
Proof.
  induction buffer as [|elem buffer IH]; intros ifs Hwf; [constructor|].
  inversion Hwf as [|? ? He Hb]; subst.
  cbn [read_each]. unfold Read.
  pose proof (istream_read_length ifs (Z.of_nat (sizeof T)) ltac:(lia)) as Hl.
  destruct (istream_read ifs (Z.of_nat (sizeof T))) as [bs ifs1]. cbn [fst] in Hl.
  specialize (IH ifs1 Hb). destruct (read_each ifs1 buffer) as [rest' ifs2].
  cbn [fst] in *. constructor; [|exact IH].
  apply store_wf; [exact He | lia].
Qed.

(** Whatever [ReadVector] leaves in an empty destination is made of valid
    objects. *)
Lemma ReadVector_wf ifs o (v : list T) ifs' :
  ReadVector ifs (@nil T) = (o, v, ifs') -> Forall wf v.
Proof.
  pose proof (sizeof_small (T:=T)) as Hsz.
  unfold ReadVector, Read.
  destruct (istream_read ifs (Z.of_nat (sizeof ArrayHeader))) as [hb ifs1].
  destruct (is_fail ifs1); [intros [= _ <- _]; constructor|].
  set (header := store zero_init hb).
  destruct (Z.ltb_spec (count header) 0) as [Hneg|Hpos];
    [intros [= _ <- _]; constructor|].
  unfold resize. rewrite firstn_nil. cbn [app length]. rewrite Nat.sub_0_r.
  set (n := Z.to_nat (count header)).
  destruct (Z.eqb_spec (wrap_u 64 (elementSize header)) (Z.of_nat (sizeof T)))
    as [Heq|Hne].
  - assert (Hes : in_signed 32 (elementSize header)).
    { unfold header, store. cbn [of_bytes ArrayHeader_Pod elementSize].
      apply (le_signed_range 4). lia. }
    assert (Hes' : elementSize header = Z.of_nat (sizeof T)).
    { unfold in_signed in Hes. change (2 ^ (32 - 1)) with (2 ^ 31) in Hes.
      unfold wrap_u in Heq.
      destruct (Z.ltb_spec (elementSize header) 0) as [Hlt|Hge].
      - replace (elementSize header)
          with (elementSize header + 2 ^ 64 - 1 * 2 ^ 64) in Heq by lia.
        rewrite <- Zminus_mod_idemp_r, Z_mod_mult, Z.sub_0_r in Heq.
        rewrite Z.mod_small in Heq; lia.
      - rewrite Z.mod_small in Heq; lia. }
    rewrite Hes'.
    pose proof (wrap_s_32_le (count header * Z.of_nat (sizeof T)) ltac:(nia)) as Hle.
    pose proof (istream_read_length ifs1
                  (wrap_s 32 (count header * Z.of_nat (sizeof T)))) as Hl.
    destruct (istream_read ifs1 (wrap_s 32 (count header * Z.of_nat (sizeof T))))
      as [bs ifs2] eqn:Er.
    intros [= _ <- _]. rewrite repeat_length. apply vector_of_bytes_wf.
    assert (Hbs : (length bs <= n * sizeof T)%nat).
    { destruct (Z.ltb_spec (wrap_s 32 (count header * Z.of_nat (sizeof T))) 0)
        as [Hn|Hn].
      - unfold istream_read in Er. destruct (is_fail ifs1);
          [injection Er as <- _; cbn; lia|].
        destruct (Z.ltb_spec (wrap_s 32 (count header * Z.of_nat (sizeof T))) 0);
          [injection Er as <- _; cbn; lia | lia].
      - cbn [fst] in Hl. specialize (Hl Hn). unfold n. nia. }
    rewrite overwrite_length; rewrite vector_bytes_repeat_length; lia.
  - destruct (wrap_u 64 (elementSize header) >? Z.of_nat (sizeof T)).
    + pose proof (read_each_wf (repeat zero_init n) ifs1
                    (Forall_wf_repeat_zero n)) as Hw.
      destruct (read_each ifs1 (repeat zero_init n)) as [buffer2 ifs2].
      intros [= _ <- _]. exact Hw.
    + intros [= _ <- _]. apply Forall_wf_repeat_zero.
Qed.
End DecodedObjects.

Lemma read_devices_wf per : forall ifs o per' ifs',
  Forall (fun records => records = []) per ->
  read_devices ifs per = (o, per', ifs') ->
  Forall (Forall wf_RecordGpuCtxSw) per'.
Proof.
  induction per as [|d per IH]; intros ifs o per' ifs' Hnil E;
    cbn [read_devices] in E.
  - injection E as _ <- _. constructor.
  - inversion Hnil as [|? ? Hd Hrest]; subst.
    destruct (ReadVector ifs []) as [[o1 d1] ifs1] eqn:Ev.
    pose proof (ReadVector_wf (T:=RecordGpuCtxSw) RecordGpuCtxSw_of_bytes_wf
                  _ _ _ _ Ev) as Hd1.
    assert (Hper : Forall (Forall wf_RecordGpuCtxSw) per).
    { clear - Hrest. induction Hrest as [|? ? ->]; constructor;
        [constructor | assumption]. }
    destruct o1 as [[|]|].
    + destruct (read_devices ifs1 per) as [[o2 per2] ifs2] eqn:E2.
      injection E as _ <- _. constructor; [exact Hd1|].
      eapply IH; [exact Hrest | exact E2].
    + injection E as _ <- _. constructor; assumption.
    + injection E as _ <- _. constructor; assumption.
Qed.

(** Whatever [ReadFileData] has decoded, from any file, is made of valid
    objects and has one record list per device descriptor; and as long as
    none of its arrays reaches [2 ^ 31] bytes it can be written back and
    read again unchanged. *)
Theorem decoded_capture_reencodes
    (inputFile : option (list byte)) (prior fd : FileData) (ifs : ifstream) :
  ReadFileData inputFile prior = (Returned true, fd, ifs) ->
  wf_FileData fd /\
  length (perDeviceData fd) = length (deviceDescs fd) /\
  (sizes_fit fd ->
   fst (WriteFileData true fd) = true /\
   exists ifs',
     ReadFileData (Some (snd (WriteFileData true fd))) prior
     = (Returned true, fd, ifs')).
Proof.
  intros E.
  assert (Hwf : wf_FileData fd /\ length (perDeviceData fd) = length (deviceDescs fd)).
  { unfold ReadFileData in E.
    destruct inputFile as [file|]; [|discriminate].
    destruct (Read (ifstream_open file) zero_init) as [header ifs1].
    destruct (is_fail ifs1); [discriminate|].
    destruct (negb (bytes_eqb (magic header) nvtrc01Magic)); [discriminate|].
    cbn [deviceDescs perDeviceData FileData_empty] in E.
    destruct (ReadVector ifs1 []) as [[o descs] ifs2] eqn:Ev.
    pose proof (ReadVector_wf (T:=DeviceDesc) DeviceDesc_of_bytes_wf _ _ _ _ Ev) as Hd.
    destruct o as [[|]|]; try discriminate.
    cbn [deviceDescs perDeviceData] in E.
    unfold resize in E. rewrite firstn_nil in E. cbn [app length] in E.
    rewrite Nat.sub_0_r in E.
    destruct (read_devices ifs2 _) as [[o' per'] ifs3] eqn:E3.
    injection E as _ <- _. cbn [deviceDescs perDeviceData].
    split; [split|].
    - exact Hd.
    - eapply read_devices_wf; [|exact E3].
      apply Forall_forall. intros x Hx. apply repeat_spec in Hx. exact Hx.
    - apply read_devices_length in E3. rewrite E3. apply repeat_length. }
  destruct Hwf as [Hwf Hlen]. split; [exact Hwf|]. split; [exact Hlen|].
  intros Hfit. apply ReadFileData_WriteFileData; assumption.
Qed.

(** The file of a newer producer, whose records take 32 bytes on disk,
    decodes to [newer_decoded]: one descriptor none of whose parts is zero
    and two records, the second made of bytes of both records of the file.
    That capture is valid, has one record list for its one device, and is
    written and read back unchanged. *)
Lemma decoded_capture_reencodes_witness :
  fst (ReadFileData (Some newer_file) FileData_empty) = (Returned true, newer_decoded) /\
  snd (WriteFileData true newer_decoded) <> newer_file /\
  wf_FileData newer_decoded /\
  length (perDeviceData newer_decoded) = length (deviceDescs newer_decoded) /\
  fst (WriteFileData true newer_decoded) = true /\
  exists ifs',
    ReadFileData (Some (snd (WriteFileData true newer_decoded))) FileData_empty
    = (Returned true, newer_decoded, ifs').
Proof.
  assert (E : ReadFileData (Some newer_file) FileData_empty
              = (Returned true, newer_decoded,
                 snd (ReadFileData (Some newer_file) FileData_empty)))
    by (vm_compute; reflexivity).
  destruct (decoded_capture_reencodes _ _ _ _ E) as (Hwf & Hlen & Hre).
  split; [rewrite E; reflexivity|].
  split; [intros Heq; apply (f_equal (@length byte)) in Heq; vm_compute in Heq;
          discriminate Heq|].
  split; [exact Hwf|]. split; [exact Hlen|].
  apply Hre. split; [unfold byte_count; cbn; lia|].
  constructor; [unfold byte_count; cbn; lia | constructor].
Defined.
